(** * SEMF scoring engine (src/utils/semfScoring.ts)

    A shallow embedding of [SEMFScoringEngine] and the properties of its
    grading, normalisation, level mapping, tie-break and report assembly.

    Modelling conventions.
    - A JavaScript string is the list of its UTF-16 code units ([list N]).
    - A JavaScript number that holds a question count is a [Z]; a normalised
      score is an exact rational ([Q]): the engine only divides small
      integers by 20, 24, 12 or 56 and compares the quotient with integer
      constants.  [Binary64] computes the same scores in IEEE-754 double
      precision, and [binary64_tests_agree] checks that every comparison
      of the level mapping and of the tie-break has the same outcome there
      as in exact arithmetic, for every raw score of the three skills.
    - The answer set is a finite map from integers to strings, as its type
      [Record<number, string>] says.  The earlier results view reads its
      answer object through [Object.entries] and [parseInt] of the property
      names; there the object is a finite map from property names to
      strings.
    - [undefined] is [None]; so is [NaN] for the result of [parseInt].
    - A function that can end in a [TypeError] (a method call on
      [undefined]) returns a [Completion]: [Normal] with its value, or
      [TypeError] for the thrown exception.
    - [String.prototype.toUpperCase] and [toLowerCase] are Unicode case
      mappings that the engine does not define; they are parameters of the
      grading functions.  [asciiToUpperCase] and [asciiToLowerCase] are the
      instance used to run the engine on Basic Latin answers. *)

From Stdlib Require Import ZArith QArith Qround Qabs Lqa Lia List Ascii String.
From Stdlib Require Floats Uint63.
From stdpp Require Import base option list list_numbers gmap pretty.

Set Default Proof Using "Type".

(** ** JavaScript primitives used by the engine *)

Module JS.

(** Code units of a Rocq string literal (one per byte; literals below are
    Basic Latin). *)
Definition str (s : string) : list N :=
  List.map N_of_ascii (list_ascii_of_string s).

(** WhiteSpace and LineTerminator code points of ECMA-262: what
    [String.prototype.trim] strips and what the regular expression class
    [\s] matches. *)
Definition isWhiteSpace (c : N) : bool :=
  ((9 <=? c) && (c <=? 13) || (c =? 32) || (c =? 160) || (c =? 0x1680)
   || (0x2000 <=? c) && (c <=? 0x200A)
   || (c =? 0x2028) || (c =? 0x2029) || (c =? 0x202F) || (c =? 0x205F)
   || (c =? 0x3000) || (c =? 0xFEFF))%N.

Fixpoint trimStart (s : list N) : list N :=
  match s with
  | c :: s' => if isWhiteSpace c then trimStart s' else s
  | [] => []
  end.

Definition trimEnd (s : list N) : list N := rev (trimStart (rev s)).

Definition trim (s : list N) : list N := trimEnd (trimStart s).

(** [s.split(/\s+/)]: the pieces between the maximal runs of white space.
    [inSep] tells that the previous code unit belonged to a separator;
    [acc] is the current piece, reversed. *)
Fixpoint splitWhitespaceFrom (inSep : bool) (acc s : list N) : list (list N) :=
  match s with
  | [] => [rev acc]
  | c :: s' =>
      if isWhiteSpace c then
        if inSep then splitWhitespaceFrom true acc s'
        else rev acc :: splitWhitespaceFrom true [] s'
      else splitWhitespaceFrom false (c :: acc) s'
  end.

Definition splitWhitespace (s : list N) : list (list N) :=
  splitWhitespaceFrom false [] s.

Fixpoint startsWith (s pat : list N) : bool :=
  match pat, s with
  | [], _ => true
  | p :: pat', c :: s' => (c =? p)%N && startsWith s' pat'
  | _ :: _, [] => false
  end.

(** [s.includes(pat)] *)
Fixpoint includes (s pat : list N) : bool :=
  startsWith s pat ||
  match s with
  | [] => false
  | _ :: s' => includes s' pat
  end.

(** [keys.indexOf(k)]: position of the first strictly equal element,
    [-1] when there is none. *)
Fixpoint indexOfFrom (i : Z) (keys : list (list N)) (k : list N) : Z :=
  match keys with
  | [] => -1
  | k' :: keys' => if bool_decide (k' = k) then i else indexOfFrom (i + 1) keys' k
  end.

Definition indexOf (keys : list (list N)) (k : list N) : Z := indexOfFrom 0 keys k.

(** [keys[i]] for a number [i]: [undefined] out of range. *)
Definition at_index {A} (l : list A) (i : Z) : option A :=
  if (i <? 0)%Z then None else l !! Z.to_nat i.

(** [s.substring(1)] *)
Definition substring1 (s : list N) : list N := drop 1 s.

Definition digitValue (radix : Z) (c : N) : option Z :=
  let d :=
    (if ((48 <=? c) && (c <=? 57))%N then Z.of_N c - 48
     else if ((97 <=? c) && (c <=? 122))%N then Z.of_N c - 87
     else if ((65 <=? c) && (c <=? 90))%N then Z.of_N c - 55
     else radix)%Z in
  if (d <? radix)%Z then Some d else None.

(** The longest prefix of digits; [acc] is [None] until one is read. *)
Fixpoint parseDigits (radix : Z) (acc : option Z) (s : list N) : option Z :=
  match s with
  | [] => acc
  | c :: s' =>
      match digitValue radix c with
      | Some d => parseDigits radix (Some (radix * default 0 acc + d)%Z) s'
      | None => acc
      end
  end.

(** [parseInt(s)] with no radix argument: leading white space is
    skipped, then an optional sign, then [0x] or [0X] selects radix 16;
    the result is [NaN] ([None]) when no digit follows. *)
Definition parseInt (s : list N) : option Z :=
  let s1 := trimStart s in
  let '(sign, s2) :=
    match s1 with
    | 45%N :: r => ((-1)%Z, r)
    | 43%N :: r => (1%Z, r)
    | _ => (1%Z, s1)
    end in
  let '(radix, s3) :=
    match s2 with
    | 48%N :: 120%N :: r | 48%N :: 88%N :: r => (16%Z, r)
    | _ => (10%Z, s2)
    end in
  Z.mul sign <$> parseDigits radix None s3.

(** [Math.round]: nearest integer, halves towards positive infinity. *)
Definition Math_round (x : Q) : Z := Qfloor (x + (1 # 2)).

(** [Math.min] of two numbers, [NaN] when either is. *)
Definition Math_min (a b : option Z) : option Z :=
  match a, b with
  | Some x, Some y => Some (Z.min x y)
  | _, _ => None
  end.

(** Template-literal rendering of a number that holds an integer. *)
Definition showZ (n : Z) : list N := str (pretty n).

Definition showNumber (n : option Z) : list N :=
  match n with
  | Some z => showZ z
  | None => str "NaN"
  end.

(** [x || ''] for a string or [undefined]. *)
Definition orEmpty (x : option (list N)) : list N :=
  match x with
  | Some (c :: s) => c :: s
  | Some [] | None => []
  end.

Definition Qlt_bool (a b : Q) : bool := negb (Qle_bool b a).

(** Case mapping of the Basic Latin letters; other code units unchanged.
    It agrees with [String.prototype.toUpperCase] and [toLowerCase] on
    strings of Basic Latin code units; the engine is run with it on such
    samples only. *)
Definition asciiToUpperCase (s : list N) : list N :=
  List.map (fun c => if ((97 <=? c) && (c <=? 122))%N then (c - 32)%N else c) s.

Definition asciiToLowerCase (s : list N) : list N :=
  List.map (fun c => if ((65 <=? c) && (c <=? 90))%N then (c + 32)%N else c) s.

(** [parts.join(sep)] *)
Fixpoint join (sep : list N) (parts : list (list N)) : list N :=
  match parts with
  | [] => []
  | [p] => p
  | p :: rest => p ++ sep ++ join sep rest
  end.

(** [s.split(', ')]: the pieces between the occurrences of a comma followed
    by a space, scanned from the left; [acc] is the current piece,
    reversed. *)
Fixpoint splitCommaSpaceFrom (acc s : list N) : list (list N) :=
  match s with
  | [] => [rev acc]
  | c :: s' =>
      match s' with
      | d :: rest =>
          if (c =? 44)%N && (d =? 32)%N
          then rev acc :: splitCommaSpaceFrom [] rest
          else splitCommaSpaceFrom (c :: acc) s'
      | [] => splitCommaSpaceFrom (c :: acc) s'
      end
  end.

Definition splitCommaSpace (s : list N) : list (list N) := splitCommaSpaceFrom [] s.

(** [items.find(p)] and [items.findIndex(p)] *)
Fixpoint find {A} (p : A -> bool) (items : list A) : option A :=
  match items with
  | [] => None
  | x :: rest => if p x then Some x else find p rest
  end.

Fixpoint findIndexFrom {A} (i : Z) (p : A -> bool) (items : list A) : Z :=
  match items with
  | [] => -1
  | x :: rest => if p x then i else findIndexFrom (i + 1) p rest
  end.

Definition findIndex {A} (p : A -> bool) (items : list A) : Z := findIndexFrom 0 p items.

(** The start position [items.splice(start, ...)] works at, for an array
    of [len] elements. *)
Definition spliceStart (start : Z) (len : nat) : nat :=
  if (start <? 0)%Z then Z.to_nat (Z.max (Z.of_nat len + start) 0)
  else Z.to_nat (Z.min start (Z.of_nat len)).

End JS.

(** ** Data model *)

Record SEMFInput := {
  GrammarVocabulary : Z;
  ReadingWriting : Z;
  Listening : Z
}.

Record SEMFSkillResult := {
  skill : list N;
  rawScore : Z;
  normalizedScore : Q;
  level : list N;
  tieBreakerApplied : bool
}.

(** The [tieBreakerSkill] object of a result. *)
Record TieBreakerSkill := {
  tbsSkill : list N;
  tbsRawScore : Z;
  tbsNormalizedScore : Q
}.

(** [descriptions] is the object filled from the set of levels present:
    its entries in insertion order, a value being [None] for [undefined]. *)
Record SEMFResult := {
  skills : list SEMFSkillResult;
  tieBreakerSkill : TieBreakerSkill;
  overallLevel : list N;
  descriptions : list (list N * option (list N));
  summary : list N
}.

(** The object returned by [applyTieBreaker]; [tbLevel] is [None] when the
    looked-up lower level is [undefined]. *)
Record TieBreak := {
  tbLevel : option (list N);
  tbApplied : bool
}.

Module Range.
Record t := { min : Q; max : Q }.
End Range.

(** ** Static tables *)

Definition LEVEL_DESCRIPTIONS : list (list N * list N) :=
  [ (JS.str "S1", JS.str "Basic user - understands and uses simple expressions.");
    (JS.str "S2", JS.str "Elementary user - can handle short, routine exchanges.");
    (JS.str "S3", JS.str "Independent user - can deal with most everyday situations.");
    (JS.str "S4", JS.str "Proficient user - can interact fluently and spontaneously.");
    (JS.str "S5", JS.str "Mastery - can express ideas precisely in complex situations.") ].

(** [Object.entries(LEVEL_CUTOFFS)], in declaration order. *)
Definition LEVEL_CUTOFFS : list (list N * Range.t) :=
  [ (JS.str "S1", {| Range.min := 0; Range.max := 15 |});
    (JS.str "S2", {| Range.min := 16; Range.max := 25 |});
    (JS.str "S3", {| Range.min := 26; Range.max := 33 |});
    (JS.str "S4", {| Range.min := 34; Range.max := 42 |});
    (JS.str "S5", {| Range.min := 43; Range.max := 50 |}) ].

(** [Object.keys(table)] *)
Definition Object_keys {A} (table : list (list N * A)) : list (list N) :=
  List.map fst table.

(** [table[key]] *)
Fixpoint property {A} (table : list (list N * A)) (key : list N) : option A :=
  match table with
  | [] => None
  | (k, v) :: rest => if bool_decide (k = key) then Some v else property rest key
  end.

Definition CORRECT_ANSWERS (i : Z) : option (list N) :=
  match i with
  | 1 => Some (JS.str "B") | 2 => Some (JS.str "A") | 3 => Some (JS.str "C")
  | 4 => Some (JS.str "B") | 5 => Some (JS.str "C")
  | 6 => Some (JS.str "C") | 7 => Some (JS.str "B") | 8 => Some (JS.str "A")
  | 9 => Some (JS.str "C") | 10 => Some (JS.str "A")
  | 11 => Some (JS.str "B") | 12 => Some (JS.str "B") | 13 => Some (JS.str "C")
  | 14 => Some (JS.str "C") | 15 => Some (JS.str "C")
  | 16 => Some (JS.str "B") | 17 => Some (JS.str "B") | 18 => Some (JS.str "B")
  | 19 => Some (JS.str "C") | 20 => Some (JS.str "B")
  | 21 => Some (JS.str "C") | 22 => Some (JS.str "C") | 23 => Some (JS.str "B")
  | 24 => Some (JS.str "D") | 25 => Some (JS.str "B")
  | 26 => Some (JS.str "C") | 27 => Some (JS.str "B") | 28 => Some (JS.str "B")
  | 29 => Some (JS.str "B") | 30 => Some (JS.str "B")
  | 31 => Some (JS.str "B") | 32 => Some (JS.str "B") | 33 => Some (JS.str "C")
  | 34 => Some (JS.str "A") | 35 => Some (JS.str "C")
  | 36 => Some (JS.str "B, C, D, A") | 37 => Some (JS.str "C, B, A, D")
  | 38 => Some (JS.str "A, C, D, B")
  | 39 => Some (JS.str "B, C, D, A") | 40 => Some (JS.str "C, B, D, A")
  | 45 => Some (JS.str "B") | 46 => Some (JS.str "B") | 47 => Some (JS.str "C")
  | 48 => Some (JS.str "B") | 49 => Some (JS.str "B") | 50 => Some (JS.str "C")
  | 51 => Some (JS.str "B") | 52 => Some (JS.str "B") | 53 => Some (JS.str "B")
  | 54 => Some (JS.str "B") | 55 => Some (JS.str "C") | 56 => Some (JS.str "B")
  | _ => None
  end%Z.

Definition TEXT_ANSWER_KEYWORDS (i : Z) : option (list (list N)) :=
  match i with
  | 41 => Some (List.map JS.str
            ["flexibility"; "commute"; "talent"; "global"; "reduced"; "access"])
  | 42 => Some (List.map JS.str
            ["isolation"; "culture"; "security"; "challenges"; "difficulties"])
  | 43 => Some (List.map JS.str
            ["maximize"; "benefits"; "mitigate"; "drawbacks"; "strategies"; "developing"])
  | _ => None
  end%Z.

(** ** Exceptions

    The only exception the engine can raise is the [TypeError] of a method
    call on [undefined]. *)

Inductive Completion (A : Type) : Type :=
  | Normal (a : A)
  | TypeError.
Arguments Normal {A} a.
Arguments TypeError {A}.

Definition bind {A B} (c : Completion A) (k : A -> Completion B) : Completion B :=
  match c with
  | Normal a => k a
  | TypeError => TypeError
  end.

Notation "'let*' x ':=' c 'in' k" := (bind c (fun x => k))
  (at level 10, x name, c at level 100, k at level 200).

(** [for (let i = lo; i <= hi; i++) body], the body threading [acc]. *)
Definition forRange {A} (lo hi : Z) (body : Z -> A -> Completion A) (acc : A)
  : Completion A :=
  foldl (fun c i => let* a := c in body i a) (Normal acc) (seqZ lo (hi - lo + 1)).

(** ** Answer grading: [calculateActualScores] *)

Section Grading.

Variables toUpperCase toLowerCase : list N -> list N.

(** Loop body of the single-letter ranges 1-20, 21-35 and 45-56. *)
Definition letterPoint (answers : gmap Z (list N)) (i : Z) : bool :=
  let userAnswer := toUpperCase <$> (JS.trim <$> answers !! i) in
  let correctAnswer := CORRECT_ANSWERS i in
  bool_decide (userAnswer = correctAnswer).

(** Loop body of the sentence-ordering range 36-40. *)
Definition orderingPoint (answers : gmap Z (list N)) (i : Z) : bool :=
  let userAnswer := JS.trim <$> answers !! i in
  let correctAnswer := CORRECT_ANSWERS i in
  bool_decide (userAnswer = correctAnswer).

(** Loop body of the text range 41-43; [keywords.filter] throws when the
    keyword table has no entry for [i]. *)
Definition textPoint (answers : gmap Z (list N)) (i : Z) : Completion bool :=
  let userAnswer := JS.orEmpty (toLowerCase <$> answers !! i) in
  match TEXT_ANSWER_KEYWORDS i with
  | None => TypeError
  | Some keywords =>
      let keywordMatches :=
        length (List.filter
                  (fun keyword => JS.includes userAnswer (toLowerCase keyword))
                  keywords) in
      Normal ((2 <=? keywordMatches)%nat && (20 <=? length userAnswer)%nat)
  end.

Definition essayAnswer (answers : gmap Z (list N)) : list N :=
  JS.orEmpty (JS.trim <$> answers !! 44%Z).

Definition wordCount (answers : gmap Z (list N)) : nat :=
  match essayAnswer answers with
  | [] => 0
  | _ :: _ => length (JS.splitWhitespace (essayAnswer answers))
  end.

Definition hasArgument (answers : gmap Z (list N)) : bool :=
  JS.includes (toLowerCase (essayAnswer answers)) (JS.str "advantage")
  || JS.includes (toLowerCase (essayAnswer answers)) (JS.str "disadvantage")
  || JS.includes (toLowerCase (essayAnswer answers)) (JS.str "benefit")
  || JS.includes (toLowerCase (essayAnswer answers)) (JS.str "challenge").

(** The essay question 44. *)
Definition essayPoint (answers : gmap Z (list N)) : bool :=
  if (80 <=? wordCount answers)%nat && (wordCount answers <=? 200)%nat
     && (0 <? length (essayAnswer answers))%nat
  then if hasArgument answers then true else false
  else false.

Definition increment (hit : bool) (score : Z) : Z :=
  if hit then (score + 1)%Z else score.

Definition calculateActualScores (answers : gmap Z (list N))
  : Completion SEMFInput :=
  let* grammarScore :=
    forRange 1 20 (fun i s => Normal (increment (letterPoint answers i) s)) 0%Z in
  let* readingWritingScore :=
    forRange 21 35 (fun i s => Normal (increment (letterPoint answers i) s)) 0%Z in
  let* readingWritingScore :=
    forRange 36 40 (fun i s => Normal (increment (orderingPoint answers i) s))
      readingWritingScore in
  let* readingWritingScore :=
    forRange 41 43
      (fun i s => let* hit := textPoint answers i in Normal (increment hit s))
      readingWritingScore in
  let readingWritingScore := increment (essayPoint answers) readingWritingScore in
  let* listeningScore :=
    forRange 45 56 (fun i s => Normal (increment (letterPoint answers i) s)) 0%Z in
  Normal {| GrammarVocabulary := grammarScore;
            ReadingWriting := readingWritingScore;
            Listening := listeningScore |}.

End Grading.

(** ** Normalisation, level mapping and tie-break: the closures of
    [calculateSEMFLevel] *)

(** Step 1: the three normalised scores on the 0-50 scale. *)
Definition grammarVocabNorm (rawScores : SEMFInput) : Q :=
  (inject_Z (GrammarVocabulary rawScores) / 20) * 50.

Definition readingWritingNorm (rawScores : SEMFInput) : Q :=
  (inject_Z (ReadingWriting rawScores) / 24) * 50.

Definition listeningNorm (rawScores : SEMFInput) : Q :=
  (inject_Z (Listening rawScores) / 12) * 50.

(** The test of one band in [mapToLevel]. *)
Definition inRange (range : Range.t) (normalizedScore : Q) : bool :=
  Qle_bool (Range.min range) normalizedScore
  && Qle_bool normalizedScore (Range.max range).

(** Step 2: the loop of [mapToLevel] over the remaining entries, with its
    fallback. *)
Fixpoint mapToLevelFrom (entries : list (list N * Range.t)) (normalizedScore : Q)
  : list N :=
  match entries with
  | [] => JS.str "S1"
  | (level, range) :: rest =>
      if inRange range normalizedScore then level
      else mapToLevelFrom rest normalizedScore
  end.

Definition mapToLevel (normalizedScore : Q) : list N :=
  mapToLevelFrom LEVEL_CUTOFFS normalizedScore.

(** The two window tests of the tie-break loop body. *)
Definition lowerWindow (range : Range.t) (normalizedScore : Q) : bool :=
  Qle_bool (Range.min range - 2) normalizedScore
  && JS.Qlt_bool normalizedScore (Range.min range).

Definition upperWindow (range : Range.t) (normalizedScore : Q) : bool :=
  JS.Qlt_bool (Range.max range) normalizedScore
  && Qle_bool normalizedScore (Range.max range + 2).

(** Step 3: one run of the loop body of [applyTieBreaker] for the entry
    [(level, range)]; [Some] is a [return] from inside the loop. *)
Definition tieBreakerStep (level : list N) (range : Range.t)
    (normalizedScore grammarVocabNorm : Q) : option TieBreak :=
  let upperCheck :=
    if upperWindow range normalizedScore then
      if JS.Qlt_bool grammarVocabNorm 35 then
        let levelIndex := JS.indexOf (Object_keys LEVEL_CUTOFFS) level in
        if (levelIndex >? 0)%Z then
          let lowerLevel :=
            JS.at_index (Object_keys LEVEL_CUTOFFS) (levelIndex - 1) in
          Some {| tbLevel := lowerLevel; tbApplied := true |}
        else None
      else None
    else None in
  if lowerWindow range normalizedScore then
    if Qle_bool 35 grammarVocabNorm then
      Some {| tbLevel := Some level; tbApplied := true |}
    else upperCheck
  else upperCheck.

(** The loop over the remaining entries.  The second component is the
    object returned from inside the loop, if any; the first lists the bands
    whose loop body was run. *)
Fixpoint tieBreakerScan (entries : list (list N * Range.t))
    (normalizedScore grammarVocabNorm : Q) : list (list N) * option TieBreak :=
  match entries with
  | [] => ([], None)
  | (level, range) :: rest =>
      match tieBreakerStep level range normalizedScore grammarVocabNorm with
      | Some result => ([level], Some result)
      | None =>
          let next := tieBreakerScan rest normalizedScore grammarVocabNorm in
          (level :: fst next, snd next)
      end
  end.

Definition applyTieBreaker (normalizedScore grammarVocabNorm : Q) : TieBreak :=
  let baseLevel := mapToLevel normalizedScore in
  match snd (tieBreakerScan LEVEL_CUTOFFS normalizedScore grammarVocabNorm) with
  | Some result => result
  | None => {| tbLevel := Some baseLevel; tbApplied := false |}
  end.

(** The bands visited by the loop of [applyTieBreaker]. *)
Definition bandsVisited (normalizedScore grammarVocabNorm : Q) : list (list N) :=
  fst (tieBreakerScan LEVEL_CUTOFFS normalizedScore grammarVocabNorm).

(** Step 4: [level.substring(1)] throws on [undefined]; [parseInt] gives
    [NaN] ([None]) when no digit follows. *)
Definition levelToNumber (level : option (list N)) : Completion (option Z) :=
  match level with
  | Some l => Normal (JS.parseInt (JS.substring1 l))
  | None => TypeError
  end.

(** ** Report assembly *)

(** [new Set(levels)]: distinct elements in insertion order. *)
Fixpoint Set_of (seen levels : list (list N)) : list (list N) :=
  match levels with
  | [] => []
  | l :: rest =>
      if bool_decide (l ∈ seen) then Set_of seen rest
      else l :: Set_of (l :: seen) rest
  end.

(** A level used as a property key or in a template literal. *)
Definition levelString (level : option (list N)) : list N :=
  match level with
  | Some l => l
  | None => JS.str "undefined"
  end.

Definition totalAnswered (answers : gmap Z (list N)) : Z := Z.of_nat (size answers).

Definition totalPossible : Z := 56.

Definition completionRate (answers : gmap Z (list N)) : Q :=
  (inject_Z (totalAnswered answers) / inject_Z totalPossible) * 100.

Definition percent (score maxScore : Z) : Z :=
  JS.Math_round ((inject_Z score / inject_Z maxScore) * 100).

Definition newline : list N := [10%N].
Definition bullet : list N := [0x2022%N].

Definition recommendation (level : list N) : list N :=
  if bool_decide (level = JS.str "S1") then
    JS.str "Recommendations: Focus on basic vocabulary building, simple sentence structures, and everyday expressions. Practice listening to slow, clear speech."
  else if bool_decide (level = JS.str "S2") then
    JS.str "Recommendations: Expand vocabulary for common situations, practice past and future tenses, and work on basic conversation skills."
  else if bool_decide (level = JS.str "S3") then
    JS.str "Recommendations: Study complex grammar structures, academic vocabulary, and practice expressing opinions clearly in writing."
  else if bool_decide (level = JS.str "S4") then
    JS.str "Recommendations: Refine advanced grammar usage, expand professional vocabulary, and practice nuanced expression in complex topics."
  else if bool_decide (level = JS.str "S5") then
    JS.str "Recommendations: Maintain proficiency through exposure to complex texts, academic writing, and professional communication contexts."
  else
    JS.str "Continue practicing to improve your English proficiency.".

(** The line of the summary that reports the completion percentage. *)
Definition completionLine (answers : gmap Z (list N)) : list N :=
  bullet ++ JS.str " Test Completion: "
  ++ JS.showZ (JS.Math_round (completionRate answers)) ++ JS.str "%"
  ++ newline ++ newline.

Definition scoreLine (label : string) (score maxScore : Z) : list N :=
  bullet ++ JS.str label ++ JS.showZ score ++ JS.str "/" ++ JS.showZ maxScore
  ++ JS.str " (" ++ JS.showZ (percent score maxScore) ++ JS.str "%)" ++ newline.

Definition getDetailedFeedback (answers : gmap Z (list N)) (level : list N)
    (scores : SEMFInput) : list N :=
  JS.str "Overall SEMF Level: " ++ level ++ newline ++ newline
  ++ JS.str "Performance Breakdown:" ++ newline
  ++ scoreLine " Grammar & Vocabulary: " (GrammarVocabulary scores) 20
  ++ scoreLine " Reading & Writing: " (ReadingWriting scores) 24
  ++ scoreLine " Listening: " (Listening scores) 12
  ++ completionLine answers
  ++ recommendation level.

(** [Math.round(x * 10) / 10] *)
Definition round1 (x : Q) : Q := inject_Z (JS.Math_round (x * 10)) / 10.

(** ** The entry point *)

Section Engine.

Variables toUpperCase toLowerCase : list N -> list N.

Definition calculateSEMFLevel (answers : gmap Z (list N)) : Completion SEMFResult :=
  let* rawScores := calculateActualScores toUpperCase toLowerCase answers in
  let readingWritingResult :=
    applyTieBreaker (readingWritingNorm rawScores) (grammarVocabNorm rawScores) in
  let listeningResult :=
    applyTieBreaker (listeningNorm rawScores) (grammarVocabNorm rawScores) in
  let* readingWritingNumber := levelToNumber (tbLevel readingWritingResult) in
  let* listeningNumber := levelToNumber (tbLevel listeningResult) in
  let overallNumber := JS.Math_min readingWritingNumber listeningNumber in
  let overallLevel := JS.str "S" ++ JS.showNumber overallNumber in
  let skills :=
    [ {| skill := JS.str "ReadingWriting";
         rawScore := ReadingWriting rawScores;
         normalizedScore := round1 (readingWritingNorm rawScores);
         level := levelString (tbLevel readingWritingResult);
         tieBreakerApplied := tbApplied readingWritingResult |};
      {| skill := JS.str "Listening";
         rawScore := Listening rawScores;
         normalizedScore := round1 (listeningNorm rawScores);
         level := levelString (tbLevel listeningResult);
         tieBreakerApplied := tbApplied listeningResult |} ] in
  let tieBreakerSkill :=
    {| tbsSkill := JS.str "GrammarVocabulary";
       tbsRawScore := GrammarVocabulary rawScores;
       tbsNormalizedScore := round1 (grammarVocabNorm rawScores) |} in
  let levelsPresent :=
    Set_of [] [ levelString (tbLevel readingWritingResult);
                levelString (tbLevel listeningResult);
                overallLevel ] in
  let descriptions :=
    List.map (fun level => (level, property LEVEL_DESCRIPTIONS level)) levelsPresent in
  let summary := getDetailedFeedback answers overallLevel rawScores in
  Normal {| skills := skills;
            tieBreakerSkill := tieBreakerSkill;
            overallLevel := overallLevel;
            descriptions := descriptions;
            summary := summary |}.

End Engine.

(** ** The scores in double precision *)

Module Binary64.

Definition ofZ (z : Z) : PrimFloat.float :=
  if (z <? 0)%Z
  then PrimFloat.opp (PrimFloat.of_uint63 (Uint63.of_Z (- z)))
  else PrimFloat.of_uint63 (Uint63.of_Z z).

(** [(raw / maxScore) * 50] *)
Definition normalized (raw maxScore : Z) : PrimFloat.float :=
  PrimFloat.mul (PrimFloat.div (ofZ raw) (ofZ maxScore)) (ofZ 50).

(** The constants a score is compared with: the band limits, the limits
    less and plus 2, and the GrammarVocabulary threshold 35. *)
Definition thresholds : list Z :=
  List.flat_map
    (fun entry : list N * Range.t =>
       let lo := Qfloor (Range.min (snd entry)) in
       let hi := Qfloor (Range.max (snd entry)) in
       [lo; hi; lo - 2; hi + 2]%Z)
    LEVEL_CUTOFFS ++ [35%Z].

(** The four comparisons of a score with a constant agree between the
    double [x] and the rational [q]. *)
Definition sameTests (x : PrimFloat.float) (q : Q) : bool :=
  forallb
    (fun t : Z =>
       Bool.eqb (PrimFloat.leb (ofZ t) x) (Qle_bool (inject_Z t) q)
       && Bool.eqb (PrimFloat.leb x (ofZ t)) (Qle_bool q (inject_Z t))
       && Bool.eqb (PrimFloat.ltb (ofZ t) x) (JS.Qlt_bool (inject_Z t) q)
       && Bool.eqb (PrimFloat.ltb x (ofZ t)) (JS.Qlt_bool q (inject_Z t)))
    thresholds.

Definition sameTestsUpTo (maxScore : Z) : bool :=
  forallb
    (fun raw : Z =>
       sameTests (normalized raw maxScore) (inject_Z raw / inject_Z maxScore * 50))
    (seqZ 0 (maxScore + 1)).

End Binary64.

(** ** The results view

    [getSEMFLevelColor] and the skill cards of [TestResults], and
    [calculateRawScores] of its earlier version
    (src/components/TestResults.tsx). *)

Module ResultsView.

Record Palette := {
  bg : list N;
  text : list N;
  bgLight : list N;
  border : list N
}.

Definition palette (bg text bgLight border : string) : Palette :=
  {| bg := JS.str bg; text := JS.str text;
     bgLight := JS.str bgLight; border := JS.str border |}.

Definition getSEMFLevelColor (level : list N) : Palette :=
  if bool_decide (level = JS.str "S5") then
    palette "bg-purple-500" "text-purple-600" "bg-purple-50" "border-purple-300"
  else if bool_decide (level = JS.str "S4") then
    palette "bg-blue-600" "text-blue-600" "bg-blue-50" "border-blue-300"
  else if bool_decide (level = JS.str "S3") then
    palette "bg-teal-500" "text-teal-600" "bg-teal-50" "border-teal-300"
  else if bool_decide (level = JS.str "S2") then
    palette "bg-yellow-500" "text-yellow-600" "bg-yellow-50" "border-yellow-300"
  else if bool_decide (level = JS.str "S1") then
    palette "bg-red-500" "text-red-600" "bg-red-50" "border-red-300"
  else
    palette "bg-gray-500" "text-gray-600" "bg-gray-50" "border-gray-300".

(** The skill card: [maxScore] and [percentage] of one entry of
    [semfResult.skills]. *)
Definition maxScore (s : SEMFSkillResult) : Z :=
  if bool_decide (skill s = JS.str "ReadingWriting") then 24 else 12.


(** [Object.entries(answers).filter(([id]) => parseInt(id) >= lo &&
    parseInt(id) <= hi)]. The object is taken as [Object.entries] yields
    it: a finite map from property names to answers; a name that does not
    parse gives [NaN], which fails both comparisons. *)
Definition entriesBetween (lo hi : Z) (answers : gmap (list N) (list N))
  : list (list N * list N) :=
  List.filter
    (fun entry =>
       match JS.parseInt (fst entry) with
       | Some n => (lo <=? n)%Z && (n <=? hi)%Z
       | None => false
       end)
    (map_to_list answers).

(** [calculateRawScores]: the simulated scores of the earlier results
    view. *)
Definition calculateRawScores (answers : gmap (list N) (list N)) : SEMFInput :=
  let grammarAnswers := entriesBetween 1 20 answers in
  let grammarScore := Qfloor (inject_Z (Z.of_nat (length grammarAnswers)) * 0.8) in
  let readingWritingAnswers := entriesBetween 21 44 answers in
  let readingWritingScore :=
    Qfloor (inject_Z (Z.of_nat (length readingWritingAnswers)) * 0.75) in
  let listeningAnswers := entriesBetween 45 56 answers in
  let listeningScore := Qfloor (inject_Z (Z.of_nat (length listeningAnswers)) * 0.8) in
  {| GrammarVocabulary := Z.min grammarScore 20;
     ReadingWriting := Z.min readingWritingScore 24;
     Listening := Z.min listeningScore 12 |}.

End ResultsView.

(** ** The sentence-ordering widget

    [SentenceOrderingQuestion]: the order of the sentences is the state, and
    each change reports the answer string through [onAnswerChange]. The
    sentences extracted from the question text are a parameter. *)

Module SentenceOrdering.

Record Sentence := {
  id : list N;
  letter : list N;
  text : list N
}.

Inductive Direction := up | down.

(** The state of the component. *)
Record State := {
  orderedSentences : list Sentence;
  draggedItem : option (list N);
  touchStartY : option Q;
  isDragging : bool
}.

(** [getInitialOrder]: the order a stored answer stands for, or the default
    order. *)
Definition getInitialOrder (sentences : list Sentence) (selectedAnswer : list N)
  : list Sentence :=
  match selectedAnswer with
  | _ :: _ =>
      if JS.includes selectedAnswer (JS.str ",") then
        let answerOrder := JS.splitCommaSpace selectedAnswer in
        let reorderedSentences :=
          omap (fun l => JS.find (fun s => bool_decide (letter s = l)) sentences)
            answerOrder in
        if (length reorderedSentences =? length sentences)%nat
        then reorderedSentences
        else sentences
      else sentences
  | [] => sentences
  end.

(** The string [updateAnswer] passes to [onAnswerChange]. *)
Definition answerString (newOrder : list Sentence) : list N :=
  JS.join (JS.str ", ") (List.map letter newOrder).

(** [moveSentence]: the new state and the answer reported, if any. When
    [targetIndex] is in range and [index] is not, the swap stores
    [undefined] in the array and [updateAnswer] throws on it. *)
Definition moveSentence (st : State) (index : Z) (direction : Direction)
  : Completion (State * option (list N)) :=
  let newOrder := orderedSentences st in
  let targetIndex :=
    match direction with
    | up => (index - 1)%Z
    | down => (index + 1)%Z
    end in
  if (targetIndex >=? 0)%Z && (targetIndex <? Z.of_nat (length newOrder))%Z then
    match JS.at_index newOrder index, JS.at_index newOrder targetIndex with
    | Some atIndex, Some atTarget =>
        let newOrder :=
          <[Z.to_nat targetIndex := atIndex]> (<[Z.to_nat index := atTarget]> newOrder) in
        Normal ({| orderedSentences := newOrder;
                   draggedItem := draggedItem st;
                   touchStartY := touchStartY st;
                   isDragging := isDragging st |},
                Some (answerString newOrder))
    | _, _ => TypeError
    end
  else Normal (st, None).

(** [!draggedItem]: [null] and the empty string are falsy. *)
Definition noItem (item : option (list N)) : bool :=
  match item with
  | None | Some [] => true
  | Some (_ :: _) => false
  end.

(** [!touchStartY]: [null] and 0 are falsy. *)
Definition noStart (y : option Q) : bool :=
  match y with
  | None => true
  | Some y0 => Qeq_bool y0 0
  end.

Definition draggedIndex (st : State) : Z :=
  JS.findIndex (fun s => bool_decide (Some (id s) = draggedItem st)) (orderedSentences st).

(** [handleDrop] on the sentence at position [targetIndex]. *)
Definition handleDrop (st : State) (targetIndex : Z)
  : Completion (State * option (list N)) :=
  if noItem (draggedItem st) then Normal (st, None)
  else if (draggedIndex st =? -1)%Z then Normal (st, None)
  else
    match orderedSentences st !! Z.to_nat (draggedIndex st) with
    | Some draggedSentence =>
        let newOrder := delete (Z.to_nat (draggedIndex st)) (orderedSentences st) in
        let start := JS.spliceStart targetIndex (length newOrder) in
        let newOrder := take start newOrder ++ draggedSentence :: drop start newOrder in
        Normal ({| orderedSentences := newOrder;
                   draggedItem := None;
                   touchStartY := touchStartY st;
                   isDragging := false |},
                Some (answerString newOrder))
    | None => TypeError
    end.

(** [handleTouchEnd] for a touch released at [currentY]. *)
Definition handleTouchEnd (st : State) (currentY : Q)
  : Completion (State * option (list N)) :=
  if noItem (draggedItem st) || noStart (touchStartY st) then Normal (st, None)
  else
    let deltaY := (currentY - default 0 (touchStartY st))%Q in
    let itemHeight := 80%Q in
    let moveThreshold := (itemHeight / 2)%Q in
    let* moved :=
      if JS.Qlt_bool moveThreshold (Qabs deltaY) then
        moveSentence st (draggedIndex st)
          (if JS.Qlt_bool deltaY 0 then up else down)
      else Normal (st, None) in
    Normal ({| orderedSentences := orderedSentences (fst moved);
               draggedItem := None;
               touchStartY := None;
               isDragging := false |},
            snd moved).

End SentenceOrdering.

(** ** Vocabulary of the specification *)

(** The bands of the cutoff table whose inclusive range contains [n]. *)
Definition bandsContaining (n : Q) : list (list N) :=
  List.map fst (List.filter (fun entry => inRange (snd entry) n) LEVEL_CUTOFFS).

(** Position of a level in the cutoff table ([-1] for a string that is
    not a level). *)
Definition bandPosition (level : list N) : Z :=
  JS.indexOf (Object_keys LEVEL_CUTOFFS) level.

(** The band below [level] by table position, as the downward case looks
    it up: [None] when [level] is the first key or no key at all. *)
Definition bandBelow (level : list N) : option (option (list N)) :=
  if (bandPosition level >? 0)%Z
  then Some (JS.at_index (Object_keys LEVEL_CUTOFFS) (bandPosition level - 1))
  else None.

(** The conditions under which the loop body of the tie-break returns for
    the band at position [i] of the table, as inequalities on the two
    scores: upward, the score lies less than 2 below the band and the
    GrammarVocabulary score is at least 35; downward, the score lies at
    most 2 above the band, the GrammarVocabulary score is below 35 and the
    band has a band below it. *)
Definition returnsUpward (range : Range.t) (s g : Q) : Prop :=
  (Range.min range - 2 <= s /\ s < Range.min range)%Q /\ (35 <= g)%Q.

Definition returnsDownward (i : nat) (range : Range.t) (s g : Q) : Prop :=
  (Range.max range < s /\ s <= Range.max range + 2)%Q /\ (g < 35)%Q /\ (0 < i)%nat.

Definition bodyReturns (i : nat) (range : Range.t) (s g : Q) : Prop :=
  returnsUpward range s g \/ returnsDownward i range s g.

(** The bands whose loop body would return if it were run. *)
Definition returningBands (normalizedScore grammarVocabNorm : Q) : list (list N) :=
  List.map fst
    (List.filter
       (fun entry =>
          bool_decide (is_Some (tieBreakerStep (fst entry) (snd entry)
                                  normalizedScore grammarVocabNorm)))
       LEVEL_CUTOFFS).

(** The scan as the specification words it: all bands are visited and a
    later match replaces an earlier one. *)
Definition lastMatchScan (normalizedScore grammarVocabNorm : Q) : option TieBreak :=
  foldl (fun found entry =>
           match tieBreakerStep (fst entry) (snd entry)
                   normalizedScore grammarVocabNorm with
           | Some result => Some result
           | None => found
           end)
        None LEVEL_CUTOFFS.

(** The number of words of a string: its maximal runs of code units that
    are not white space. [inWord] tells that the previous code unit
    belonged to a word. *)
Fixpoint countWordsFrom (inWord : bool) (s : list N) : nat :=
  match s with
  | [] => 0
  | c :: s' =>
      if JS.isWhiteSpace c then countWordsFrom false s'
      else (if inWord then 0 else 1) + countWordsFrom true s'
  end.

Definition countWords (s : list N) : nat := countWordsFrom false s.

(** The four words the essay is searched for. *)
Definition argumentWords : list (list N) :=
  [JS.str "advantage"; JS.str "disadvantage"; JS.str "benefit"; JS.str "challenge"].

(** The ordinal number of a level: the number after its [S]. *)
Definition levelOrdinal (level : list N) : option Z :=
  JS.parseInt (JS.substring1 level).

(** The number of questions of a list that score a point. *)
Fixpoint points (hit : Z -> bool) (questions : list Z) : Z :=
  match questions with
  | [] => 0
  | i :: rest => ((if hit i then 1 else 0) + points hit rest)%Z
  end.

(** The point of a text question when its loop body completes. *)
Definition textHit (toLowerCase : list N -> list N) (answers : gmap Z (list N))
    (i : Z) : bool :=
  match textPoint toLowerCase answers i with
  | Normal hit => hit
  | TypeError => false
  end.

(** A report with every field the interface declares: the two skills in
    order, levels that are keys of the cutoff table, and a description for
    each level present. *)
Definition completeReport (report : SEMFResult) : Prop :=
  List.map skill (skills report) = [JS.str "ReadingWriting"; JS.str "Listening"]
  /\ Forall (fun r => In (level r) (Object_keys LEVEL_CUTOFFS)) (skills report)
  /\ tbsSkill (tieBreakerSkill report) = JS.str "GrammarVocabulary"
  /\ In (overallLevel report) (Object_keys LEVEL_CUTOFFS)
  /\ (forall l, In l (overallLevel report :: List.map level (skills report)) ->
             exists text, In (l, Some text) (descriptions report))
  /\ Forall (fun entry => is_Some (snd entry)) (descriptions report)
  /\ summary report <> [].

(** ** Sample answer sets *)

Definition answerSet (entries : list (Z * string)) : gmap Z (list N) :=
  list_to_map (List.map (fun entry => (fst entry, JS.str (snd entry))) entries).

(** Questions 21-40 answered as the key has them and question 41 with two
    of its keywords: 21 reading and writing points, nothing else. *)
Definition answersReadingWriting21 : gmap Z (list N) :=
  answerSet
    [ (21, "C"); (22, "C"); (23, "B"); (24, "D"); (25, "B");
      (26, "C"); (27, "B"); (28, "B"); (29, "B"); (30, "B");
      (31, "B"); (32, "B"); (33, "C"); (34, "A"); (35, "C");
      (36, "B, C, D, A"); (37, "C, B, A, D"); (38, "A, C, D, B");
      (39, "B, C, D, A"); (40, "C, B, D, A");
      (41, "flexibility and commute") ]%Z.

(** Questions 21-36 answered as the key has them: 16 reading and writing
    points, nothing else. *)
Definition answersReadingWriting16 : gmap Z (list N) :=
  answerSet
    [ (21, "C"); (22, "C"); (23, "B"); (24, "D"); (25, "B");
      (26, "C"); (27, "B"); (28, "B"); (29, "B"); (30, "B");
      (31, "B"); (32, "B"); (33, "C"); (34, "A"); (35, "C");
      (36, "B, C, D, A") ]%Z.

(** Questions 1-14 and 21-27 answered as the key has them: 14 grammar
    points (normalised 35) and 7 reading and writing points. *)
Definition answersGrammar14ReadingWriting7 : gmap Z (list N) :=
  answerSet
    [ (1, "B"); (2, "A"); (3, "C"); (4, "B"); (5, "C");
      (6, "C"); (7, "B"); (8, "A"); (9, "C"); (10, "A");
      (11, "B"); (12, "B"); (13, "C"); (14, "C");
      (21, "C"); (22, "C"); (23, "B"); (24, "D"); (25, "B");
      (26, "C"); (27, "B") ]%Z.

(** Questions 45-52 answered as the key has them: 8 listening points,
    nothing else. *)
Definition answersListening8 : gmap Z (list N) :=
  answerSet
    [ (45, "B"); (46, "B"); (47, "C"); (48, "B");
      (49, "B"); (50, "C"); (51, "B"); (52, "B") ]%Z.

(** Fifty-seven entries with empty answers, for the question identifiers
    1 to 57. *)
Definition answersFiftySevenEmpty : gmap Z (list N) :=
  list_to_map (List.map (fun i => (i, [])) (seqZ 1 57)).

(** The engine with the Basic Latin case mapping. *)
Definition calculateSEMFLevelLatin : gmap Z (list N) -> Completion SEMFResult :=
  calculateSEMFLevel JS.asciiToUpperCase JS.asciiToLowerCase.

Definition calculateActualScoresLatin : gmap Z (list N) -> Completion SEMFInput :=
  calculateActualScores JS.asciiToUpperCase JS.asciiToLowerCase.

(** ** Auxiliary notions of the further properties *)

(** Whether the last code unit of [s] is white space; [d] answers for the
    empty string. *)
Fixpoint endsWithWhitespace (d : bool) (s : list N) : bool :=
  match s with
  | [] => d
  | c :: s' => endsWithWhitespace (JS.isWhiteSpace c) s'
  end.

(** [Math.floor(count * (num / den))] computed in double precision lands
    on the integer [k]: [k <= x < k + 1]. *)
Definition floorsTo (count num den k : Z) : bool :=
  let x := PrimFloat.mul (Binary64.ofZ count)
             (PrimFloat.div (Binary64.ofZ num) (Binary64.ofZ den)) in
  PrimFloat.leb (Binary64.ofZ k) x && PrimFloat.ltb x (Binary64.ofZ (k + 1)).


(** Letters as the sentence extractor produces them: not empty, without a
    comma and without white space. *)
Definition plainLetter (p : list N) : Prop :=
  p <> [] /\ Forall (fun c => c <> 44%N /\ JS.isWhiteSpace c = false) p.

(** ** Sample essays and answer objects *)

(** An essay of [n] times the same word, each followed by [separator]. *)
Definition essayOfWords (word separator : list N) (n : nat) : list N :=
  concat (repeat (word ++ separator) n).

(** An answer object of the earlier results view with the property names
    of the identifiers 1 to 20 and of the numbers 1e21 to 7e21, all with
    the same answer. *)
Definition namesOneToTwenty : list string :=
  ["1"; "2"; "3"; "4"; "5"; "6"; "7"; "8"; "9"; "10";
   "11"; "12"; "13"; "14"; "15"; "16"; "17"; "18"; "19"; "20"].

Definition namesExponent : list string :=
  ["1e+21"; "2e+21"; "3e+21"; "4e+21"; "5e+21"; "6e+21"; "7e+21"].

Definition answersNamed (names : list string) : gmap (list N) (list N) :=
  list_to_map (List.map (fun name => (JS.str name, JS.str "B")) names).

(** ** Sample states of the sentence-ordering widget *)

Definition sentenceOf (l t : string) : SentenceOrdering.Sentence :=
  {| SentenceOrdering.id := JS.str l;
     SentenceOrdering.letter := JS.str l;
     SentenceOrdering.text := JS.str t |}.

(** Four sentences in the order of the question text. *)
Definition sentencesABCD : list SentenceOrdering.Sentence :=
  [ sentenceOf "A" "Finally, she arrived."; sentenceOf "B" "She left home early.";
    sentenceOf "C" "Then the bus broke down."; sentenceOf "D" "So she walked." ].

(** The widget at rest. *)
Definition stateAtRest : SentenceOrdering.State :=
  {| SentenceOrdering.orderedSentences := sentencesABCD;
     SentenceOrdering.draggedItem := None;
     SentenceOrdering.touchStartY := None;
     SentenceOrdering.isDragging := false |}.

(** Sentence B held, the touch having started at [clientY] 100. *)
Definition stateDraggingB : SentenceOrdering.State :=
  {| SentenceOrdering.orderedSentences := sentencesABCD;
     SentenceOrdering.draggedItem := Some (JS.str "B");
     SentenceOrdering.touchStartY := Some 100%Q;
     SentenceOrdering.isDragging := true |}.

(** Sentence B held, the touch having started at the top edge. *)
Definition stateDraggingFromTop : SentenceOrdering.State :=
  {| SentenceOrdering.orderedSentences := sentencesABCD;
     SentenceOrdering.draggedItem := Some (JS.str "B");
     SentenceOrdering.touchStartY := Some 0%Q;
     SentenceOrdering.isDragging := true |}.

(** An essay of eighty words. *)
Definition essayEightyBenefits : list N :=
  concat (repeat (JS.str "benefit ") 80).

(** The sample with 14 grammar points and the fifteenth grammar question
    answered as well. *)
Definition answersGrammar15ReadingWriting7 : gmap Z (list N) :=
  <[15%Z := JS.str "C"]> answersGrammar14ReadingWriting7.

(** * Properties *)

(** ** Rational comparisons *)

Lemma Qlt_bool_iff (a b : Q) : JS.Qlt_bool a b = true <-> (a < b)%Q.
Proof.
  unfold JS.Qlt_bool. rewrite negb_true_iff, <- not_true_iff_false, Qle_bool_iff.
  split; [apply Qnot_le_lt | apply Qlt_not_le].
Qed.

Lemma inRange_iff (range : Range.t) (n : Q) :
  inRange range n = true <-> (Range.min range <= n /\ n <= Range.max range)%Q.
Proof.
  unfold inRange. rewrite andb_true_iff, !Qle_bool_iff. tauto.
Qed.

Lemma lowerWindow_iff (range : Range.t) (n : Q) :
  lowerWindow range n = true <-> (Range.min range - 2 <= n /\ n < Range.min range)%Q.
Proof.
  unfold lowerWindow. rewrite andb_true_iff, Qle_bool_iff, Qlt_bool_iff. tauto.
Qed.

Lemma upperWindow_iff (range : Range.t) (n : Q) :
  upperWindow range n = true <-> (Range.max range < n /\ n <= Range.max range + 2)%Q.
Proof.
  unfold upperWindow. rewrite andb_true_iff, Qle_bool_iff, Qlt_bool_iff. tauto.
Qed.

(** Case split on a boolean test of the engine, turning it into the
    rational inequalities it decides. *)
Ltac split_test t :=
  let E := fresh "E" in
  destruct t eqn:E;
  [ first [ apply inRange_iff in E | apply lowerWindow_iff in E
          | apply upperWindow_iff in E | apply Qlt_bool_iff in E
          | apply Qle_bool_iff in E ]
  | apply not_true_iff_false in E;
    first [ rewrite inRange_iff in E | rewrite lowerWindow_iff in E
          | rewrite upperWindow_iff in E | rewrite Qlt_bool_iff in E
          | rewrite Qle_bool_iff in E ] ];
  cbn [Range.min Range.max] in E.

(** ** Normalisation *)

(** The three formulas as linear functions of the raw score. *)
Lemma grammarVocabNorm_linear (rawScores : SEMFInput) :
  (grammarVocabNorm rawScores == inject_Z (GrammarVocabulary rawScores) * (5 # 2))%Q.
Proof. unfold grammarVocabNorm. field. Qed.

Lemma readingWritingNorm_linear (rawScores : SEMFInput) :
  (readingWritingNorm rawScores == inject_Z (ReadingWriting rawScores) * (25 # 12))%Q.
Proof. unfold readingWritingNorm. field. Qed.

Lemma listeningNorm_linear (rawScores : SEMFInput) :
  (listeningNorm rawScores == inject_Z (Listening rawScores) * (25 # 6))%Q.
Proof. unfold listeningNorm. field. Qed.

(** C6. Each of the three normalised scores lies in [0,50] when the raw
    score lies between 0 and the skill maximum (20, 24, 12), and each is
    non-decreasing in the raw score. *)
Theorem normalized_in_range_and_monotone (a b : SEMFInput) :
  ((0 <= GrammarVocabulary a <= 20)%Z -> (0 <= grammarVocabNorm a <= 50)%Q)
  /\ ((0 <= ReadingWriting a <= 24)%Z -> (0 <= readingWritingNorm a <= 50)%Q)
  /\ ((0 <= Listening a <= 12)%Z -> (0 <= listeningNorm a <= 50)%Q)
  /\ ((GrammarVocabulary a <= GrammarVocabulary b)%Z ->
      (grammarVocabNorm a <= grammarVocabNorm b)%Q)
  /\ ((ReadingWriting a <= ReadingWriting b)%Z ->
      (readingWritingNorm a <= readingWritingNorm b)%Q)
  /\ ((Listening a <= Listening b)%Z -> (listeningNorm a <= listeningNorm b)%Q).
Proof.
  rewrite !grammarVocabNorm_linear, !readingWritingNorm_linear, !listeningNorm_linear.
  generalize (GrammarVocabulary a) (ReadingWriting a) (Listening a)
             (GrammarVocabulary b) (ReadingWriting b) (Listening b).
  intros ga ra la gb rb lb. rewrite !Zle_Qle.
  change (inject_Z 0) with 0%Q. change (inject_Z 20) with 20%Q.
  change (inject_Z 24) with 24%Q. change (inject_Z 12) with 12%Q.
  generalize (inject_Z ga) (inject_Z ra) (inject_Z la)
             (inject_Z gb) (inject_Z rb) (inject_Z lb).
  intros; repeat match goal with |- _ /\ _ => split end; intros; lra.
Qed.

(** For every raw score from 0 to the skill maximum, the comparisons the
    engine makes on the normalised score come out in double precision as
    they do on the exact quotient. *)
Lemma binary64_tests_agree :
  Binary64.sameTestsUpTo 20 = true
  /\ Binary64.sameTestsUpTo 24 = true
  /\ Binary64.sameTestsUpTo 12 = true.
Proof. repeat split; vm_compute; reflexivity. Qed.

(** ** Level mapping *)

Ltac split_bands n :=
  unfold mapToLevel, LEVEL_CUTOFFS;
  cbn [List.filter List.map mapToLevelFrom fst snd];
  repeat match goal with
         | |- context [inRange ?r n] => split_test (inRange r n)
         end;
  cbn [List.filter List.map mapToLevelFrom fst snd length].

(** No two bands overlap. *)
Lemma bands_disjoint (n : Q) : (length (bandsContaining n) <= 1)%nat.
Proof. unfold bandsContaining. split_bands n; first [ lia | exfalso; lra ]. Qed.

(** Every integer score of the scale lies in one band, which is the level
    [mapToLevel] returns. *)
Lemma mapToLevel_integer (z : Z) :
  (0 <= z <= 50)%Z ->
  bandsContaining (inject_Z z) = [mapToLevel (inject_Z z)].
Proof.
  intros Hz.
  assert (Hcase : (z <= 15 \/ 16 <= z <= 25 \/ 26 <= z <= 33
                   \/ 34 <= z <= 42 \/ 43 <= z)%Z) by lia.
  assert (HQ : forall a b : Z, (a <= b)%Z -> (inject_Z a <= inject_Z b)%Q)
    by (intros a b; rewrite Zle_Qle; auto).
  destruct Hz as [H0 H50]. apply HQ in H0, H50.
  assert (Hcase' : (inject_Z z <= 15 \/ 16 <= inject_Z z <= 25
                    \/ 26 <= inject_Z z <= 33 \/ 34 <= inject_Z z <= 42
                    \/ 43 <= inject_Z z)%Q).
  { destruct Hcase as [H | [[H H'] | [[H H'] | [[H H'] | H]]]];
      [ left | right; left | right; right; left
      | right; right; right; left | right; right; right; right ];
      repeat split; first [ exact (HQ _ _ H) | exact (HQ _ _ H') ]. }
  change (inject_Z 0) with 0%Q in H0. change (inject_Z 50) with 50%Q in H50.
  clear Hcase HQ. revert H0 H50 Hcase'. generalize (inject_Z z). intros n H0 H50 Hcase.
  unfold bandsContaining. split_bands n; first [ reflexivity | exfalso; lra ].
Qed.

(** The eight boundary values. *)
Lemma mapToLevel_boundaries :
  List.map mapToLevel [15; 16; 25; 26; 33; 34; 42; 43]%Q
  = List.map JS.str ["S1"; "S2"; "S2"; "S3"; "S3"; "S4"; "S4"; "S5"].
Proof. reflexivity. Qed.

(** A score of the scale lies in no band exactly when it falls strictly
    between two consecutive bands, and [mapToLevel] then takes its
    fallback. *)
Lemma mapToLevel_between_bands (n : Q) :
  (0 <= n <= 50)%Q ->
  (bandsContaining n = [] <->
   (15 < n < 16 \/ 25 < n < 26 \/ 33 < n < 34 \/ 42 < n < 43)%Q)
  /\ (bandsContaining n = [] -> mapToLevel n = JS.str "S1").
Proof.
  intros [H0 H50]. unfold bandsContaining.
  split_bands n; (split; [split |]); intros;
    first [ discriminate | reflexivity | exfalso; lra | lra ].
Qed.

(** C1. The level mapping at the normalised score 100/3, which the engine
    computes for 8 of 12 listening points and for 16 of 24 reading and
    writing points: the score lies in [0,50], no band of the cutoff table
    contains it, and [mapToLevel] returns its fallback S1. *)
Theorem mapToLevel_gap_score :
  calculateActualScoresLatin answersListening8
  = Normal {| GrammarVocabulary := 0; ReadingWriting := 0; Listening := 8 |}
  /\ (listeningNorm {| GrammarVocabulary := 0; ReadingWriting := 0; Listening := 8 |}
   == 100 # 3)%Q
  /\ (readingWritingNorm
        {| GrammarVocabulary := 0; ReadingWriting := 16; Listening := 0 |}
      == 100 # 3)%Q
  /\ (0 <= 100 # 3 <= 50)%Q
  /\ bandsContaining (100 # 3) = []
  /\ mapToLevel (100 # 3) = JS.str "S1"
  /\ mapToLevel (100 # 3) <> JS.str "S3"
  /\ mapToLevel (100 # 3) <> JS.str "S4".
Proof.
  repeat match goal with |- _ /\ _ => split end;
    try (vm_compute; reflexivity); try discriminate.
Qed.

(** ** Tie-break *)

(** The loop body as a decision list. *)
Lemma tieBreakerStep_cases (level : list N) (range : Range.t) (s g : Q) :
  tieBreakerStep level range s g =
  if lowerWindow range s && Qle_bool 35 g
  then Some {| tbLevel := Some level; tbApplied := true |}
  else if upperWindow range s && JS.Qlt_bool g 35
       then match bandBelow level with
            | Some lowerLevel => Some {| tbLevel := lowerLevel; tbApplied := true |}
            | None => None
            end
       else None.
Proof.
  unfold tieBreakerStep, bandBelow, bandPosition.
  destruct (lowerWindow range s), (Qle_bool 35 g), (upperWindow range s),
    (JS.Qlt_bool g 35), (JS.indexOf (Object_keys LEVEL_CUTOFFS) level >? 0)%Z;
    reflexivity.
Qed.

Lemma bandBelow_S1 : bandBelow (JS.str "S1") = None.
Proof. reflexivity. Qed.
Lemma bandBelow_S2 : bandBelow (JS.str "S2") = Some (Some (JS.str "S1")).
Proof. reflexivity. Qed.
Lemma bandBelow_S3 : bandBelow (JS.str "S3") = Some (Some (JS.str "S2")).
Proof. reflexivity. Qed.
Lemma bandBelow_S4 : bandBelow (JS.str "S4") = Some (Some (JS.str "S3")).
Proof. reflexivity. Qed.
Lemma bandBelow_S5 : bandBelow (JS.str "S5") = Some (Some (JS.str "S4")).
Proof. reflexivity. Qed.

(** Unfold the scan over the five bands and decide every test for the
    scores [s] and [g] from the inequalities in the context. *)
Ltac scan_table s g :=
  unfold applyTieBreaker, LEVEL_CUTOFFS;
  cbn [tieBreakerScan List.filter List.map foldl fst snd];
  rewrite ?tieBreakerStep_cases;
  rewrite ?bandBelow_S1, ?bandBelow_S2, ?bandBelow_S3, ?bandBelow_S4, ?bandBelow_S5;
  repeat
    (match goal with
     | |- context [Qle_bool 35 g] => split_test (Qle_bool 35 g)
     | |- context [JS.Qlt_bool g 35] => split_test (JS.Qlt_bool g 35)
     | |- context [lowerWindow ?r s] => split_test (lowerWindow r s)
     | |- context [upperWindow ?r s] => split_test (upperWindow r s)
     end;
     try (exfalso; lra);
     cbn [andb fst snd List.map List.filter length bool_decide]).

(** The upward case: a score in the window [[min - 2, min)] below a band of
    the table, with a GrammarVocabulary score of at least 35, is given that
    band with the tie-break flagged. *)
Lemma applyTieBreaker_upward (level : list N) (range : Range.t) (s g : Q) :
  In (level, range) LEVEL_CUTOFFS ->
  (Range.min range - 2 <= s < Range.min range)%Q ->
  (35 <= g)%Q ->
  applyTieBreaker s g = {| tbLevel := Some level; tbApplied := true |}.
Proof.
  intros Hin Hs Hg.
  unfold LEVEL_CUTOFFS in Hin. cbn [In] in Hin.
  repeat (destruct Hin as [Hin | Hin];
          [ injection Hin as <- <-; cbn [Range.min Range.max] in Hs | ]);
    [ .. | destruct Hin ];
    scan_table s g; reflexivity.
Qed.

(** The level returned by the tie-break is always a key of the cutoff
    table, never [undefined]. *)
Lemma applyTieBreaker_level (s g : Q) :
  exists l, tbLevel (applyTieBreaker s g) = Some l /\ In l (Object_keys LEVEL_CUTOFFS).
Proof.
  scan_table s g;
    (eexists; split; [reflexivity |]);
    try (cbn; tauto);
    unfold mapToLevel, LEVEL_CUTOFFS; cbn [mapToLevelFrom];
    repeat match goal with
           | |- context [inRange ?r s] => destruct (inRange r s)
           end; cbn; tauto.
Qed.

(** When the tie-break fires on a score that lies in a band, the upward
    case moves one position up from the base level and the downward case
    moves two positions down. *)
Lemma applyTieBreaker_shift (s g : Q) :
  bandsContaining s <> [] ->
  tbApplied (applyTieBreaker s g) = true ->
  let base := bandPosition (mapToLevel s) in
  let adjusted := bandPosition (levelString (tbLevel (applyTieBreaker s g))) in
  ((35 <= g)%Q /\ adjusted = (base + 1)%Z) \/ ((g < 35)%Q /\ adjusted = (base - 2)%Z).
Proof.
  intros Hband Happlied. revert Hband Happlied.
  scan_table s g; cbn [tbApplied tbLevel levelString];
    try discriminate; intros Hband _; revert Hband;
    unfold bandsContaining; split_bands s; intros Hband;
    try (exfalso; lra); try (exfalso; apply Hband; reflexivity);
    first [ left; split; [lra | reflexivity] | right; split; [lra | reflexivity] ].
Qed.

(** An object returned from inside the loop is flagged. *)
Lemma tieBreakerStep_applied (level : list N) (range : Range.t) (s g : Q) (r : TieBreak) :
  tieBreakerStep level range s g = Some r -> tbApplied r = true.
Proof.
  rewrite tieBreakerStep_cases.
  destruct (lowerWindow range s && Qle_bool 35 g);
    [ intros [= <-]; reflexivity |].
  destruct (upperWindow range s && JS.Qlt_bool g 35); [| discriminate].
  destruct (bandBelow level); [intros [= <-]; reflexivity | discriminate].
Qed.

Lemma tieBreakerScan_applied (entries : list (list N * Range.t)) (s g : Q) (r : TieBreak) :
  snd (tieBreakerScan entries s g) = Some r -> tbApplied r = true.
Proof.
  induction entries as [| [level range] rest IH]; cbn [tieBreakerScan].
  - discriminate.
  - destruct (tieBreakerStep level range s g) as [r' |] eqn:Hstep; cbn [snd].
    + intros [= <-]. eapply tieBreakerStep_applied, Hstep.
    + exact IH.
Qed.

(** Without a return from the loop the result is the base level, not
    flagged. *)
Lemma applyTieBreaker_not_applied (s g : Q) :
  tbApplied (applyTieBreaker s g) = false ->
  applyTieBreaker s g = {| tbLevel := Some (mapToLevel s); tbApplied := false |}.
Proof.
  unfold applyTieBreaker.
  destruct (snd (tieBreakerScan LEVEL_CUTOFFS s g)) as [r |] eqn:Hscan; [| reflexivity].
  apply tieBreakerScan_applied in Hscan. congruence.
Qed.

(** At most one band of the table can return, whatever the two scores. *)
Lemma returningBands_at_most_one (s g : Q) : (length (returningBands s g) <= 1)%nat.
Proof. unfold returningBands. scan_table s g; cbn; lia. Qed.

(** Hence the scan that lets the last match win would return the same
    object. *)
Lemma lastMatchScan_agrees (s g : Q) :
  lastMatchScan s g = snd (tieBreakerScan LEVEL_CUTOFFS s g).
Proof. unfold lastMatchScan. scan_table s g; reflexivity. Qed.

(** The loop body at position [i] of the table, by the conditions on the
    two scores. *)
Lemma tieBreakerStep_upward (level : list N) (range : Range.t) (s g : Q) :
  returnsUpward range s g ->
  tieBreakerStep level range s g = Some {| tbLevel := Some level; tbApplied := true |}.
Proof.
  intros [Hs Hg]. rewrite tieBreakerStep_cases.
  rewrite (proj2 (lowerWindow_iff range s) Hs), (proj2 (Qle_bool_iff 35 g) Hg).
  reflexivity.
Qed.

Lemma bandBelow_at (i : nat) (level : list N) (range : Range.t) :
  LEVEL_CUTOFFS !! i = Some (level, range) ->
  bandBelow level
  = if (0 <? i)%nat then Some (Object_keys LEVEL_CUTOFFS !! (i - 1)%nat) else None.
Proof.
  do 5 (destruct i as [| i]; [intros [= <- <-]; reflexivity |]). discriminate.
Qed.

Lemma tieBreakerStep_downward (i : nat) (level : list N) (range : Range.t) (s g : Q) :
  LEVEL_CUTOFFS !! i = Some (level, range) ->
  returnsDownward i range s g ->
  tieBreakerStep level range s g
  = Some {| tbLevel := Object_keys LEVEL_CUTOFFS !! (i - 1)%nat; tbApplied := true |}.
Proof.
  intros Hi (Hs & Hg & Hpos). rewrite tieBreakerStep_cases.
  replace (Qle_bool 35 g) with false
    by (symmetry; apply not_true_iff_false; rewrite Qle_bool_iff; lra).
  rewrite andb_false_r.
  rewrite (proj2 (upperWindow_iff range s) Hs), (proj2 (Qlt_bool_iff g 35) Hg).
  cbn [andb]. rewrite (bandBelow_at i level range Hi).
  rewrite (proj2 (Nat.ltb_lt 0 i) Hpos). reflexivity.
Qed.

Lemma tieBreakerStep_returns (i : nat) (level : list N) (range : Range.t) (s g : Q) :
  LEVEL_CUTOFFS !! i = Some (level, range) ->
  is_Some (tieBreakerStep level range s g) <-> bodyReturns i range s g.
Proof.
  intros Hi. split.
  - intros [r Hr]. rewrite tieBreakerStep_cases in Hr.
    destruct (lowerWindow range s && Qle_bool 35 g) eqn:Hup.
    + left. apply andb_true_iff in Hup as [Hw Hg].
      split; [apply lowerWindow_iff, Hw | apply Qle_bool_iff, Hg].
    + destruct (upperWindow range s && JS.Qlt_bool g 35) eqn:Hdown; [| discriminate].
      apply andb_true_iff in Hdown as [Hw Hg].
      rewrite (bandBelow_at i level range Hi) in Hr.
      destruct (0 <? i)%nat eqn:Hpos; [| discriminate].
      right. split; [apply upperWindow_iff, Hw |].
      split; [apply Qlt_bool_iff, Hg | apply Nat.ltb_lt, Hpos].
  - intros [Hup | Hdown].
    + rewrite (tieBreakerStep_upward level range s g Hup). eexists. reflexivity.
    + rewrite (tieBreakerStep_downward i level range s g Hi Hdown). eexists. reflexivity.
Qed.

Lemma tieBreakerStep_none (i : nat) (level : list N) (range : Range.t) (s g : Q) :
  LEVEL_CUTOFFS !! i = Some (level, range) ->
  ~ bodyReturns i range s g ->
  tieBreakerStep level range s g = None.
Proof.
  intros Hi Hno. apply eq_None_not_Some.
  rewrite (tieBreakerStep_returns i level range s g Hi). exact Hno.
Qed.

(** The scan over any list of entries: it stops at the first entry whose
    body returns. *)
Lemma tieBreakerScan_stops (entries : list (list N * Range.t)) (s g : Q)
    (i : nat) (level : list N) (range : Range.t) (r : TieBreak) :
  entries !! i = Some (level, range) ->
  tieBreakerStep level range s g = Some r ->
  (forall j level' range', (j < i)%nat -> entries !! j = Some (level', range') ->
                           tieBreakerStep level' range' s g = None) ->
  tieBreakerScan entries s g = (take (S i) (Object_keys entries), Some r).
Proof.
  revert i. induction entries as [| [l0 r0] rest IH]; intros i Hi Hr Hbefore;
    [discriminate |].
  cbn [tieBreakerScan Object_keys List.map fst]. destruct i as [| i'].
  - injection Hi as -> ->. rewrite Hr. reflexivity.
  - rewrite (Hbefore 0%nat l0 r0 ltac:(lia) eq_refl).
    rewrite (IH i' Hi Hr); [reflexivity |].
    intros j l' r' Hj Hl. apply (Hbefore (S j) l' r'); [lia | exact Hl].
Qed.

Lemma tieBreakerScan_through (entries : list (list N * Range.t)) (s g : Q) :
  (forall j level' range', entries !! j = Some (level', range') ->
                           tieBreakerStep level' range' s g = None) ->
  tieBreakerScan entries s g = (Object_keys entries, None).
Proof.
  induction entries as [| [l0 r0] rest IH]; intros Hall; [reflexivity |].
  cbn [tieBreakerScan Object_keys List.map fst].
  rewrite (Hall 0%nat l0 r0 eq_refl).
  rewrite IH; [reflexivity |].
  intros j l' r' Hl. apply (Hall (S j) l' r'). exact Hl.
Qed.

(** Every scan either runs through or stops at some first entry. *)
Lemma tieBreakerScan_outcome (entries : list (list N * Range.t)) (s g : Q) :
  (tieBreakerScan entries s g = (Object_keys entries, None)
   /\ forall j level' range', entries !! j = Some (level', range') ->
                              tieBreakerStep level' range' s g = None)
  \/ exists i level range r,
       entries !! i = Some (level, range)
       /\ tieBreakerStep level range s g = Some r
       /\ tieBreakerScan entries s g = (take (S i) (Object_keys entries), Some r).
Proof.
  induction entries as [| [l0 r0] rest IH].
  - left. split; [reflexivity | intros j l' r' Hl; discriminate Hl].
  - cbn [tieBreakerScan Object_keys List.map fst].
    destruct (tieBreakerStep l0 r0 s g) as [r |] eqn:Hstep.
    + right. exists 0%nat, l0, r0, r. repeat split; assumption.
    + destruct IH as [[Hscan Hall] | (i & l & rg & r & Hi & Hr & Hscan)].
      * left. rewrite Hscan. split; [reflexivity |].
        intros [| j] l' r' Hl; [injection Hl as <- <-; exact Hstep |].
        exact (Hall j l' r' Hl).
      * right. exists (S i), l, rg, r. rewrite Hscan. repeat split; assumption.
Qed.

(** The five entries of the table by position. *)
Lemma LEVEL_CUTOFFS_at (i : nat) (level : list N) (range : Range.t) :
  LEVEL_CUTOFFS !! i = Some (level, range) ->
  (i = 0%nat /\ range = {| Range.min := 0; Range.max := 15 |})
  \/ (i = 1%nat /\ range = {| Range.min := 16; Range.max := 25 |})
  \/ (i = 2%nat /\ range = {| Range.min := 26; Range.max := 33 |})
  \/ (i = 3%nat /\ range = {| Range.min := 34; Range.max := 42 |})
  \/ (i = 4%nat /\ range = {| Range.min := 43; Range.max := 50 |}).
Proof.
  destruct i as [| [| [| [| [| i]]]]]; intros [= <- <-]; tauto.
Qed.

(** No pair of scores makes the bodies of two bands return. *)
Lemma bodyReturns_unique (s g : Q) (i j : nat) (level level' : list N)
    (range range' : Range.t) :
  LEVEL_CUTOFFS !! i = Some (level, range) ->
  LEVEL_CUTOFFS !! j = Some (level', range') ->
  bodyReturns i range s g -> bodyReturns j range' s g -> i = j.
Proof.
  intros Hi Hj.
  destruct (LEVEL_CUTOFFS_at i level range Hi)
    as [[-> ->] | [[-> ->] | [[-> ->] | [[-> ->] | [-> ->]]]]];
    destruct (LEVEL_CUTOFFS_at j level' range' Hj)
      as [[-> ->] | [[-> ->] | [[-> ->] | [[-> ->] | [-> ->]]]]];
    try reflexivity;
    unfold bodyReturns, returnsUpward, returnsDownward; cbn [Range.min Range.max];
    intros [[Hs Hg] | (Hs & Hg & Hp)] [[Hs' Hg'] | (Hs' & Hg' & Hp')];
    exfalso; first [lra | lia].
Qed.

(** C2, as the code has it. The loop returns at the first band, in table
    order, whose body returns: upward with the band itself when the score
    lies less than 2 below the band and the GrammarVocabulary score is at
    least 35, downward with the band one position lower when the score lies
    at most 2 above the band, the GrammarVocabulary score is below 35 and
    the band is not the first. The bands after it are not visited. When no
    body returns the result is the base level, unflagged. All five bands
    are visited exactly when none of the first four returns. No pair of
    scores makes more than one band return, so a scan over all five bands
    in which the last match wins would give the same result. *)
Theorem applyTieBreaker_first_match (s g : Q) :
  (forall (i : nat) (level : list N) (range : Range.t),
      LEVEL_CUTOFFS !! i = Some (level, range) ->
      (forall j level' range',
          (j < i)%nat -> LEVEL_CUTOFFS !! j = Some (level', range') ->
          ~ bodyReturns j range' s g) ->
      (returnsUpward range s g ->
       bandsVisited s g = take (S i) (Object_keys LEVEL_CUTOFFS)
       /\ applyTieBreaker s g = {| tbLevel := Some level; tbApplied := true |})
      /\ (returnsDownward i range s g ->
          bandsVisited s g = take (S i) (Object_keys LEVEL_CUTOFFS)
          /\ applyTieBreaker s g
             = {| tbLevel := Object_keys LEVEL_CUTOFFS !! (i - 1)%nat;
                  tbApplied := true |}))
  /\ ((forall i level range,
          LEVEL_CUTOFFS !! i = Some (level, range) -> ~ bodyReturns i range s g) ->
      bandsVisited s g = Object_keys LEVEL_CUTOFFS
      /\ applyTieBreaker s g = {| tbLevel := Some (mapToLevel s); tbApplied := false |})
  /\ (bandsVisited s g = Object_keys LEVEL_CUTOFFS <->
      forall i level range,
        (i < 4)%nat -> LEVEL_CUTOFFS !! i = Some (level, range) ->
        ~ bodyReturns i range s g)
  /\ (forall i j level range level' range',
         LEVEL_CUTOFFS !! i = Some (level, range) ->
         LEVEL_CUTOFFS !! j = Some (level', range') ->
         bodyReturns i range s g -> bodyReturns j range' s g -> i = j)
  /\ (length (returningBands s g) <= 1)%nat
  /\ lastMatchScan s g = snd (tieBreakerScan LEVEL_CUTOFFS s g).
Proof.
  assert (Hstop : forall i level range r,
             LEVEL_CUTOFFS !! i = Some (level, range) ->
             (forall j level' range',
                 (j < i)%nat -> LEVEL_CUTOFFS !! j = Some (level', range') ->
                 ~ bodyReturns j range' s g) ->
             tieBreakerStep level range s g = Some r ->
             bandsVisited s g = take (S i) (Object_keys LEVEL_CUTOFFS)
             /\ applyTieBreaker s g = r).
  { intros i level range r Hi Hbefore Hr.
    unfold bandsVisited, applyTieBreaker.
    rewrite (tieBreakerScan_stops LEVEL_CUTOFFS s g i level range r Hi Hr).
    - split; reflexivity.
    - intros j l' r' Hj Hl.
      exact (tieBreakerStep_none j l' r' s g Hl (Hbefore j l' r' Hj Hl)). }
  split; [| split; [| split; [| split; [| split]]]].
  - intros i level range Hi Hbefore. split.
    + intros Hup. apply (Hstop i level range _ Hi Hbefore).
      exact (tieBreakerStep_upward level range s g Hup).
    + intros Hdown. apply (Hstop i level range _ Hi Hbefore).
      exact (tieBreakerStep_downward i level range s g Hi Hdown).
  - intros Hnone. unfold bandsVisited, applyTieBreaker.
    rewrite (tieBreakerScan_through LEVEL_CUTOFFS s g).
    + split; reflexivity.
    + intros j l' r' Hl. exact (tieBreakerStep_none j l' r' s g Hl (Hnone j l' r' Hl)).
  - unfold bandsVisited. split.
    + intros Hall i level range Hlt Hi Hret.
      apply (tieBreakerStep_returns i level range s g Hi) in Hret as [r Hr].
      destruct (tieBreakerScan_outcome LEVEL_CUTOFFS s g)
        as [[_ Hnone] | (k & l & rg & r' & Hk & Hr' & Hscan)].
      * rewrite (Hnone i level range Hi) in Hr. discriminate.
      * rewrite Hscan in Hall. cbn [fst] in Hall.
        assert (Hk4 : k = 4%nat).
        { apply (f_equal (@length (list N))) in Hall.
          rewrite length_take in Hall. cbn in Hall.
          apply lookup_lt_Some in Hk. cbn in Hk. lia. }
        subst k.
        assert (Hik : i = 4%nat).
        { apply (bodyReturns_unique s g i 4 level l range rg Hi Hk).
          - apply (tieBreakerStep_returns i level range s g Hi). eexists. exact Hr.
          - apply (tieBreakerStep_returns 4 l rg s g Hk). eexists. exact Hr'. }
        lia.
    + intros Hfirst.
      destruct (tieBreakerScan_outcome LEVEL_CUTOFFS s g)
        as [[Hscan _] | (k & l & rg & r' & Hk & Hr' & Hscan)];
        rewrite Hscan; cbn [fst]; [reflexivity |].
      destruct (decide (k < 4)%nat) as [Hlt | Hge].
      * exfalso. apply (Hfirst k l rg Hlt Hk).
        apply (tieBreakerStep_returns k l rg s g Hk). eexists. exact Hr'.
      * apply lookup_lt_Some in Hk as Hk5. cbn in Hk5.
        assert (k = 4%nat) as -> by lia. reflexivity.
  - intros i j level range level' range'. apply bodyReturns_unique.
  - apply returningBands_at_most_one.
  - apply lastMatchScan_agrees.
Qed.

(** C2, as stated, fails for 16 reading and writing points and no grammar
    point (scores 100/3 and 0): the score lies in the upper window of S3 and
    in the lower window of S4, the loop returns S2 from the body of S3, and
    S4 and S5 are never visited. *)
Lemma applyTieBreaker_exits_early :
  calculateActualScoresLatin answersReadingWriting16
  = Normal {| GrammarVocabulary := 0; ReadingWriting := 16; Listening := 0 |}
  /\ upperWindow {| Range.min := 26; Range.max := 33 |}
       (readingWritingNorm
          {| GrammarVocabulary := 0; ReadingWriting := 16; Listening := 0 |}) = true
  /\ lowerWindow {| Range.min := 34; Range.max := 42 |}
       (readingWritingNorm
          {| GrammarVocabulary := 0; ReadingWriting := 16; Listening := 0 |}) = true
  /\ bandsVisited
       (readingWritingNorm
          {| GrammarVocabulary := 0; ReadingWriting := 16; Listening := 0 |})
       (grammarVocabNorm
          {| GrammarVocabulary := 0; ReadingWriting := 16; Listening := 0 |})
     = [JS.str "S1"; JS.str "S2"; JS.str "S3"]
  /\ bandsVisited
       (readingWritingNorm
          {| GrammarVocabulary := 0; ReadingWriting := 16; Listening := 0 |})
       (grammarVocabNorm
          {| GrammarVocabulary := 0; ReadingWriting := 16; Listening := 0 |})
     <> Object_keys LEVEL_CUTOFFS
  /\ applyTieBreaker
       (readingWritingNorm
          {| GrammarVocabulary := 0; ReadingWriting := 16; Listening := 0 |})
       (grammarVocabNorm
          {| GrammarVocabulary := 0; ReadingWriting := 16; Listening := 0 |})
     = {| tbLevel := Some (JS.str "S2"); tbApplied := true |}.
Proof.
  repeat match goal with |- _ /\ _ => split end;
    try (vm_compute; reflexivity).
  vm_compute. discriminate.
Qed.

(** C3. The downward case at 21 reading and writing points and no grammar
    point (scores 175/4 = 43.75 and 0): the base level is S5, the score lies
    within 2 above the upper boundary of S4, and the tie-break returns S3,
    two positions below the base level; the report carries S3 with the
    tie-break flagged. *)
Theorem applyTieBreaker_downward_two_bands :
  calculateActualScoresLatin answersReadingWriting21
  = Normal {| GrammarVocabulary := 0; ReadingWriting := 21; Listening := 0 |}
  /\ (readingWritingNorm
        {| GrammarVocabulary := 0; ReadingWriting := 21; Listening := 0 |}
      == 175 # 4)%Q
  /\ mapToLevel (175 # 4) = JS.str "S5"
  /\ applyTieBreaker (175 # 4) 0 = {| tbLevel := Some (JS.str "S3"); tbApplied := true |}
  /\ (bandPosition (JS.str "S5") - bandPosition (JS.str "S3") = 2)%Z
  /\ exists report,
       calculateSEMFLevelLatin answersReadingWriting21 = Normal report
       /\ List.map (fun r => (skill r, level r, tieBreakerApplied r)) (skills report)
          = [ (JS.str "ReadingWriting", JS.str "S3", true);
              (JS.str "Listening", JS.str "S1", false) ].
Proof.
  repeat match goal with |- _ /\ _ => split end;
    try (vm_compute; reflexivity).
  eexists. split; vm_compute; reflexivity.
Qed.

(** ** Grading *)

Lemma Normal_inj {A} (a b : A) : Normal a = Normal b -> a = b.
Proof. congruence. Qed.

Lemma foldl_increment (hit : Z -> bool) (questions : list Z) (score : Z) :
  foldl (fun c i => let* a := c in Normal (increment (hit i) a)) (Normal score) questions
  = Normal (score + points hit questions)%Z.
Proof.
  revert score. induction questions as [| i rest IH]; intros score; cbn [foldl points].
  - f_equal. lia.
  - cbn [bind]. rewrite IH. f_equal. unfold increment. destruct (hit i); lia.
Qed.

Lemma forRange_increment (lo hi : Z) (hit : Z -> bool) (score : Z) :
  forRange lo hi (fun i s => Normal (increment (hit i) s)) score
  = Normal (score + points hit (seqZ lo (hi - lo + 1)))%Z.
Proof. unfold forRange. apply foldl_increment. Qed.

Lemma points_bounds (hit : Z -> bool) (questions : list Z) :
  (0 <= points hit questions <= Z.of_nat (length questions))%Z.
Proof.
  induction questions as [| i rest IH]; cbn [points length]; [lia |].
  destruct (hit i); lia.
Qed.

Lemma points_ext (hit hit' : Z -> bool) (questions : list Z) :
  (forall i, In i questions -> hit i = hit' i) ->
  points hit questions = points hit' questions.
Proof.
  induction questions as [| i rest IH]; intros H; cbn [points]; [reflexivity |].
  rewrite (H i) by (left; reflexivity).
  rewrite IH by (intros j Hj; apply H; right; exact Hj). reflexivity.
Qed.

Section GradingProperties.

Variables toUpperCase toLowerCase : list N -> list N.

Lemma textPoint_normal (answers : gmap Z (list N)) (i : Z) :
  (41 <= i <= 43)%Z ->
  textPoint toLowerCase answers i = Normal (textHit toLowerCase answers i).
Proof.
  intros Hi. assert (Hcase : i = 41%Z \/ i = 42%Z \/ i = 43%Z) by lia.
  unfold textHit, textPoint.
  destruct Hcase as [-> | [-> | ->]]; reflexivity.
Qed.

Lemma forRange_text (answers : gmap Z (list N)) (score : Z) :
  forRange 41 43
    (fun i s => let* hit := textPoint toLowerCase answers i in Normal (increment hit s))
    score
  = Normal (score + points (textHit toLowerCase answers) (seqZ 41 3))%Z.
Proof.
  unfold forRange. change (43 - 41 + 1)%Z with 3%Z.
  change (seqZ 41 3) with [41; 42; 43]%Z. cbn [foldl bind points].
  rewrite !textPoint_normal by lia. cbn [bind]. f_equal.
  unfold increment.
  destruct (textHit toLowerCase answers 41), (textHit toLowerCase answers 42),
    (textHit toLowerCase answers 43); lia.
Qed.

(** The raw scores as sums of the points of the questions of each range;
    grading never throws. *)
Lemma calculateActualScores_points (answers : gmap Z (list N)) :
  calculateActualScores toUpperCase toLowerCase answers
  = Normal
      {| GrammarVocabulary := points (letterPoint toUpperCase answers) (seqZ 1 20);
         ReadingWriting :=
           (points (letterPoint toUpperCase answers) (seqZ 21 15)
            + points (orderingPoint answers) (seqZ 36 5)
            + points (textHit toLowerCase answers) (seqZ 41 3)
            + (if essayPoint toLowerCase answers then 1 else 0))%Z;
         Listening := points (letterPoint toUpperCase answers) (seqZ 45 12) |}.
Proof.
  unfold calculateActualScores.
  rewrite (forRange_increment 1 20 (letterPoint toUpperCase answers)). cbn [bind].
  rewrite (forRange_increment 21 35 (letterPoint toUpperCase answers)). cbn [bind].
  rewrite (forRange_increment 36 40 (orderingPoint answers)). cbn [bind].
  rewrite forRange_text. cbn [bind].
  rewrite (forRange_increment 45 56 (letterPoint toUpperCase answers)). cbn [bind].
  change (20 - 1 + 1)%Z with 20%Z. change (35 - 21 + 1)%Z with 15%Z.
  change (40 - 36 + 1)%Z with 5%Z. change (56 - 45 + 1)%Z with 12%Z.
  f_equal. f_equal. unfold increment.
  destruct (essayPoint toLowerCase answers); lia.
Qed.

(** The raw scores lie between 0 and the skill maxima 20, 24 and 12. *)
Lemma calculateActualScores_bounds (answers : gmap Z (list N)) (rawScores : SEMFInput) :
  calculateActualScores toUpperCase toLowerCase answers = Normal rawScores ->
  (0 <= GrammarVocabulary rawScores <= 20)%Z
  /\ (0 <= ReadingWriting rawScores <= 24)%Z
  /\ (0 <= Listening rawScores <= 12)%Z.
Proof.
  rewrite calculateActualScores_points. intros H. apply Normal_inj in H. subst rawScores.
  cbn [GrammarVocabulary ReadingWriting Listening].
  pose proof (points_bounds (letterPoint toUpperCase answers) (seqZ 1 20)) as H1.
  pose proof (points_bounds (letterPoint toUpperCase answers) (seqZ 21 15)) as H2.
  pose proof (points_bounds (orderingPoint answers) (seqZ 36 5)) as H3.
  pose proof (points_bounds (textHit toLowerCase answers) (seqZ 41 3)) as H4.
  pose proof (points_bounds (letterPoint toUpperCase answers) (seqZ 45 12)) as H5.
  rewrite length_seqZ in H1, H2, H3, H4, H5.
  destruct (essayPoint toLowerCase answers); lia.
Qed.

(** Removing the answer to question [i] changes no point but that of
    question [i]. *)
Lemma letterPoint_delete_ne (answers : gmap Z (list N)) (i j : Z) :
  i <> j -> letterPoint toUpperCase (delete i answers) j = letterPoint toUpperCase answers j.
Proof. intros H. unfold letterPoint. rewrite lookup_delete_ne by exact H. reflexivity. Qed.

Lemma orderingPoint_delete_ne (answers : gmap Z (list N)) (i j : Z) :
  i <> j -> orderingPoint (delete i answers) j = orderingPoint answers j.
Proof. intros H. unfold orderingPoint. rewrite lookup_delete_ne by exact H. reflexivity. Qed.

Lemma textHit_delete_ne (answers : gmap Z (list N)) (i j : Z) :
  i <> j -> textHit toLowerCase (delete i answers) j = textHit toLowerCase answers j.
Proof.
  intros H. unfold textHit, textPoint. rewrite lookup_delete_ne by exact H. reflexivity.
Qed.

Lemma essayPoint_delete_ne (answers : gmap Z (list N)) (i : Z) :
  i <> 44%Z -> essayPoint toLowerCase (delete i answers) = essayPoint toLowerCase answers.
Proof.
  intros H. unfold essayPoint, hasArgument, wordCount, essayAnswer.
  rewrite lookup_delete_ne by exact H. reflexivity.
Qed.

Lemma orderingPoint_delete_eq (answers : gmap Z (list N)) (i : Z) :
  is_Some (CORRECT_ANSWERS i) -> orderingPoint (delete i answers) i = false.
Proof.
  intros [key Hkey]. unfold orderingPoint. rewrite lookup_delete_eq, Hkey. reflexivity.
Qed.

Lemma essayPoint_delete_eq (answers : gmap Z (list N)) :
  essayPoint toLowerCase (delete 44%Z answers) = false.
Proof.
  unfold essayPoint, wordCount, essayAnswer. rewrite lookup_delete_eq. reflexivity.
Qed.

End GradingProperties.

Lemma points_at (hit hit' : Z -> bool) (questions : list Z) (i : Z) :
  NoDup questions -> In i questions ->
  (forall j, j <> i -> hit' j = hit j) -> hit' i = false ->
  points hit questions = (points hit' questions + (if hit i then 1 else 0))%Z.
Proof.
  intros Hnd Hin Hne Heq. induction Hnd as [| x rest Hx Hnd IH]; [destruct Hin |].
  cbn [points]. destruct Hin as [-> | Hin].
  - rewrite Heq. rewrite (points_ext hit hit' rest); [lia |].
    intros j Hj. symmetry. apply Hne. intros ->. apply Hx, list_elem_of_In, Hj.
  - rewrite (IH Hin). rewrite Hne; [lia |].
    intros ->. apply Hx, list_elem_of_In, Hin.
Qed.

Lemma In_seqZ (i lo len : Z) : In i (seqZ lo len) <-> (lo <= i < lo + len)%Z.
Proof. rewrite <- list_elem_of_In. apply elem_of_seqZ. Qed.

(** White space only trims to the empty string. *)
Lemma trimStart_whitespace (a : list N) :
  Forall (fun c => JS.isWhiteSpace c = true) a -> JS.trimStart a = [].
Proof.
  induction 1 as [| c rest Hc _ IH]; cbn [JS.trimStart]; [reflexivity |].
  rewrite Hc. exact IH.
Qed.

Lemma trim_whitespace (a : list N) :
  Forall (fun c => JS.isWhiteSpace c = true) a -> JS.trim a = [].
Proof. intros H. unfold JS.trim. rewrite (trimStart_whitespace a H). reflexivity. Qed.

(** ** Overall level and report *)

Ltac each_level H :=
  unfold LEVEL_CUTOFFS in H; cbn [Object_keys List.map fst In] in H;
  repeat (destruct H as [H | H]; [subst |]); [.. | destruct H].

(** For a key of the cutoff table the ordinal is one more than the table
    position: S1 is 1 and S5 is 5. *)
Lemma levelOrdinal_key (l : list N) :
  In l (Object_keys LEVEL_CUTOFFS) ->
  levelOrdinal l = Some (bandPosition l + 1)%Z /\ (0 <= bandPosition l <= 4)%Z.
Proof. intros H. each_level H; split; first [reflexivity | vm_compute; intuition discriminate]. Qed.

Lemma description_key (l : list N) :
  In l (Object_keys LEVEL_CUTOFFS) -> is_Some (property LEVEL_DESCRIPTIONS l).
Proof. intros H. each_level H; eexists; reflexivity. Qed.

Lemma min_key (l1 l2 : list N) :
  In l1 (Object_keys LEVEL_CUTOFFS) -> In l2 (Object_keys LEVEL_CUTOFFS) ->
  JS.str "S" ++ JS.showZ (Z.min (bandPosition l1 + 1) (bandPosition l2 + 1))
  = (if (bandPosition l1 <=? bandPosition l2)%Z then l1 else l2).
Proof. intros H1 H2. each_level H1; each_level H2; reflexivity. Qed.

Lemma Set_of_In (seen levels : list (list N)) (l : list N) :
  In l levels -> In l seen \/ In l (Set_of seen levels).
Proof.
  revert seen. induction levels as [| x rest IH]; intros seen; cbn [In Set_of].
  - tauto.
  - intros [-> | H].
    + destruct (bool_decide (l ∈ seen)) eqn:E.
      * apply bool_decide_eq_true in E. left. apply list_elem_of_In, E.
      * right. left. reflexivity.
    + destruct (bool_decide (x ∈ seen)).
      * apply IH, H.
      * destruct (IH (x :: seen) H) as [[-> | H'] | H'];
          [right; left; reflexivity | left; exact H' | right; right; exact H'].
Qed.

Lemma Set_of_subset (seen levels : list (list N)) (l : list N) :
  In l (Set_of seen levels) -> In l levels.
Proof.
  revert seen. induction levels as [| x rest IH]; intros seen; cbn [In Set_of].
  - tauto.
  - destruct (bool_decide (x ∈ seen)).
    + intros H. right. eapply IH, H.
    + intros [-> | H]; [left; reflexivity | right; eapply IH, H].
Qed.

Section EngineProperties.

Variables toUpperCase toLowerCase : list N -> list N.

(** The report in terms of the raw scores and the two tie-break results. *)
Lemma calculateSEMFLevel_report (answers : gmap Z (list N)) :
  exists rawScores lrw ll,
    calculateActualScores toUpperCase toLowerCase answers = Normal rawScores
    /\ tbLevel (applyTieBreaker (readingWritingNorm rawScores) (grammarVocabNorm rawScores))
       = Some lrw
    /\ tbLevel (applyTieBreaker (listeningNorm rawScores) (grammarVocabNorm rawScores))
       = Some ll
    /\ In lrw (Object_keys LEVEL_CUTOFFS)
    /\ In ll (Object_keys LEVEL_CUTOFFS)
    /\ calculateSEMFLevel toUpperCase toLowerCase answers
       = Normal
           {| skills :=
                [ {| skill := JS.str "ReadingWriting";
                     rawScore := ReadingWriting rawScores;
                     normalizedScore := round1 (readingWritingNorm rawScores);
                     level := lrw;
                     tieBreakerApplied :=
                       tbApplied (applyTieBreaker (readingWritingNorm rawScores)
                                    (grammarVocabNorm rawScores)) |};
                  {| skill := JS.str "Listening";
                     rawScore := Listening rawScores;
                     normalizedScore := round1 (listeningNorm rawScores);
                     level := ll;
                     tieBreakerApplied :=
                       tbApplied (applyTieBreaker (listeningNorm rawScores)
                                    (grammarVocabNorm rawScores)) |} ];
              tieBreakerSkill :=
                {| tbsSkill := JS.str "GrammarVocabulary";
                   tbsRawScore := GrammarVocabulary rawScores;
                   tbsNormalizedScore := round1 (grammarVocabNorm rawScores) |};
              overallLevel :=
                (if (bandPosition lrw <=? bandPosition ll)%Z then lrw else ll);
              descriptions :=
                List.map (fun l => (l, property LEVEL_DESCRIPTIONS l))
                  (Set_of [] [lrw; ll;
                              if (bandPosition lrw <=? bandPosition ll)%Z then lrw else ll]);
              summary :=
                getDetailedFeedback answers
                  (if (bandPosition lrw <=? bandPosition ll)%Z then lrw else ll)
                  rawScores |}.
Proof.
  pose proof (calculateActualScores_points toUpperCase toLowerCase answers) as Hraw.
  set (rawScores := {| GrammarVocabulary := _ |}) in Hraw.
  destruct (applyTieBreaker_level (readingWritingNorm rawScores) (grammarVocabNorm rawScores))
    as (lrw & Hlrw & Hkrw).
  destruct (applyTieBreaker_level (listeningNorm rawScores) (grammarVocabNorm rawScores))
    as (ll & Hll & Hkl).
  exists rawScores, lrw, ll. repeat split; try assumption.
  unfold calculateSEMFLevel. rewrite Hraw. cbn [bind].
  rewrite Hlrw, Hll. cbn [levelToNumber bind levelString].
  fold (levelOrdinal lrw). fold (levelOrdinal ll).
  rewrite (proj1 (levelOrdinal_key lrw Hkrw)), (proj1 (levelOrdinal_key ll Hkl)).
  cbn [JS.Math_min JS.showNumber].
  rewrite (min_key lrw ll Hkrw Hkl). reflexivity.
Qed.

(** C4. A score in the window [[min - 2, min)] below a band [b] of the
    table, with a GrammarVocabulary score of at least 35, is given band [b]
    with the tie-break flagged; in particular a report for 7 reading and
    writing points (14.58, within [[14,16)]) and a GrammarVocabulary score of
    at least 35 gives ReadingWriting the level S2 with the tie-break
    flagged. *)
Theorem tieBreak_upward_case :
  (forall (level : list N) (range : Range.t) (s g : Q),
      In (level, range) LEVEL_CUTOFFS ->
      (Range.min range - 2 <= s < Range.min range)%Q ->
      (35 <= g)%Q ->
      applyTieBreaker s g = {| tbLevel := Some level; tbApplied := true |})
  /\ (forall (answers : gmap Z (list N)) (rawScores : SEMFInput),
        calculateActualScores toUpperCase toLowerCase answers = Normal rawScores ->
        ReadingWriting rawScores = 7%Z ->
        (35 <= grammarVocabNorm rawScores)%Q ->
        (14 <= readingWritingNorm rawScores < 16)%Q
        /\ mapToLevel (readingWritingNorm rawScores) = JS.str "S1"
        /\ exists report rw lst,
             calculateSEMFLevel toUpperCase toLowerCase answers = Normal report
             /\ skills report = [rw; lst]
             /\ skill rw = JS.str "ReadingWriting"
             /\ level rw = JS.str "S2"
             /\ tieBreakerApplied rw = true).
Proof.
  split; [exact applyTieBreaker_upward |].
  intros answers rawScores Hraw Hrw Hg.
  assert (Hnorm : (readingWritingNorm rawScores == 175 # 12)%Q).
  { rewrite readingWritingNorm_linear, Hrw. reflexivity. }
  assert (Hwin : (14 <= readingWritingNorm rawScores < 16)%Q) by (rewrite Hnorm; lra).
  split; [exact Hwin |]. split.
  { split_bands (readingWritingNorm rawScores); first [reflexivity | exfalso; lra]. }
  destruct (calculateSEMFLevel_report answers)
    as (raw' & lrw & ll & Hraw' & Hlrw & Hll & Hkrw & Hkl & Hreport).
  rewrite Hraw in Hraw'. apply Normal_inj in Hraw'. subst raw'.
  assert (Hup : applyTieBreaker (readingWritingNorm rawScores) (grammarVocabNorm rawScores)
                = {| tbLevel := Some (JS.str "S2"); tbApplied := true |}).
  { apply (applyTieBreaker_upward _ {| Range.min := 16; Range.max := 25 |});
      [cbn; tauto | exact Hwin | exact Hg]. }
  rewrite Hup in Hlrw, Hreport.
  cbn [tbLevel tbApplied] in Hlrw, Hreport. apply (inj Some) in Hlrw. subst lrw.
  eexists _, _, _. split; [exact Hreport |]. cbn [skills skill level tieBreakerApplied].
  repeat split.
Qed.

(** C5. The overall level of the report is [S] followed by the minimum of
    the ordinal numbers of the two reported skill levels, which are the
    tie-break results for ReadingWriting and Listening; no other quantity
    enters the minimum. *)
Theorem overall_level_is_minimum (answers : gmap Z (list N)) :
  exists report rawScores rw lst n1 n2,
    calculateSEMFLevel toUpperCase toLowerCase answers = Normal report
    /\ calculateActualScores toUpperCase toLowerCase answers = Normal rawScores
    /\ skills report = [rw; lst]
    /\ skill rw = JS.str "ReadingWriting"
    /\ skill lst = JS.str "Listening"
    /\ tbLevel (applyTieBreaker (readingWritingNorm rawScores) (grammarVocabNorm rawScores))
       = Some (level rw)
    /\ tbLevel (applyTieBreaker (listeningNorm rawScores) (grammarVocabNorm rawScores))
       = Some (level lst)
    /\ levelOrdinal (level rw) = Some n1
    /\ levelOrdinal (level lst) = Some n2
    /\ overallLevel report = JS.str "S" ++ JS.showZ (Z.min n1 n2).
Proof.
  destruct (calculateSEMFLevel_report answers)
    as (rawScores & lrw & ll & Hraw & Hlrw & Hll & Hkrw & Hkl & Hreport).
  eexists _, rawScores, _, _, _, _. split; [exact Hreport |].
  cbn [skills skill level overallLevel].
  repeat match goal with |- _ /\ _ => split end;
    try reflexivity; try assumption.
  - exact (proj1 (levelOrdinal_key lrw Hkrw)).
  - exact (proj1 (levelOrdinal_key ll Hkl)).
  - symmetry. apply min_key; assumption.
Qed.

(** C7. For every answer map the entry point completes normally, never with
    an exception, and returns a complete report. *)
Theorem calculateSEMFLevel_total (answers : gmap Z (list N)) :
  exists report,
    calculateSEMFLevel toUpperCase toLowerCase answers = Normal report
    /\ completeReport report.
Proof.
  destruct (calculateSEMFLevel_report answers)
    as (rawScores & lrw & ll & Hraw & Hlrw & Hll & Hkrw & Hkl & Hreport).
  eexists. split; [exact Hreport |].
  set (overall := if (bandPosition lrw <=? bandPosition ll)%Z then lrw else ll).
  assert (Hko : In overall (Object_keys LEVEL_CUTOFFS))
    by (unfold overall; destruct (bandPosition lrw <=? bandPosition ll)%Z; assumption).
  unfold completeReport.
  cbn [skills skill level tieBreakerSkill tbsSkill overallLevel descriptions summary
       List.map].
  repeat match goal with |- _ /\ _ => split end.
  - reflexivity.
  - constructor; [exact Hkrw |]. constructor; [exact Hkl |]. constructor.
  - reflexivity.
  - exact Hko.
  - intros l Hl.
    assert (Hkey : In l (Object_keys LEVEL_CUTOFFS))
      by (destruct Hl as [<- | [<- | [<- | []]]]; assumption).
    destruct (description_key l Hkey) as [text Htext].
    exists text. rewrite <- Htext.
    apply (in_map (fun l => (l, property LEVEL_DESCRIPTIONS l))).
    destruct (Set_of_In [] [lrw; ll; overall] l) as [[] | H]; [| exact H].
    cbn [In] in *. tauto.
  - apply Forall_forall. intros [l d] Hin.
    apply list_elem_of_In, in_map_iff in Hin. destruct Hin as (l' & [= <- <-] & Hin).
    apply Set_of_subset in Hin. apply description_key.
    destruct Hin as [<- | [<- | [<- | []]]]; assumption.
  - unfold getDetailedFeedback. discriminate.
Qed.

(** C10. The completion percentage of the summary is the number of entries
    of the answer map over 56, times 100: every new entry adds 100/56
    whatever its question identifier and its answer text, the summary
    prints the rounded value, and for the map of 57 empty answers to the
    identifiers 1 to 57 the rate exceeds 100 and the summary prints 102%. *)
Theorem completion_counts_every_entry (answers : gmap Z (list N)) :
  (completionRate answers == inject_Z (Z.of_nat (size answers)) / 56 * 100)%Q
  /\ (forall (k : Z) (a : list N),
        answers !! k = None ->
        (completionRate (<[k := a]> answers) == completionRate answers + 100 / 56)%Q)
  /\ (exists report before after,
        calculateSEMFLevel toUpperCase toLowerCase answers = Normal report
        /\ summary report
           = before ++ bullet ++ JS.str " Test Completion: "
             ++ JS.showZ (JS.Math_round (completionRate answers)) ++ JS.str "%"
             ++ after)
  /\ size answersFiftySevenEmpty = 57%nat
  /\ answersFiftySevenEmpty !! 57%Z = Some []
  /\ (100 < completionRate answersFiftySevenEmpty)%Q
  /\ JS.showZ (JS.Math_round (completionRate answersFiftySevenEmpty)) = JS.str "102".
Proof.
  repeat match goal with |- _ /\ _ => split end.
  - reflexivity.
  - intros k a Hk. unfold completionRate, totalAnswered, totalPossible.
    rewrite map_size_insert_None by exact Hk. rewrite Nat2Z.inj_succ.
    unfold Z.succ. rewrite inject_Z_plus. field.
  - destruct (calculateSEMFLevel_report answers)
      as (rawScores & lrw & ll & _ & _ & _ & _ & _ & Hreport).
    set (overall := if (bandPosition lrw <=? bandPosition ll)%Z then lrw else ll) in Hreport.
    eexists _,
      (JS.str "Overall SEMF Level: " ++ overall ++ newline ++ newline
       ++ JS.str "Performance Breakdown:" ++ newline
       ++ scoreLine " Grammar & Vocabulary: " (GrammarVocabulary rawScores) 20
       ++ scoreLine " Reading & Writing: " (ReadingWriting rawScores) 24
       ++ scoreLine " Listening: " (Listening rawScores) 12),
      (newline ++ newline ++ recommendation overall).
    split; [exact Hreport |].
    cbn [summary]. unfold getDetailedFeedback, completionLine.
    generalize (scoreLine " Grammar & Vocabulary: " (GrammarVocabulary rawScores) 20)
               (scoreLine " Reading & Writing: " (ReadingWriting rawScores) 24)
               (scoreLine " Listening: " (Listening rawScores) 12)
               (JS.showZ (JS.Math_round (completionRate answers)))
               (recommendation overall)
               (JS.str "Overall SEMF Level: ") (JS.str "Performance Breakdown:")
               (JS.str " Test Completion: ") (JS.str "%").
    intros. rewrite <- !app_assoc. reflexivity.
  - vm_compute. reflexivity.
  - vm_compute. reflexivity.
  - vm_compute. reflexivity.
  - vm_compute. reflexivity.
Qed.

End EngineProperties.

(** ** The points of the ordering questions and of the essay *)

Section QuestionPoints.

Variables toUpperCase toLowerCase : list N -> list N.

(** The effect of one ordering answer on the raw scores. *)
Lemma ordering_answer_effect (answers : gmap Z (list N)) (i : Z) :
  (36 <= i <= 40)%Z ->
  exists without with_answer,
    calculateActualScores toUpperCase toLowerCase (delete i answers) = Normal without
    /\ calculateActualScores toUpperCase toLowerCase answers = Normal with_answer
    /\ ReadingWriting with_answer
       = (ReadingWriting without + (if orderingPoint answers i then 1 else 0))%Z
    /\ GrammarVocabulary with_answer = GrammarVocabulary without
    /\ Listening with_answer = Listening without.
Proof.
  intros Hi. eexists _, _.
  split; [apply calculateActualScores_points |].
  split; [apply calculateActualScores_points |].
  cbn [GrammarVocabulary ReadingWriting Listening].
  rewrite (essayPoint_delete_ne toLowerCase answers i) by lia.
  rewrite (points_ext (letterPoint toUpperCase (delete i answers))
             (letterPoint toUpperCase answers) (seqZ 1 20))
    by (intros j Hj; apply In_seqZ in Hj; apply letterPoint_delete_ne; lia).
  rewrite (points_ext (letterPoint toUpperCase (delete i answers))
             (letterPoint toUpperCase answers) (seqZ 21 15))
    by (intros j Hj; apply In_seqZ in Hj; apply letterPoint_delete_ne; lia).
  rewrite (points_ext (letterPoint toUpperCase (delete i answers))
             (letterPoint toUpperCase answers) (seqZ 45 12))
    by (intros j Hj; apply In_seqZ in Hj; apply letterPoint_delete_ne; lia).
  rewrite (points_ext (textHit toLowerCase (delete i answers))
             (textHit toLowerCase answers) (seqZ 41 3))
    by (intros j Hj; apply In_seqZ in Hj; apply textHit_delete_ne; lia).
  rewrite (points_at (orderingPoint answers) (orderingPoint (delete i answers))
             (seqZ 36 5) i).
  - repeat split. lia.
  - apply NoDup_seqZ.
  - apply In_seqZ. lia.
  - intros j Hj. apply orderingPoint_delete_ne. congruence.
  - apply orderingPoint_delete_eq.
    assert (Hcase : (i = 36 \/ i = 37 \/ i = 38 \/ i = 39 \/ i = 40)%Z) by lia.
    destruct Hcase as [-> | [-> | [-> | [-> | ->]]]]; eexists; reflexivity.
Qed.

(** C8. An ordering question 36-40 scores its point exactly when the
    answer is present and, trimmed of surrounding white space and nothing
    else, equals the key's sequence code unit for code unit; the point is
    one reading and writing point. For question 36 the answer "B, C, D, A"
    scores, "b, c, d, a" and "B,C,D,A" do not. *)
Theorem ordering_point_exact_match (answers : gmap Z (list N)) :
  (forall i : Z,
      (36 <= i <= 40)%Z ->
      exists key,
        CORRECT_ANSWERS i = Some key
        /\ (orderingPoint answers i = true <->
            exists a, answers !! i = Some a /\ JS.trim a = key)
        /\ exists without with_answer,
            calculateActualScores toUpperCase toLowerCase (delete i answers)
            = Normal without
            /\ calculateActualScores toUpperCase toLowerCase answers
               = Normal with_answer
            /\ ReadingWriting with_answer
               = (ReadingWriting without + (if orderingPoint answers i then 1 else 0))%Z)
  /\ CORRECT_ANSWERS 36 = Some (JS.str "B, C, D, A")
  /\ orderingPoint (<[36%Z := JS.str "B, C, D, A"]> answers) 36 = true
  /\ orderingPoint (<[36%Z := JS.str "  B, C, D, A "]> answers) 36 = true
  /\ orderingPoint (<[36%Z := JS.str "b, c, d, a"]> answers) 36 = false
  /\ orderingPoint (<[36%Z := JS.str "B,C,D,A"]> answers) 36 = false.
Proof.
  split.
  - intros i Hi.
    assert (Hkey : is_Some (CORRECT_ANSWERS i)).
    { assert (Hcase : (i = 36 \/ i = 37 \/ i = 38 \/ i = 39 \/ i = 40)%Z) by lia.
      destruct Hcase as [-> | [-> | [-> | [-> | ->]]]]; eexists; reflexivity. }
    destruct Hkey as [key Hkey]. exists key. split; [exact Hkey |]. split.
    + unfold orderingPoint. rewrite Hkey, bool_decide_eq_true.
      destruct (answers !! i) as [a |]; cbn [fmap option_fmap option_map].
      * split; [intros [= H]; exists a; split; [reflexivity | exact H]
               | intros (a' & [= <-] & H); rewrite H; reflexivity].
      * split; [discriminate | intros (a' & H & _); discriminate].
    + destruct (ordering_answer_effect answers i Hi)
        as (without & with_answer & H1 & H2 & H3 & _).
      exists without, with_answer. repeat split; assumption.
  - unfold orderingPoint. rewrite !lookup_insert_eq.
    repeat split; reflexivity.
Qed.

(** The effect of the essay answer on the raw scores. *)
Lemma essay_answer_effect (answers : gmap Z (list N)) :
  exists without with_answer,
    calculateActualScores toUpperCase toLowerCase (delete 44%Z answers) = Normal without
    /\ calculateActualScores toUpperCase toLowerCase answers = Normal with_answer
    /\ ReadingWriting with_answer
       = (ReadingWriting without + (if essayPoint toLowerCase answers then 1 else 0))%Z
    /\ GrammarVocabulary with_answer = GrammarVocabulary without
    /\ Listening with_answer = Listening without.
Proof.
  eexists _, _.
  split; [apply calculateActualScores_points |].
  split; [apply calculateActualScores_points |].
  cbn [GrammarVocabulary ReadingWriting Listening].
  rewrite essayPoint_delete_eq.
  rewrite (points_ext (letterPoint toUpperCase (delete 44%Z answers))
             (letterPoint toUpperCase answers) (seqZ 1 20))
    by (intros j Hj; apply In_seqZ in Hj; apply letterPoint_delete_ne; lia).
  rewrite (points_ext (letterPoint toUpperCase (delete 44%Z answers))
             (letterPoint toUpperCase answers) (seqZ 21 15))
    by (intros j Hj; apply In_seqZ in Hj; apply letterPoint_delete_ne; lia).
  rewrite (points_ext (letterPoint toUpperCase (delete 44%Z answers))
             (letterPoint toUpperCase answers) (seqZ 45 12))
    by (intros j Hj; apply In_seqZ in Hj; apply letterPoint_delete_ne; lia).
  rewrite (points_ext (textHit toLowerCase (delete 44%Z answers))
             (textHit toLowerCase answers) (seqZ 41 3))
    by (intros j Hj; apply In_seqZ in Hj; apply textHit_delete_ne; lia).
  rewrite (points_ext (orderingPoint (delete 44%Z answers))
             (orderingPoint answers) (seqZ 36 5))
    by (intros j Hj; apply In_seqZ in Hj; apply orderingPoint_delete_ne; lia).
  repeat split. lia.
Qed.

End QuestionPoints.

(** ** Searching the trimmed or the whole essay

    The essay is searched after trimming.  For a search word without white
    space the whole answer gives the same result, provided lower-casing
    commutes with trimming, as the Unicode case mapping does. *)

Lemma startsWith_snoc_whitespace (s kw : list N) (c : N) :
  JS.isWhiteSpace c = true ->
  Forall (fun p => JS.isWhiteSpace p = false) kw ->
  JS.startsWith (s ++ [c]) kw = JS.startsWith s kw.
Proof.
  intros Hc Hkw. revert s.
  induction Hkw as [| p kw' Hp _ IH]; intros s.
  - destruct s; reflexivity.
  - destruct s as [| x s']; cbn [JS.startsWith app].
    + assert (Hne : (c =? p)%N = false)
        by (apply N.eqb_neq; intros ->; congruence).
      rewrite Hne. reflexivity.
    + rewrite IH. reflexivity.
Qed.

Lemma includes_snoc_whitespace (s kw : list N) (c : N) :
  JS.isWhiteSpace c = true ->
  Forall (fun p => JS.isWhiteSpace p = false) kw ->
  JS.includes (s ++ [c]) kw = JS.includes s kw.
Proof.
  intros Hc Hkw. induction s as [| x s' IH].
  - pose proof (startsWith_snoc_whitespace [] kw c Hc Hkw) as Hstart.
    cbn [app] in Hstart. cbn [app JS.includes]. rewrite Hstart.
    destruct (JS.startsWith [] kw); reflexivity.
  - change ((x :: s') ++ [c]) with (x :: (s' ++ [c])).
    cbn [JS.includes]. rewrite IH.
    change (x :: (s' ++ [c])) with ((x :: s') ++ [c]).
    rewrite (startsWith_snoc_whitespace (x :: s') kw c Hc Hkw). reflexivity.
Qed.

Lemma includes_app_whitespace (s w kw : list N) :
  Forall (fun c => JS.isWhiteSpace c = true) w ->
  Forall (fun p => JS.isWhiteSpace p = false) kw ->
  JS.includes (s ++ w) kw = JS.includes s kw.
Proof.
  intros Hw Hkw. revert s. induction Hw as [| c w' Hc _ IH]; intros s.
  - rewrite app_nil_r. reflexivity.
  - change (c :: w') with ([c] ++ w'). rewrite app_assoc, IH.
    apply includes_snoc_whitespace; assumption.
Qed.

Lemma includes_cons_whitespace (s kw : list N) (c : N) :
  JS.isWhiteSpace c = true ->
  Forall (fun p => JS.isWhiteSpace p = false) kw ->
  JS.includes (c :: s) kw = JS.includes s kw.
Proof.
  intros Hc Hkw. cbn [JS.includes].
  destruct Hkw as [| p kw' Hp Hkw'].
  - destruct s; reflexivity.
  - cbn [JS.startsWith].
    assert (Hne : (c =? p)%N = false)
      by (apply N.eqb_neq; intros ->; congruence).
    rewrite Hne. reflexivity.
Qed.

Lemma trimStart_split (s : list N) :
  exists w, Forall (fun c => JS.isWhiteSpace c = true) w /\ s = w ++ JS.trimStart s.
Proof.
  induction s as [| c s' (w & Hw & Heq)]; cbn [JS.trimStart].
  - exists []. split; [constructor | reflexivity].
  - destruct (JS.isWhiteSpace c) eqn:Hc.
    + exists (c :: w). split; [constructor; assumption |].
      cbn [app]. f_equal. exact Heq.
    + exists []. split; [constructor | reflexivity].
Qed.

Lemma trimStart_head (s r : list N) (c : N) :
  JS.trimStart s = c :: r -> JS.isWhiteSpace c = false.
Proof.
  induction s as [| x s' IH]; cbn [JS.trimStart]; [discriminate |].
  destruct (JS.isWhiteSpace x) eqn:Hx; [exact IH |].
  intros [= <- _]. exact Hx.
Qed.

Lemma endsWithWhitespace_snoc (d : bool) (s : list N) (c : N) :
  endsWithWhitespace d (s ++ [c]) = JS.isWhiteSpace c.
Proof.
  revert d. induction s as [| x s' IH]; intros d; [reflexivity |].
  cbn [app endsWithWhitespace]. apply IH.
Qed.

(** A trimmed string does not start or end with white space. *)
Lemma trim_ends (a r : list N) (c : N) :
  JS.trim a = c :: r ->
  JS.isWhiteSpace c = false /\ endsWithWhitespace false (c :: r) = false.
Proof.
  unfold JS.trim, JS.trimEnd. intros Htrim. split.
  - destruct (JS.trimStart a) as [| x u] eqn:Hstart; [discriminate Htrim |].
    pose proof (trimStart_head a u x Hstart) as Hx.
    destruct (trimStart_split (rev (x :: u))) as (w & Hw & Hsplit).
    apply (f_equal (@rev N)) in Hsplit.
    rewrite rev_involutive, rev_app_distr, Htrim in Hsplit.
    cbn [app] in Hsplit. injection Hsplit as -> _. exact Hx.
  - destruct (JS.trimStart (rev (JS.trimStart a))) as [| x u] eqn:Hend;
      [discriminate Htrim |].
    rewrite <- Htrim. cbn [rev]. rewrite endsWithWhitespace_snoc.
    exact (trimStart_head _ u x Hend).
Qed.

Lemma includes_trim (s kw : list N) :
  Forall (fun p => JS.isWhiteSpace p = false) kw ->
  JS.includes (JS.trim s) kw = JS.includes s kw.
Proof.
  intros Hkw. unfold JS.trim, JS.trimEnd.
  destruct (trimStart_split s) as (w1 & Hw1 & Hs).
  destruct (trimStart_split (rev (JS.trimStart s))) as (w2 & Hw2 & Hrev).
  assert (Hmid : JS.trimStart s
                 = rev (JS.trimStart (rev (JS.trimStart s))) ++ rev w2).
  { rewrite <- rev_app_distr, <- Hrev, rev_involutive. reflexivity. }
  rewrite <- (includes_app_whitespace _ (rev w2) kw);
    [| apply Forall_rev; exact Hw2 | exact Hkw].
  rewrite <- Hmid. rewrite Hs at 2. clear Hs Hmid Hrev.
  induction Hw1 as [| c w Hc _ IH]; [reflexivity |].
  cbn [app]. rewrite includes_cons_whitespace by assumption. exact IH.
Qed.

Section WholeEssay.

Variable toLowerCase : list N -> list N.
Hypothesis toLowerCase_trim : forall a, toLowerCase (JS.trim a) = JS.trim (toLowerCase a).

(** With an essay present, [hasArgument] is the search of the four words in
    the lower-cased answer as submitted. *)
Lemma hasArgument_whole_answer (answers : gmap Z (list N)) (a : list N) :
  answers !! 44%Z = Some a ->
  hasArgument toLowerCase answers
  = JS.includes (toLowerCase a) (JS.str "advantage")
    || JS.includes (toLowerCase a) (JS.str "disadvantage")
    || JS.includes (toLowerCase a) (JS.str "benefit")
    || JS.includes (toLowerCase a) (JS.str "challenge").
Proof using toLowerCase_trim.
  intros H. unfold hasArgument.
  assert (Hessay : essayAnswer answers = JS.trim a).
  { unfold essayAnswer. rewrite H. cbn [fmap option_fmap option_map JS.orEmpty].
    destruct (JS.trim a); reflexivity. }
  rewrite Hessay, toLowerCase_trim.
  rewrite !includes_trim; [reflexivity | ..];
    repeat (constructor; [reflexivity |]); constructor.
Qed.

End WholeEssay.

(** The Basic Latin lower-casing commutes with trimming. *)
Lemma letter_not_whitespace (c : N) :
  (65 <= c <= 122)%N -> JS.isWhiteSpace c = false.
Proof.
  intros Hc. apply not_true_iff_false. unfold JS.isWhiteSpace.
  rewrite !orb_true_iff, !andb_true_iff, !N.leb_le, !N.eqb_eq. lia.
Qed.

Lemma asciiToLowerCase_trimStart (a : list N) :
  JS.asciiToLowerCase (JS.trimStart a) = JS.trimStart (JS.asciiToLowerCase a).
Proof.
  induction a as [| c a' IH]; [reflexivity |].
  cbn [JS.trimStart JS.asciiToLowerCase List.map].
  destruct ((65 <=? c) && (c <=? 90))%N eqn:Hc.
  - apply andb_true_iff in Hc. destruct Hc as [H1 H2]. apply N.leb_le in H1, H2.
    rewrite (letter_not_whitespace c), (letter_not_whitespace (c + 32)) by lia.
    unfold JS.asciiToLowerCase. cbn [List.map].
    replace ((65 <=? c) && (c <=? 90))%N with true
      by (symmetry; apply andb_true_iff; split; apply N.leb_le; lia).
    reflexivity.
  - destruct (JS.isWhiteSpace c); [exact IH |].
    unfold JS.asciiToLowerCase. cbn [List.map]. rewrite Hc. reflexivity.
Qed.

Lemma asciiToLowerCase_trim (a : list N) :
  JS.asciiToLowerCase (JS.trim a) = JS.trim (JS.asciiToLowerCase a).
Proof.
  unfold JS.trim, JS.trimEnd.
  rewrite <- asciiToLowerCase_trimStart.
  generalize (JS.trimStart a). intros b.
  unfold JS.asciiToLowerCase at 1. rewrite map_rev.
  fold (JS.asciiToLowerCase (JS.trimStart (rev b))).
  rewrite asciiToLowerCase_trimStart.
  unfold JS.asciiToLowerCase at 1. rewrite map_rev. reflexivity.
Qed.

Lemma hasArgument_whole_answer_latin (answers : gmap Z (list N)) (a : list N) :
  answers !! 44%Z = Some a ->
  hasArgument JS.asciiToLowerCase answers
  = JS.includes (JS.asciiToLowerCase a) (JS.str "advantage")
    || JS.includes (JS.asciiToLowerCase a) (JS.str "disadvantage")
    || JS.includes (JS.asciiToLowerCase a) (JS.str "benefit")
    || JS.includes (JS.asciiToLowerCase a) (JS.str "challenge").
Proof. apply hasArgument_whole_answer, asciiToLowerCase_trim. Qed.

(** ** Words and substrings *)

(** The pieces of a split at white space and the words of the string. *)
Lemma splitWhitespaceFrom_words (inSep : bool) (acc s : list N) :
  length (JS.splitWhitespaceFrom inSep acc s)
  = (countWordsFrom (negb inSep) s + (if inSep then 0 else 1)
     + (if endsWithWhitespace inSep s then 1 else 0))%nat.
Proof.
  revert inSep acc. induction s as [| c s' IH]; intros inSep acc.
  - destruct inSep; reflexivity.
  - cbn [JS.splitWhitespaceFrom countWordsFrom endsWithWhitespace].
    destruct (JS.isWhiteSpace c) eqn:Hc.
    + destruct inSep; cbn [negb length]; rewrite IH; cbn [negb]; lia.
    + rewrite IH. destruct inSep; cbn [negb]; lia.
Qed.

(** A trimmed string is split into exactly its words. *)
Lemma splitWhitespace_trim_words (a : list N) :
  JS.trim a <> [] ->
  length (JS.splitWhitespace (JS.trim a)) = countWords (JS.trim a).
Proof.
  destruct (JS.trim a) as [| c r] eqn:Htrim; [contradiction |]. intros _.
  destruct (trim_ends a r c Htrim) as [Hc Hend].
  unfold JS.splitWhitespace. rewrite splitWhitespaceFrom_words, Hend.
  unfold countWords. cbn [negb countWordsFrom]. rewrite Hc. lia.
Qed.

Lemma countWordsFrom_whitespace_l (inWord : bool) (w s : list N) :
  Forall (fun c => JS.isWhiteSpace c = true) w ->
  countWordsFrom inWord (w ++ s)
  = countWordsFrom (match w with [] => inWord | _ :: _ => false end) s.
Proof.
  intros Hw. revert inWord. induction Hw as [| c w' Hc _ IH]; intros inWord; [reflexivity |].
  cbn [app countWordsFrom]. rewrite Hc, IH. destruct w'; reflexivity.
Qed.

Lemma countWordsFrom_whitespace_r (inWord : bool) (s w : list N) :
  Forall (fun c => JS.isWhiteSpace c = true) w ->
  countWordsFrom inWord (s ++ w) = countWordsFrom inWord s.
Proof.
  intros Hw. revert inWord. induction s as [| c s' IH]; intros inWord.
  - cbn [app]. rewrite <- (app_nil_r w), (countWordsFrom_whitespace_l inWord w [] Hw).
    reflexivity.
  - cbn [app countWordsFrom]. rewrite !IH. reflexivity.
Qed.

(** Trimming takes white space from both ends and nothing else. *)
Lemma trim_split (a : list N) :
  exists w1 w2,
    Forall (fun c => JS.isWhiteSpace c = true) w1
    /\ Forall (fun c => JS.isWhiteSpace c = true) w2
    /\ a = w1 ++ JS.trim a ++ w2.
Proof.
  unfold JS.trim, JS.trimEnd.
  destruct (trimStart_split a) as (w1 & Hw1 & Ha).
  destruct (trimStart_split (rev (JS.trimStart a))) as (w2 & Hw2 & Hrev).
  exists w1, (rev w2). split; [exact Hw1 |]. split; [apply Forall_rev, Hw2 |].
  rewrite <- rev_app_distr, <- Hrev, rev_involutive. exact Ha.
Qed.

Lemma countWords_trim (a : list N) : countWords (JS.trim a) = countWords a.
Proof.
  destruct (trim_split a) as (w1 & w2 & Hw1 & Hw2 & Ha).
  unfold countWords. rewrite Ha at 2.
  rewrite (countWordsFrom_whitespace_l false w1 _ Hw1).
  replace (match w1 with [] => false | _ :: _ => false end) with false
    by (destruct w1; reflexivity).
  rewrite (countWordsFrom_whitespace_r false _ w2 Hw2). reflexivity.
Qed.

(** [startsWith] and [includes] find exactly the prefixes and the
    substrings. *)
Lemma startsWith_prefix (s pat : list N) :
  JS.startsWith s pat = true <-> exists post, s = pat ++ post.
Proof.
  revert s. induction pat as [| p pat' IH]; intros s.
  - split; [intros _; exists s; reflexivity | intros _; destruct s; reflexivity].
  - destruct s as [| c s']; cbn [JS.startsWith].
    + split; [discriminate | intros [post H]; discriminate H].
    + rewrite andb_true_iff, N.eqb_eq, IH. split.
      * intros [-> [post ->]]. exists post. reflexivity.
      * intros [post [= -> ->]]. split; [reflexivity | exists post; reflexivity].
Qed.

Lemma includes_substring (s pat : list N) :
  JS.includes s pat = true <-> exists pre post, s = pre ++ pat ++ post.
Proof.
  induction s as [| c s' IH]; cbn [JS.includes]; rewrite orb_true_iff, startsWith_prefix.
  - split.
    + intros [[post H] | H]; [exists [], post; exact H | discriminate].
    + intros (pre & post & H). left. destruct pre as [| x pre']; [| discriminate H].
      exists post. exact H.
  - rewrite IH. split.
    + intros [[post H] | (pre & post & H)].
      * exists [], post. exact H.
      * exists (c :: pre), post. rewrite H. reflexivity.
    + intros (pre & post & H). destruct pre as [| x pre'].
      * left. exists post. exact H.
      * right. injection H as _ H. exists pre', post. exact H.
Qed.

Section EssayCriteria.

Variables toUpperCase toLowerCase : list N -> list N.

Lemma essayAnswer_present (answers : gmap Z (list N)) (a : list N) :
  answers !! 44%Z = Some a -> essayAnswer answers = JS.trim a.
Proof.
  intros H. unfold essayAnswer. rewrite H. cbn [fmap option_fmap option_map JS.orEmpty].
  destruct (JS.trim a); reflexivity.
Qed.

Lemma essayAnswer_absent (answers : gmap Z (list N)) :
  answers !! 44%Z = None -> essayAnswer answers = [].
Proof. intros H. unfold essayAnswer. rewrite H. reflexivity. Qed.

(** The word count of the engine is the number of words of the answer. *)
Lemma wordCount_words (answers : gmap Z (list N)) (a : list N) :
  answers !! 44%Z = Some a -> wordCount answers = countWords a.
Proof.
  intros H. unfold wordCount. rewrite (essayAnswer_present answers a H).
  rewrite <- countWords_trim.
  destruct (JS.trim a) as [| c r] eqn:Htrim; [reflexivity |].
  rewrite <- Htrim. apply splitWhitespace_trim_words. rewrite Htrim. discriminate.
Qed.

(** The four searches of the engine find exactly the occurrences of the
    four words. *)
Lemma hasArgument_occurrence (answers : gmap Z (list N)) :
  hasArgument toLowerCase answers = true <->
  exists keyword pre post,
    In keyword argumentWords
    /\ toLowerCase (essayAnswer answers) = pre ++ keyword ++ post.
Proof.
  unfold hasArgument. rewrite !orb_true_iff, !includes_substring. split.
  - intros [[[(pre & post & H) | (pre & post & H)] | (pre & post & H)] | (pre & post & H)];
      [ exists (JS.str "advantage") | exists (JS.str "disadvantage")
      | exists (JS.str "benefit") | exists (JS.str "challenge") ];
      exists pre, post; (split; [| exact H]); unfold argumentWords;
      [ left | right; left | right; right; left | right; right; right; left ];
      reflexivity.
  - intros (keyword & pre & post & Hin & H).
    destruct Hin as [<- | [<- | [<- | [<- | []]]]];
      [left; left; left | left; left; right | left; right | right];
      exists pre, post; exact H.
Qed.

(** C9. The essay point of question 44 is awarded exactly when the answer
    is present, has between 80 and 200 words (maximal runs of code units
    that are not white space) and its lower-cased trimmed text contains
    "advantage", "disadvantage", "benefit" or "challenge"; the word count
    of the engine is the number of pieces of the trimmed answer split at
    white space, which is that number of words; the point is one reading
    and writing point. An absent, empty or white-space-only answer has word
    count 0 and does not score. With the Basic Latin case mapping: 79 and
    201 words with a search word do not score, 80 and 200 do; 100 words
    without a search word do not; a capitalised search word counts; runs of
    several white-space code units separate words once; one long word is
    one word. *)
Theorem essay_point_criteria (answers : gmap Z (list N)) :
  (essayPoint toLowerCase answers = true <->
   exists a,
     answers !! 44%Z = Some a
     /\ (80 <= countWords a <= 200)%nat
     /\ exists keyword pre post,
          In keyword argumentWords
          /\ toLowerCase (JS.trim a) = pre ++ keyword ++ post)
  /\ (forall a, answers !! 44%Z = Some a ->
                essayAnswer answers = JS.trim a
                /\ wordCount answers = countWords a
                /\ (JS.trim a <> [] ->
                    wordCount answers = length (JS.splitWhitespace (JS.trim a))))
  /\ (essayPoint toLowerCase answers = true <->
      (80 <= wordCount answers <= 200)%nat
      /\ (JS.includes (toLowerCase (essayAnswer answers)) (JS.str "advantage") = true
          \/ JS.includes (toLowerCase (essayAnswer answers)) (JS.str "disadvantage") = true
          \/ JS.includes (toLowerCase (essayAnswer answers)) (JS.str "benefit") = true
          \/ JS.includes (toLowerCase (essayAnswer answers)) (JS.str "challenge") = true))
  /\ (answers !! 44%Z = None
      \/ (exists a, answers !! 44%Z = Some a
                    /\ Forall (fun c => JS.isWhiteSpace c = true) a) ->
      wordCount answers = 0%nat /\ essayPoint toLowerCase answers = false)
  /\ (exists without with_answer,
         calculateActualScores toUpperCase toLowerCase (delete 44%Z answers)
         = Normal without
         /\ calculateActualScores toUpperCase toLowerCase answers = Normal with_answer
         /\ ReadingWriting with_answer
            = (ReadingWriting without
               + (if essayPoint toLowerCase answers then 1 else 0))%Z)
  /\ essayPoint JS.asciiToLowerCase
       {[44%Z := essayOfWords (JS.str "benefit") (JS.str " ") 79]} = false
  /\ essayPoint JS.asciiToLowerCase
       {[44%Z := essayOfWords (JS.str "benefit") (JS.str " ") 80]} = true
  /\ essayPoint JS.asciiToLowerCase
       {[44%Z := essayOfWords (JS.str "benefit") (JS.str " ") 200]} = true
  /\ essayPoint JS.asciiToLowerCase
       {[44%Z := essayOfWords (JS.str "benefit") (JS.str " ") 201]} = false
  /\ essayPoint JS.asciiToLowerCase
       {[44%Z := essayOfWords (JS.str "opinion") (JS.str " ") 100]} = false
  /\ essayPoint JS.asciiToLowerCase
       {[44%Z := essayOfWords (JS.str "Benefit") (JS.str " ") 100]} = true
  /\ essayPoint JS.asciiToLowerCase
       {[44%Z := essayOfWords (JS.str "challenge") [32; 10; 9]%N 80]} = true
  /\ essayPoint JS.asciiToLowerCase
       {[44%Z := essayOfWords (JS.str "benefit") [] 80]} = false.
Proof.
  assert (Htests :
    essayPoint toLowerCase answers = true <->
    (80 <= wordCount answers <= 200)%nat /\ hasArgument toLowerCase answers = true).
  { unfold essayPoint. split.
    - intros H.
      destruct (80 <=? wordCount answers)%nat eqn:H80; [| discriminate].
      destruct (wordCount answers <=? 200)%nat eqn:H200; [| discriminate].
      apply Nat.leb_le in H80, H200. split; [lia |].
      destruct (0 <? length (essayAnswer answers))%nat; [| discriminate].
      destruct (hasArgument toLowerCase answers); [reflexivity | discriminate].
    - intros [[H80 H200] Harg].
      assert (Hlen : (0 <? length (essayAnswer answers))%nat = true).
      { apply Nat.ltb_lt. unfold wordCount in H80.
        destruct (essayAnswer answers); cbn [length]; lia. }
      apply Nat.leb_le in H80, H200. rewrite H80, H200, Hlen, Harg. reflexivity. }
  split; [| split; [| split; [| split; [| split]]]].
  - rewrite Htests, hasArgument_occurrence. split.
    + intros [Hcount (keyword & pre & post & Hin & Hfound)].
      destruct (answers !! 44%Z) as [a |] eqn:Ha.
      * exists a. split; [reflexivity |].
        rewrite <- (wordCount_words answers a Ha). split; [exact Hcount |].
        exists keyword, pre, post. rewrite <- (essayAnswer_present answers a Ha).
        split; assumption.
      * exfalso. unfold wordCount in Hcount.
        rewrite (essayAnswer_absent answers Ha) in Hcount. lia.
    + intros (a & Ha & Hcount & keyword & pre & post & Hin & Hfound).
      rewrite (wordCount_words answers a Ha). split; [exact Hcount |].
      exists keyword, pre, post. rewrite (essayAnswer_present answers a Ha).
      split; assumption.
  - intros a Ha. split; [exact (essayAnswer_present answers a Ha) |].
    split; [exact (wordCount_words answers a Ha) |].
    intros Hne. unfold wordCount. rewrite (essayAnswer_present answers a Ha).
    destruct (JS.trim a); [contradiction | reflexivity].
  - rewrite Htests. unfold hasArgument. rewrite !orb_true_iff. tauto.
  - intros H.
    assert (Hempty : essayAnswer answers = []).
    { unfold essayAnswer. destruct H as [H | (a & H & Hws)]; rewrite H;
        [| cbn [fmap option_fmap option_map]; rewrite (trim_whitespace a Hws)];
        reflexivity. }
    unfold essayPoint, wordCount. rewrite Hempty. split; reflexivity.
  - destruct (essay_answer_effect toUpperCase toLowerCase answers)
      as (without & with_answer & H1 & H2 & H3 & _).
    exists without, with_answer. repeat split; assumption.
  - do 7 (split; [vm_compute; reflexivity |]). vm_compute. reflexivity.
Qed.

End EssayCriteria.


(** ** The theorems at concrete inputs *)

(** C2 at the scores 100/3 and 0: S1 and S2 do not return, S3 returns
    downward with S2, and S4 and S5 are not visited; and at the scores 42
    and 35: none of S1 to S4 returns, all five bands are visited and S5
    returns upward. *)
Lemma applyTieBreaker_first_match_witness :
  LEVEL_CUTOFFS !! 2%nat = Some (JS.str "S3", {| Range.min := 26; Range.max := 33 |})
  /\ returnsDownward 2 {| Range.min := 26; Range.max := 33 |} (100 # 3) 0
  /\ bandsVisited (100 # 3) 0 = [JS.str "S1"; JS.str "S2"; JS.str "S3"]
  /\ applyTieBreaker (100 # 3) 0 = {| tbLevel := Some (JS.str "S2"); tbApplied := true |}
  /\ returnsUpward {| Range.min := 43; Range.max := 50 |} 42 35
  /\ bandsVisited 42 35 = Object_keys LEVEL_CUTOFFS
  /\ applyTieBreaker 42 35 = {| tbLevel := Some (JS.str "S5"); tbApplied := true |}.
Proof.
  assert (Hi : LEVEL_CUTOFFS !! 2%nat
               = Some (JS.str "S3", {| Range.min := 26; Range.max := 33 |}))
    by reflexivity.
  assert (Hdown : returnsDownward 2 {| Range.min := 26; Range.max := 33 |} (100 # 3) 0).
  { unfold returnsDownward. cbn [Range.min Range.max].
    repeat split; first [lia | vm_compute; first [reflexivity | discriminate]]. }
  assert (Hbefore : forall j level' range',
             (j < 2)%nat -> LEVEL_CUTOFFS !! j = Some (level', range') ->
             ~ bodyReturns j range' (100 # 3) 0).
  { intros j level' range' Hj Hl.
    destruct j as [| [| j]]; [| | lia]; injection Hl as <- <-;
      unfold bodyReturns, returnsUpward, returnsDownward; cbn [Range.min Range.max];
      intros [[[H1 H2] _] | ([H1 H2] & _)]; vm_compute in H1, H2;
      first [apply H1; reflexivity | apply H2; reflexivity | discriminate]. }
  assert (Hlast : LEVEL_CUTOFFS !! 4%nat
                  = Some (JS.str "S5", {| Range.min := 43; Range.max := 50 |}))
    by reflexivity.
  assert (Hup : returnsUpward {| Range.min := 43; Range.max := 50 |} 42 35).
  { unfold returnsUpward. cbn [Range.min Range.max].
    repeat split; vm_compute; first [reflexivity | discriminate]. }
  assert (Hfour : forall j level' range',
             (j < 4)%nat -> LEVEL_CUTOFFS !! j = Some (level', range') ->
             ~ bodyReturns j range' 42 35).
  { intros j level' range' Hj Hl.
    destruct j as [| [| [| [| j]]]]; [| | | | lia]; injection Hl as <- <-;
      unfold bodyReturns, returnsUpward, returnsDownward; cbn [Range.min Range.max];
      intros [[[H1 H2] _] | (_ & H3 & _)];
      first [vm_compute in H3; discriminate
            | vm_compute in H1, H2;
              first [apply H1; reflexivity | apply H2; reflexivity | discriminate]]. }
  split; [exact Hi |]. split; [exact Hdown |].
  split; [exact (proj1 (proj2 (proj1 (applyTieBreaker_first_match (100 # 3) 0)
                                 2%nat _ _ Hi Hbefore) Hdown)) |].
  split; [exact (proj2 (proj2 (proj1 (applyTieBreaker_first_match (100 # 3) 0)
                                 2%nat _ _ Hi Hbefore) Hdown)) |].
  split; [exact Hup |].
  exact (proj1 (proj1 (applyTieBreaker_first_match 42 35) 4%nat _ _ Hlast Hfour) Hup).
Defined.

(** C6 at the raw scores 14, 7, 8 and 15, 8, 9. *)
Lemma normalized_in_range_and_monotone_witness :
  (0 <= 7 <= 24)%Z
  /\ (7 <= 8)%Z
  /\ (0 <= readingWritingNorm
            {| GrammarVocabulary := 14; ReadingWriting := 7; Listening := 8 |} <= 50)%Q
  /\ (readingWritingNorm
        {| GrammarVocabulary := 14; ReadingWriting := 7; Listening := 8 |}
      <= readingWritingNorm
           {| GrammarVocabulary := 15; ReadingWriting := 8; Listening := 9 |})%Q.
Proof.
  split; [lia |]. split; [lia |].
  destruct (normalized_in_range_and_monotone
              {| GrammarVocabulary := 14; ReadingWriting := 7; Listening := 8 |}
              {| GrammarVocabulary := 15; ReadingWriting := 8; Listening := 9 |})
    as (_ & Hrange & _ & _ & Hmono & _).
  split; [apply Hrange | apply Hmono]; cbn; lia.
Defined.

(** C4 at the score 175/12 below S2 with GrammarVocabulary 35, and for the
    answer set with 14 grammar points and 7 reading and writing points. *)
Lemma tieBreak_upward_case_witness :
  In (JS.str "S2", {| Range.min := 16; Range.max := 25 |}) LEVEL_CUTOFFS
  /\ (16 - 2 <= 175 # 12 < 16)%Q
  /\ (35 <= 35)%Q
  /\ applyTieBreaker (175 # 12) 35 = {| tbLevel := Some (JS.str "S2"); tbApplied := true |}
  /\ calculateActualScoresLatin answersGrammar14ReadingWriting7
     = Normal {| GrammarVocabulary := 14; ReadingWriting := 7; Listening := 0 |}
  /\ exists report rw lst,
       calculateSEMFLevelLatin answersGrammar14ReadingWriting7 = Normal report
       /\ skills report = [rw; lst]
       /\ skill rw = JS.str "ReadingWriting"
       /\ level rw = JS.str "S2"
       /\ tieBreakerApplied rw = true.
Proof.
  assert (Hin : In (JS.str "S2", {| Range.min := 16; Range.max := 25 |}) LEVEL_CUTOFFS)
    by (cbn; tauto).
  assert (Hs : (16 - 2 <= 175 # 12 < 16)%Q) by (split; vm_compute; first [reflexivity | discriminate]).
  assert (Hg : (35 <= 35)%Q) by (vm_compute; discriminate).
  assert (Hraw : calculateActualScoresLatin answersGrammar14ReadingWriting7
                 = Normal {| GrammarVocabulary := 14; ReadingWriting := 7; Listening := 0 |})
    by (vm_compute; reflexivity).
  split; [exact Hin |]. split; [exact Hs |]. split; [exact Hg |].
  split; [| split; [exact Hraw |]].
  - exact (proj1 (tieBreak_upward_case JS.asciiToUpperCase JS.asciiToLowerCase)
             (JS.str "S2") {| Range.min := 16; Range.max := 25 |} (175 # 12) 35%Q Hin Hs Hg).
  - refine (proj2 (proj2 (proj2 (tieBreak_upward_case JS.asciiToUpperCase
                                   JS.asciiToLowerCase)
                            answersGrammar14ReadingWriting7 _ Hraw _ _))).
    + reflexivity.
    + vm_compute. discriminate.
Defined.

(** C8 at question 37 of the answer set with 21 reading and writing
    points. *)
Lemma ordering_point_exact_match_witness :
  (36 <= 37 <= 40)%Z
  /\ exists key,
       CORRECT_ANSWERS 37 = Some key
       /\ (orderingPoint answersReadingWriting21 37 = true <->
           exists a, answersReadingWriting21 !! 37%Z = Some a /\ JS.trim a = key)
       /\ exists without with_answer,
            calculateActualScoresLatin (delete 37%Z answersReadingWriting21)
            = Normal without
            /\ calculateActualScoresLatin answersReadingWriting21 = Normal with_answer
            /\ ReadingWriting with_answer
               = (ReadingWriting without
                  + (if orderingPoint answersReadingWriting21 37 then 1 else 0))%Z.
Proof.
  assert (Hi : (36 <= 37 <= 40)%Z) by lia.
  split; [exact Hi |].
  exact (proj1 (ordering_point_exact_match JS.asciiToUpperCase JS.asciiToLowerCase
                  answersReadingWriting21) 37%Z Hi).
Defined.

(** C9 for an essay of eighty words with a search word, and for an absent
    essay. *)
Lemma essay_point_criteria_witness :
  (exists a,
      ({[44%Z := essayOfWords (JS.str "benefit") (JS.str " ") 80]} : gmap Z (list N)) !! 44%Z
      = Some a
      /\ (80 <= countWords a <= 200)%nat
      /\ exists keyword pre post,
           In keyword argumentWords
           /\ JS.asciiToLowerCase (JS.trim a) = pre ++ keyword ++ post)
  /\ essayPoint JS.asciiToLowerCase
       {[44%Z := essayOfWords (JS.str "benefit") (JS.str " ") 80]} = true
  /\ (∅ : gmap Z (list N)) !! 44%Z = None
  /\ wordCount ∅ = 0%nat
  /\ essayPoint JS.asciiToLowerCase ∅ = false.
Proof.
  assert (Hessay :
    exists a,
      ({[44%Z := essayOfWords (JS.str "benefit") (JS.str " ") 80]} : gmap Z (list N)) !! 44%Z
      = Some a
      /\ (80 <= countWords a <= 200)%nat
      /\ exists keyword pre post,
           In keyword argumentWords
           /\ JS.asciiToLowerCase (JS.trim a) = pre ++ keyword ++ post).
  { exists (essayOfWords (JS.str "benefit") (JS.str " ") 80).
    split; [reflexivity |]. split.
    - assert (Hc : countWords (essayOfWords (JS.str "benefit") (JS.str " ") 80) = 80%nat)
        by (vm_compute; reflexivity).
      rewrite Hc. lia.
    - exists (JS.str "benefit"), [],
        (drop 7 (JS.asciiToLowerCase
                   (JS.trim (essayOfWords (JS.str "benefit") (JS.str " ") 80)))).
      split; [right; right; left; reflexivity | vm_compute; reflexivity]. }
  assert (H : (∅ : gmap Z (list N)) !! 44%Z = None) by reflexivity.
  split; [exact Hessay |].
  split.
  - exact (proj2 (proj1 (essay_point_criteria JS.asciiToUpperCase JS.asciiToLowerCase
                           {[44%Z := essayOfWords (JS.str "benefit") (JS.str " ") 80]}))
             Hessay).
  - split; [exact H |].
    exact (proj1 (proj2 (proj2 (proj2 (essay_point_criteria JS.asciiToUpperCase
                                         JS.asciiToLowerCase ∅))))
             (or_introl H)).
Defined.

(** C10 for an entry with identifier 99 and empty text added to the empty
    map. *)
Lemma completion_counts_every_entry_witness :
  (∅ : gmap Z (list N)) !! 99%Z = None
  /\ (completionRate (<[99%Z := []]> ∅) == completionRate ∅ + 100 / 56)%Q.
Proof.
  assert (H : (∅ : gmap Z (list N)) !! 99%Z = None) by reflexivity.
  split; [exact H |].
  exact (proj1 (proj2 (completion_counts_every_entry JS.asciiToUpperCase
                         JS.asciiToLowerCase ∅))
           99%Z [] H).
Defined.

(** * Further properties of the engine *)

(** ** Grading *)

Lemma points_delete (hit hit' : Z -> bool) (lo len i : Z) :
  (forall j, j <> i -> hit' j = hit j) ->
  ((lo <= i < lo + len)%Z -> hit' i = false) ->
  points hit (seqZ lo len)
  = (points hit' (seqZ lo len)
     + (if (lo <=? i)%Z && (i <? lo + len)%Z then if hit i then 1 else 0 else 0))%Z.
Proof.
  intros Hne Heq.
  destruct ((lo <=? i)%Z && (i <? lo + len)%Z) eqn:Hin.
  - apply andb_true_iff in Hin. destruct Hin as [H1 H2].
    apply Z.leb_le in H1. apply Z.ltb_lt in H2.
    apply points_at; [apply NoDup_seqZ | apply In_seqZ; lia | exact Hne | apply Heq; lia].
  - rewrite (points_ext hit hit'); [lia |].
    intros j Hj. symmetry. apply Hne. intros ->. apply In_seqZ in Hj.
    apply andb_false_iff in Hin. destruct Hin as [Hin | Hin];
      [apply Z.leb_gt in Hin | apply Z.ltb_ge in Hin]; lia.
Qed.

Lemma key_present (i : Z) :
  (1 <= i <= 40 \/ 45 <= i <= 56)%Z -> is_Some (CORRECT_ANSWERS i).
Proof.
  intros Hi.
  assert (Hall : forallb (fun j => match CORRECT_ANSWERS j with
                                   | Some _ => true
                                   | None => false
                                   end) (seqZ 1 40 ++ seqZ 45 12) = true)
    by (vm_compute; reflexivity).
  rewrite forallb_forall in Hall. specialize (Hall i).
  destruct (CORRECT_ANSWERS i); [eexists; reflexivity |].
  discriminate Hall. apply in_app_iff. rewrite !In_seqZ. lia.
Qed.

(** The normalised scores of raw scores within the skill maxima. *)
Lemma normalized_bounds (rawScores : SEMFInput) :
  ((0 <= GrammarVocabulary rawScores <= 20)%Z -> (0 <= grammarVocabNorm rawScores <= 50)%Q)
  /\ ((0 <= ReadingWriting rawScores <= 24)%Z ->
      (0 <= readingWritingNorm rawScores <= 50)%Q)
  /\ ((0 <= Listening rawScores <= 12)%Z -> (0 <= listeningNorm rawScores <= 50)%Q).
Proof.
  rewrite grammarVocabNorm_linear, readingWritingNorm_linear, listeningNorm_linear.
  generalize (GrammarVocabulary rawScores) (ReadingWriting rawScores) (Listening rawScores).
  intros g r l. rewrite !Zle_Qle.
  change (inject_Z 0) with 0%Q. change (inject_Z 20) with 20%Q.
  change (inject_Z 24) with 24%Q. change (inject_Z 12) with 12%Q.
  generalize (inject_Z g) (inject_Z r) (inject_Z l).
  intros; repeat match goal with |- _ /\ _ => split end; intros; lra.
Qed.

(** Decide the integer comparisons of the goal from the context. *)
Ltac decide_tests :=
  repeat match goal with
         | |- context [(?a <=? ?b)%Z] =>
             first [ rewrite (proj2 (Z.leb_le a b)) in * by lia
                   | rewrite (proj2 (Z.leb_gt a b)) in * by lia ]
         | |- context [(?a <? ?b)%Z] =>
             first [ rewrite (proj2 (Z.ltb_lt a b)) in * by lia
                   | rewrite (proj2 (Z.ltb_ge a b)) in * by lia ]
         | H : context [(?a =? ?b)%Z] |- _ =>
             first [ rewrite (proj2 (Z.eqb_eq a b)) in * by lia
                   | rewrite (proj2 (Z.eqb_neq a b)) in * by lia ]
         end.

Section GradingFurther.

Variables toUpperCase toLowerCase : list N -> list N.

Lemma letterPoint_delete_eq (answers : gmap Z (list N)) (i : Z) :
  is_Some (CORRECT_ANSWERS i) -> letterPoint toUpperCase (delete i answers) i = false.
Proof.
  intros [key Hkey]. unfold letterPoint. rewrite lookup_delete_eq, Hkey. reflexivity.
Qed.

Lemma textHit_delete_eq (answers : gmap Z (list N)) (i : Z) :
  textHit toLowerCase (delete i answers) i = false.
Proof.
  unfold textHit, textPoint. rewrite lookup_delete_eq.
  destruct (TEXT_ANSWER_KEYWORDS i); [| reflexivity].
  cbn [fmap option_fmap option_map JS.orEmpty length].
  apply andb_false_r.
Qed.

(** X1. Every answer set is graded without an exception, to raw scores between
    0 and 20, 24 and 12 and to normalised scores between 0 and 50. *)
Theorem graded_scores_on_scale (answers : gmap Z (list N)) :
  exists rawScores,
    calculateActualScores toUpperCase toLowerCase answers = Normal rawScores
    /\ (0 <= GrammarVocabulary rawScores <= 20)%Z
    /\ (0 <= ReadingWriting rawScores <= 24)%Z
    /\ (0 <= Listening rawScores <= 12)%Z
    /\ (0 <= grammarVocabNorm rawScores <= 50)%Q
    /\ (0 <= readingWritingNorm rawScores <= 50)%Q
    /\ (0 <= listeningNorm rawScores <= 50)%Q.
Proof.
  pose proof (calculateActualScores_points toUpperCase toLowerCase answers) as Hraw.
  set (rawScores := {| GrammarVocabulary := _ |}) in Hraw.
  exists rawScores. split; [exact Hraw |].
  destruct (calculateActualScores_bounds toUpperCase toLowerCase answers rawScores Hraw)
    as (Hg & Hr & Hl).
  destruct (normalized_bounds rawScores) as (Ng & Nr & Nl).
  split; [exact Hg |]. split; [exact Hr |]. split; [exact Hl |].
  split; [exact (Ng Hg) |]. split; [exact (Nr Hr) | exact (Nl Hl)].
Qed.

(** X2. The answer to one question is worth at most one point, and only for
    the skill of its range: 1-20 GrammarVocabulary, 21-44 ReadingWriting,
    45-56 Listening; an entry under any other identifier is worth
    nothing. *)
Theorem question_contribution (answers : gmap Z (list N)) (i : Z) :
  exists without with_answer point,
    calculateActualScores toUpperCase toLowerCase (delete i answers) = Normal without
    /\ calculateActualScores toUpperCase toLowerCase answers = Normal with_answer
    /\ (point = 0 \/ point = 1)%Z
    /\ GrammarVocabulary with_answer
       = (GrammarVocabulary without + (if (1 <=? i) && (i <=? 20) then point else 0))%Z
    /\ ReadingWriting with_answer
       = (ReadingWriting without + (if (21 <=? i) && (i <=? 44) then point else 0))%Z
    /\ Listening with_answer
       = (Listening without + (if (45 <=? i) && (i <=? 56) then point else 0))%Z.
Proof.
  set (point :=
         (if (i <=? 35)%Z || (45 <=? i)%Z then
            if letterPoint toUpperCase answers i then 1 else 0
          else if (i <=? 40)%Z then if orderingPoint answers i then 1 else 0
          else if (i <=? 43)%Z then if textHit toLowerCase answers i then 1 else 0
          else if essayPoint toLowerCase answers then 1 else 0)%Z).
  eexists _, _, point.
  split; [apply calculateActualScores_points |].
  split; [apply calculateActualScores_points |].
  split.
  { unfold point.
    destruct ((i <=? 35)%Z || (45 <=? i)%Z), (i <=? 40)%Z, (i <=? 43)%Z,
      (letterPoint toUpperCase answers i), (orderingPoint answers i),
      (textHit toLowerCase answers i), (essayPoint toLowerCase answers); tauto. }
  cbn [GrammarVocabulary ReadingWriting Listening].
  rewrite (points_delete (letterPoint toUpperCase answers)
             (letterPoint toUpperCase (delete i answers)) 1 20 i),
    (points_delete (letterPoint toUpperCase answers)
       (letterPoint toUpperCase (delete i answers)) 21 15 i),
    (points_delete (letterPoint toUpperCase answers)
       (letterPoint toUpperCase (delete i answers)) 45 12 i),
    (points_delete (orderingPoint answers) (orderingPoint (delete i answers)) 36 5 i),
    (points_delete (textHit toLowerCase answers)
       (textHit toLowerCase (delete i answers)) 41 3 i);
    try (intros j Hj; first [ apply letterPoint_delete_ne | apply orderingPoint_delete_ne
                            | apply textHit_delete_ne ]; congruence);
    try (intros Hin; first [ apply letterPoint_delete_eq | apply orderingPoint_delete_eq ];
         apply key_present; lia);
    try (intros _; apply textHit_delete_eq).
  assert (Hessay : essayPoint toLowerCase answers
                   = if (i =? 44)%Z then essayPoint toLowerCase answers
                     else essayPoint toLowerCase (delete i answers)).
  { destruct (Z.eqb_spec i 44); [reflexivity |].
    symmetry. apply essayPoint_delete_ne. exact n. }
  assert (Hgone : (i =? 44)%Z = true -> essayPoint toLowerCase (delete i answers) = false).
  { intros H. apply Z.eqb_eq in H. subst i. apply essayPoint_delete_eq. }
  unfold point. clear point.
  revert Hessay Hgone.
  generalize (essayPoint toLowerCase answers) (essayPoint toLowerCase (delete i answers))
             (letterPoint toUpperCase answers i) (orderingPoint answers i)
             (textHit toLowerCase answers i).
  intros e e' l o t Hessay Hgone.
  assert (Hcase : (i < 1 \/ 1 <= i <= 20 \/ 21 <= i <= 35 \/ 36 <= i <= 40
                   \/ 41 <= i <= 43 \/ i = 44 \/ 45 <= i <= 56 \/ 56 < i)%Z) by lia.
  repeat (destruct Hcase as [Hcase | Hcase]);
    decide_tests; cbn [andb orb];
    try (rewrite Hgone in * by reflexivity); try subst e;
    repeat split; destruct l, o, t; try destruct e'; try destruct e; lia.
Qed.

End GradingFurther.

(** ** Report *)

Lemma Math_round_bounds (x : Q) (lo hi : Z) :
  (inject_Z lo <= x <= inject_Z hi)%Q -> (lo <= JS.Math_round x <= hi)%Z.
Proof.
  intros [Hlo Hhi]. unfold JS.Math_round. split.
  - rewrite <- (Qfloor_Z lo). apply Qfloor_resp_le. lra.
  - assert (H : (Qfloor (x + (1 # 2)) < hi + 1)%Z); [| lia].
    rewrite Zlt_Qlt. apply Qle_lt_trans with (x + (1 # 2))%Q; [apply Qfloor_le |].
    rewrite inject_Z_plus. change (inject_Z 1) with 1%Q. lra.
Qed.

Lemma ratio_bounds (n d : Z) :
  (0 <= n <= d)%Z -> (0 < d)%Z ->
  (inject_Z 0 <= inject_Z n / inject_Z d * 100 <= inject_Z 100)%Q.
Proof.
  intros [H0 Hn] Hd.
  assert (Hd' : (0 < inject_Z d)%Q) by (change 0%Q with (inject_Z 0); rewrite <- Zlt_Qlt; lia).
  assert (Hn0 : (0 <= inject_Z n)%Q)
    by (change 0%Q with (inject_Z 0); rewrite <- Zle_Qle; lia).
  assert (Hnd : (inject_Z n <= inject_Z d)%Q) by (rewrite <- Zle_Qle; lia).
  change (inject_Z 0) with 0%Q. change (inject_Z 100) with 100%Q.
  assert (Hq : (0 <= inject_Z n / inject_Z d <= 1)%Q).
  { split.
    - apply Qle_shift_div_l; [exact Hd' | lra].
    - apply Qle_shift_div_r; [exact Hd' | lra]. }
  revert Hq. generalize (inject_Z n / inject_Z d)%Q. intros q Hq. lra.
Qed.

Lemma size_within (answers : gmap Z (list N)) (lo len : Z) :
  (forall k, is_Some (answers !! k) -> (lo <= k < lo + len)%Z) ->
  (size answers <= Z.to_nat len)%nat.
Proof.
  intros Hkeys.
  rewrite <- (size_dom (D := gset Z)).
  rewrite <- (length_seqZ lo len).
  rewrite <- (size_list_to_set (C := gset Z) (seqZ lo len)) by apply NoDup_seqZ.
  apply subseteq_size. intros k Hk.
  apply elem_of_dom in Hk. apply elem_of_list_to_set, elem_of_seqZ, Hkeys, Hk.
Qed.

(** X3. When every entry of the answer map has an identifier from 1 to 56, the
    map has at most 56 entries and the completion figure of the summary is
    at most 100. *)
Theorem completion_at_most_100 (answers : gmap Z (list N)) :
  (forall k, is_Some (answers !! k) -> (1 <= k <= 56)%Z) ->
  (size answers <= 56)%nat
  /\ (completionRate answers <= 100)%Q
  /\ (0 <= JS.Math_round (completionRate answers) <= 100)%Z.
Proof.
  intros Hkeys.
  assert (Hsize : (size answers <= 56)%nat).
  { apply (size_within answers 1 56). intros k Hk. specialize (Hkeys k Hk). lia. }
  pose proof (ratio_bounds (totalAnswered answers) totalPossible) as Hratio.
  unfold totalAnswered, totalPossible in Hratio.
  specialize (Hratio ltac:(lia) ltac:(lia)).
  split; [exact Hsize |]. split.
  - exact (proj2 Hratio).
  - apply Math_round_bounds. exact Hratio.
Qed.

Lemma property_map_key {A} (f : list N -> A) (keys : list (list N)) (l : list N) :
  In l keys -> property (List.map (fun k => (k, f k)) keys) l = Some (f l).
Proof.
  induction keys as [| k rest IH]; [intros [] |].
  cbn [List.map property]. intros Hin.
  destruct (bool_decide (k = l)) eqn:E.
  - apply bool_decide_eq_true in E. subst. reflexivity.
  - apply bool_decide_eq_false in E. destruct Hin as [-> | Hin]; [contradiction |].
    exact (IH Hin).
Qed.

Lemma Set_of_NoDup (seen levels : list (list N)) :
  NoDup (Set_of seen levels) /\ forall l, In l (Set_of seen levels) -> ~ In l seen.
Proof.
  revert seen. induction levels as [| x rest IH]; intros seen; cbn [Set_of].
  - split; [constructor | intros l []].
  - destruct (bool_decide (x ∈ seen)) eqn:E.
    + apply IH.
    + apply bool_decide_eq_false in E.
      destruct (IH (x :: seen)) as [Hnd Hnot]. split.
      * constructor; [| exact Hnd].
        intros Hx. apply list_elem_of_In in Hx. apply (Hnot x Hx). left. reflexivity.
      * intros l [<- | Hl]; [rewrite <- list_elem_of_In; exact E |].
        intros Hs. apply (Hnot l Hl). right. exact Hs.
Qed.

Section ReportFurther.

Variables toUpperCase toLowerCase : list N -> list N.

Lemma scores_ignore_identifier (answers : gmap Z (list N)) (k : Z) (a : list N) :
  (k < 1 \/ 56 < k)%Z ->
  calculateActualScores toUpperCase toLowerCase (<[k := a]> answers)
  = calculateActualScores toUpperCase toLowerCase answers.
Proof.
  intros Hk. rewrite !calculateActualScores_points.
  assert (Hlookup : forall j, (1 <= j <= 56)%Z -> <[k := a]> answers !! j = answers !! j)
    by (intros j Hj; apply lookup_insert_ne; lia).
  assert (Hessay : essayPoint toLowerCase (<[k := a]> answers)
                   = essayPoint toLowerCase answers).
  { unfold essayPoint, hasArgument, wordCount, essayAnswer.
    rewrite Hlookup by lia. reflexivity. }
  rewrite Hessay.
  rewrite 3 (points_ext (letterPoint toUpperCase (<[k := a]> answers))
               (letterPoint toUpperCase answers))
    by (intros j Hj; apply In_seqZ in Hj; unfold letterPoint; rewrite Hlookup by lia;
        reflexivity).
  rewrite (points_ext (orderingPoint (<[k := a]> answers)) (orderingPoint answers))
    by (intros j Hj; apply In_seqZ in Hj; unfold orderingPoint; rewrite Hlookup by lia;
        reflexivity).
  rewrite (points_ext (textHit toLowerCase (<[k := a]> answers))
             (textHit toLowerCase answers))
    by (intros j Hj; apply In_seqZ in Hj; unfold textHit, textPoint;
        rewrite Hlookup by lia; reflexivity).
  reflexivity.
Qed.

(** X4. An entry under an identifier outside 1-56 changes nothing in the report
    but the summary text: scores, skill levels, tie-break flags, overall
    level and descriptions are those of the map without it. *)
Theorem unused_identifier_changes_only_summary
    (answers : gmap Z (list N)) (k : Z) (a : list N) :
  (k < 1 \/ 56 < k)%Z ->
  exists report report',
    calculateSEMFLevel toUpperCase toLowerCase answers = Normal report
    /\ calculateSEMFLevel toUpperCase toLowerCase (<[k := a]> answers) = Normal report'
    /\ skills report' = skills report
    /\ tieBreakerSkill report' = tieBreakerSkill report
    /\ overallLevel report' = overallLevel report
    /\ descriptions report' = descriptions report.
Proof.
  intros Hk.
  destruct (calculateSEMFLevel_report toUpperCase toLowerCase answers)
    as (raw & lrw & ll & Hraw & Hlrw & Hll & _ & _ & Hreport).
  destruct (calculateSEMFLevel_report toUpperCase toLowerCase (<[k := a]> answers))
    as (raw' & lrw' & ll' & Hraw' & Hlrw' & Hll' & _ & _ & Hreport').
  rewrite (scores_ignore_identifier answers k a Hk), Hraw in Hraw'.
  apply Normal_inj in Hraw'. subst raw'.
  rewrite Hlrw in Hlrw'. rewrite Hll in Hll'.
  apply (inj Some) in Hlrw', Hll'. subst lrw' ll'.
  eexists _, _. split; [exact Hreport |]. split; [exact Hreport' |].
  repeat split.
Qed.

(** X5. The descriptions of a report have one entry per distinct level among
    the two skills (the overall level is one of them), and looking up the
    overall level or a skill level gives the sentence of
    [LEVEL_DESCRIPTIONS] for it. *)
Theorem descriptions_of_levels (answers : gmap Z (list N)) :
  exists report,
    calculateSEMFLevel toUpperCase toLowerCase answers = Normal report
    /\ NoDup (List.map fst (descriptions report))
    /\ In (overallLevel report) (List.map level (skills report))
    /\ (forall l, In l (List.map fst (descriptions report)) <->
                  In l (List.map level (skills report)))
    /\ (forall l, In l (overallLevel report :: List.map level (skills report)) ->
                  exists sentence,
                    property LEVEL_DESCRIPTIONS l = Some sentence
                    /\ property (descriptions report) l = Some (Some sentence)).
Proof.
  destruct (calculateSEMFLevel_report toUpperCase toLowerCase answers)
    as (raw & lrw & ll & _ & _ & _ & Hkrw & Hkl & Hreport).
  eexists. split; [exact Hreport |].
  cbn [descriptions overallLevel skills List.map level].
  set (overall := if (bandPosition lrw <=? bandPosition ll)%Z then lrw else ll).
  assert (Hov : overall = lrw \/ overall = ll)
    by (unfold overall; destruct (bandPosition lrw <=? bandPosition ll)%Z; tauto).
  rewrite map_map. cbn [fst]. rewrite map_id.
  assert (Hset : forall l, In l (Set_of [] [lrw; ll; overall]) <-> In l [lrw; ll]).
  { intros l. split.
    - intros H. apply Set_of_subset in H. cbn [In] in *.
      destruct H as [H | [H | [H | []]]]; [tauto | tauto |].
      destruct Hov as [Ho | Ho]; rewrite Ho in H; tauto.
    - intros H. destruct (Set_of_In [] [lrw; ll; overall] l) as [[] | H']; [| exact H'].
      cbn [In] in *. tauto. }
  split; [apply (Set_of_NoDup [] _) |].
  split; [cbn [In]; destruct Hov as [-> | ->]; tauto |].
  split; [exact Hset |].
  intros l Hl.
  assert (Hin : In l [lrw; ll]).
  { cbn [In] in *. destruct Hl as [<- | Hl]; [| exact Hl].
    destruct Hov as [-> | ->]; tauto. }
  assert (Hkey : In l (Object_keys LEVEL_CUTOFFS))
    by (cbn [In] in Hin; destruct Hin as [<- | [<- | []]]; assumption).
  destruct (description_key l Hkey) as [sentence Hsentence].
  exists sentence. split; [exact Hsentence |].
  rewrite (property_map_key (property LEVEL_DESCRIPTIONS)) by (apply Hset, Hin).
  rewrite Hsentence. reflexivity.
Qed.

(** X6. The palette of the results view for the overall level and for each
    skill level of a report is never the gray default, and two different
    levels of the scale never share a palette. *)
Theorem level_colors_of_report (answers : gmap Z (list N)) :
  (exists report,
      calculateSEMFLevel toUpperCase toLowerCase answers = Normal report
      /\ forall l, In l (overallLevel report :: List.map level (skills report)) ->
                   ResultsView.getSEMFLevelColor l
                   <> ResultsView.palette "bg-gray-500" "text-gray-600"
                        "bg-gray-50" "border-gray-300")
  /\ (forall l1 l2,
         In l1 (Object_keys LEVEL_CUTOFFS) -> In l2 (Object_keys LEVEL_CUTOFFS) ->
         ResultsView.getSEMFLevelColor l1 = ResultsView.getSEMFLevelColor l2 -> l1 = l2).
Proof.
  split.
  - destruct (calculateSEMFLevel_report toUpperCase toLowerCase answers)
      as (raw & lrw & ll & _ & _ & _ & Hkrw & Hkl & Hreport).
    eexists. split; [exact Hreport |].
    cbn [overallLevel skills List.map level In].
    intros l Hl.
    assert (Hkey : In l (Object_keys LEVEL_CUTOFFS)).
    { destruct Hl as [<- | [<- | [<- | []]]]; try assumption.
      destruct (bandPosition lrw <=? bandPosition ll)%Z; assumption. }
    clear Hl. each_level Hkey; vm_compute; discriminate.
  - intros l1 l2 H1 H2. each_level H1; each_level H2;
      first [reflexivity | vm_compute; discriminate].
Qed.


End ReportFurther.

(** ** Level mapping and tie-break *)

(** The level of a score by the band that contains it. *)
Lemma mapToLevel_cases (n : Q) :
  bandsContaining n <> [] ->
  (0 <= n <= 15 /\ mapToLevel n = JS.str "S1")%Q
  \/ (16 <= n <= 25 /\ mapToLevel n = JS.str "S2")%Q
  \/ (26 <= n <= 33 /\ mapToLevel n = JS.str "S3")%Q
  \/ (34 <= n <= 42 /\ mapToLevel n = JS.str "S4")%Q
  \/ (43 <= n <= 50 /\ mapToLevel n = JS.str "S5")%Q.
Proof.
  unfold bandsContaining.
  split_bands n; intros Hband; try (exfalso; apply Hband; reflexivity);
    first [ left; split; [lra | reflexivity]
          | right; left; split; [lra | reflexivity]
          | right; right; left; split; [lra | reflexivity]
          | right; right; right; left; split; [lra | reflexivity]
          | right; right; right; right; split; [lra | reflexivity] ].
Qed.

(** X8. A score below 0 or above 50 lies in no band and is mapped to S1 by the
    fallback of [mapToLevel]. *)
Theorem mapToLevel_outside_scale (n : Q) :
  (n < 0 \/ 50 < n)%Q ->
  bandsContaining n = [] /\ mapToLevel n = JS.str "S1".
Proof.
  intros Hn. unfold bandsContaining.
  split_bands n; first [split; reflexivity | exfalso; lra].
Qed.

(** X9. On the scores that lie in a band the level mapping is monotone: a
    higher score never gets a lower band. *)
Theorem mapToLevel_monotone_in_bands (a b : Q) :
  bandsContaining a <> [] -> bandsContaining b <> [] -> (a <= b)%Q ->
  (bandPosition (mapToLevel a) <= bandPosition (mapToLevel b))%Z.
Proof.
  intros Ha Hb Hab.
  destruct (mapToLevel_cases a Ha) as [[Ra ->] | [[Ra ->] | [[Ra ->] | [[Ra ->] | [Ra ->]]]]];
    destruct (mapToLevel_cases b Hb)
      as [[Rb ->] | [[Rb ->] | [[Rb ->] | [[Rb ->] | [Rb ->]]]]];
    first [ vm_compute; discriminate | exfalso; lra ].
Qed.

(** X10. The tie-break fires exactly when the GrammarVocabulary score is at
    least 35 and the skill score lies less than 2 below the lower limit of
    a band, or the GrammarVocabulary score is below 35 and the skill score
    lies at most 2 above the upper limit of S2, S3, S4 or S5; a score just
    above the upper limit of S1 is never adjusted. *)
Theorem tieBreak_fires_in_windows (s g : Q) :
  tbApplied (applyTieBreaker s g) = true <->
  ((35 <= g)%Q
   /\ (-2 <= s < 0 \/ 14 <= s < 16 \/ 24 <= s < 26 \/ 32 <= s < 34 \/ 41 <= s < 43)%Q)
  \/ ((g < 35)%Q
      /\ (25 < s <= 27 \/ 33 < s <= 35 \/ 42 < s <= 44 \/ 50 < s <= 52)%Q).
Proof.
  scan_table s g; cbn [tbApplied];
    (split; [intros Happlied; first [discriminate Happlied | lra]
            | intros Hwin; first [reflexivity | exfalso; lra]]).
Qed.

(** The tie-break looks at the GrammarVocabulary score only through the
    test against 35. *)
Lemma tieBreakerScan_threshold (entries : list (list N * Range.t)) (s g g' : Q) :
  Qle_bool 35 g = Qle_bool 35 g' ->
  tieBreakerScan entries s g = tieBreakerScan entries s g'.
Proof.
  intros Hg. induction entries as [| [level range] rest IH]; [reflexivity |].
  cbn [tieBreakerScan]. rewrite IH.
  replace (tieBreakerStep level range s g') with (tieBreakerStep level range s g);
    [reflexivity |].
  unfold tieBreakerStep, JS.Qlt_bool. rewrite Hg. reflexivity.
Qed.

Lemma applyTieBreaker_threshold (s g g' : Q) :
  Qle_bool 35 g = Qle_bool 35 g' -> applyTieBreaker s g = applyTieBreaker s g'.
Proof.
  intros Hg. unfold applyTieBreaker.
  rewrite (tieBreakerScan_threshold LEVEL_CUTOFFS s g g' Hg). reflexivity.
Qed.

Lemma grammar_threshold (rawScores : SEMFInput) :
  Qle_bool 35 (grammarVocabNorm rawScores) = (14 <=? GrammarVocabulary rawScores)%Z.
Proof.
  apply eq_true_iff_eq. rewrite Qle_bool_iff, Z.leb_le, grammarVocabNorm_linear.
  rewrite Zle_Qle. change (inject_Z 14) with 14%Q.
  generalize (inject_Z (GrammarVocabulary rawScores)). intros q. split; intros; lra.
Qed.

(** The tie-break flag of each raw score, with a GrammarVocabulary score of
    at least 35 and below 35. *)
Lemma readingWriting_flags :
  forallb
    (fun r =>
       Bool.eqb
         (tbApplied (applyTieBreaker
                       (readingWritingNorm
                          {| GrammarVocabulary := 0; ReadingWriting := r; Listening := 0 |})
                       35))
         (bool_decide (r ∈ [7; 12; 16; 20]%Z))
       && Bool.eqb
            (tbApplied (applyTieBreaker
                          (readingWritingNorm
                             {| GrammarVocabulary := 0; ReadingWriting := r; Listening := 0 |})
                          0))
            (bool_decide (r ∈ [16; 21]%Z)))
    (seqZ 0 25) = true.
Proof. vm_compute. reflexivity. Qed.

Lemma listening_flags :
  forallb
    (fun r =>
       Bool.eqb
         (tbApplied (applyTieBreaker
                       (listeningNorm
                          {| GrammarVocabulary := 0; ReadingWriting := 0; Listening := r |})
                       35))
         (bool_decide (r ∈ [6; 8; 10]%Z))
       && Bool.eqb
            (tbApplied (applyTieBreaker
                          (listeningNorm
                             {| GrammarVocabulary := 0; ReadingWriting := 0; Listening := r |})
                          0))
            (bool_decide (r ∈ [8]%Z)))
    (seqZ 0 13) = true.
Proof. vm_compute. reflexivity. Qed.

Lemma applyTieBreaker_by_flag (s : Q) (rawScores : SEMFInput) :
  applyTieBreaker s (grammarVocabNorm rawScores)
  = applyTieBreaker s (if (14 <=? GrammarVocabulary rawScores)%Z then 35 else 0).
Proof.
  apply applyTieBreaker_threshold. rewrite grammar_threshold.
  destruct (14 <=? GrammarVocabulary rawScores)%Z; reflexivity.
Qed.

Section TieBreakFurther.

Variables toUpperCase toLowerCase : list N -> list N.

(** X11. Two answer sets with the same ReadingWriting and Listening raw scores,
    both with at least 14 or both with fewer than 14 GrammarVocabulary
    points, get the same skill levels, tie-break flags, overall level and
    descriptions. *)
Theorem grammar_matters_through_threshold
    (answers1 answers2 : gmap Z (list N)) (raw1 raw2 : SEMFInput) :
  calculateActualScores toUpperCase toLowerCase answers1 = Normal raw1 ->
  calculateActualScores toUpperCase toLowerCase answers2 = Normal raw2 ->
  ReadingWriting raw1 = ReadingWriting raw2 ->
  Listening raw1 = Listening raw2 ->
  ((14 <= GrammarVocabulary raw1)%Z <-> (14 <= GrammarVocabulary raw2)%Z) ->
  exists report1 report2,
    calculateSEMFLevel toUpperCase toLowerCase answers1 = Normal report1
    /\ calculateSEMFLevel toUpperCase toLowerCase answers2 = Normal report2
    /\ List.map (fun r => (skill r, rawScore r, level r, tieBreakerApplied r))
         (skills report1)
       = List.map (fun r => (skill r, rawScore r, level r, tieBreakerApplied r))
           (skills report2)
    /\ overallLevel report1 = overallLevel report2
    /\ descriptions report1 = descriptions report2.
Proof.
  intros H1 H2 Hrw Hl Hg.
  destruct (calculateSEMFLevel_report toUpperCase toLowerCase answers1)
    as (r1 & lrw1 & ll1 & Hraw1 & Hlrw1 & Hll1 & _ & _ & Hreport1).
  destruct (calculateSEMFLevel_report toUpperCase toLowerCase answers2)
    as (r2 & lrw2 & ll2 & Hraw2 & Hlrw2 & Hll2 & _ & _ & Hreport2).
  rewrite H1 in Hraw1. rewrite H2 in Hraw2.
  apply Normal_inj in Hraw1, Hraw2. subst r1 r2.
  assert (Hflag : (14 <=? GrammarVocabulary raw1)%Z = (14 <=? GrammarVocabulary raw2)%Z).
  { apply eq_true_iff_eq. rewrite !Z.leb_le. exact Hg. }
  assert (Hnrw : readingWritingNorm raw1 = readingWritingNorm raw2)
    by (unfold readingWritingNorm; rewrite Hrw; reflexivity).
  assert (Hnl : listeningNorm raw1 = listeningNorm raw2)
    by (unfold listeningNorm; rewrite Hl; reflexivity).
  rewrite applyTieBreaker_by_flag in Hlrw1, Hll1, Hreport1.
  rewrite (applyTieBreaker_by_flag (listeningNorm raw1)) in Hreport1.
  rewrite applyTieBreaker_by_flag in Hlrw2, Hll2, Hreport2.
  rewrite (applyTieBreaker_by_flag (listeningNorm raw2)) in Hreport2.
  rewrite Hflag, Hnrw in Hlrw1. rewrite Hflag, Hnl in Hll1.
  rewrite Hlrw2 in Hlrw1. rewrite Hll2 in Hll1.
  apply (inj Some) in Hlrw1, Hll1. subst lrw1 ll1.
  eexists _, _. split; [exact Hreport1 |]. split; [exact Hreport2 |].
  cbn [skills overallLevel descriptions List.map skill rawScore level tieBreakerApplied].
  rewrite Hflag, Hnrw, Hnl, Hrw, Hl. repeat split.
Qed.

(** X12. In a report the tie-break flag of ReadingWriting is set exactly for the
    raw scores 7, 12, 16 and 20 with at least 14 GrammarVocabulary points
    and for 16 and 21 with fewer; that of Listening exactly for 6, 8 and 10
    with at least 14 GrammarVocabulary points and for 8 with fewer. *)
Theorem tieBreak_flags_by_raw_score (answers : gmap Z (list N)) :
  exists report rawScores rw lst,
    calculateSEMFLevel toUpperCase toLowerCase answers = Normal report
    /\ calculateActualScores toUpperCase toLowerCase answers = Normal rawScores
    /\ skills report = [rw; lst]
    /\ rawScore rw = ReadingWriting rawScores
    /\ rawScore lst = Listening rawScores
    /\ (tieBreakerApplied rw = true <->
        ((14 <= GrammarVocabulary rawScores)%Z
         /\ In (ReadingWriting rawScores) [7; 12; 16; 20]%Z)
        \/ ((GrammarVocabulary rawScores < 14)%Z
            /\ In (ReadingWriting rawScores) [16; 21]%Z))
    /\ (tieBreakerApplied lst = true <->
        ((14 <= GrammarVocabulary rawScores)%Z
         /\ In (Listening rawScores) [6; 8; 10]%Z)
        \/ ((GrammarVocabulary rawScores < 14)%Z /\ Listening rawScores = 8%Z)).
Proof.
  destruct (calculateSEMFLevel_report toUpperCase toLowerCase answers)
    as (raw & lrw & ll & Hraw & _ & _ & _ & _ & Hreport).
  destruct (calculateActualScores_bounds toUpperCase toLowerCase answers raw Hraw)
    as (_ & Hr & Hl).
  eexists _, raw, _, _. split; [exact Hreport |]. split; [exact Hraw |].
  cbn [skills rawScore tieBreakerApplied].
  do 3 (split; [reflexivity |]).
  cbn [tieBreakerApplied]. rewrite !applyTieBreaker_by_flag.
  pose proof readingWriting_flags as Frw. pose proof listening_flags as Fl.
  rewrite forallb_forall in Frw, Fl.
  specialize (Frw (ReadingWriting raw) ltac:(apply In_seqZ; lia)).
  specialize (Fl (Listening raw) ltac:(apply In_seqZ; lia)).
  apply andb_true_iff in Frw, Fl.
  destruct Frw as [Frw1 Frw0], Fl as [Fl1 Fl0].
  apply Bool.eqb_prop in Frw1, Frw0, Fl1, Fl0.
  change (readingWritingNorm
            {| GrammarVocabulary := 0; ReadingWriting := ReadingWriting raw;
               Listening := 0 |})
    with (readingWritingNorm raw) in Frw1, Frw0.
  change (listeningNorm
            {| GrammarVocabulary := 0; ReadingWriting := 0;
               Listening := Listening raw |})
    with (listeningNorm raw) in Fl1, Fl0.
  split.
  - destruct (Z.leb_spec 14 (GrammarVocabulary raw)) as [Hg | Hg].
    + rewrite Frw1, bool_decide_eq_true, list_elem_of_In. split; [tauto |].
      intros [[_ H] | [H _]]; [exact H | lia].
    + rewrite Frw0, bool_decide_eq_true, list_elem_of_In. split; [tauto |].
      intros [[H _] | [_ H]]; [lia | exact H].
  - destruct (Z.leb_spec 14 (GrammarVocabulary raw)) as [Hg | Hg].
    + rewrite Fl1, bool_decide_eq_true, list_elem_of_In. split; [tauto |].
      intros [[_ H] | [H _]]; [exact H | lia].
    + rewrite Fl0, bool_decide_eq_true, list_elem_of_In. cbn [In]. split.
      * intros [H | []]. right. split; [exact Hg | congruence].
      * intros [[H _] | [_ H]]; [lia | left; congruence].
Qed.

End TieBreakFurther.

(** ** Essay and text answers *)

(** Twice the number of pieces of a split at white space is bounded by the
    length of the string. *)
Lemma splitWhitespaceFrom_count (inSep : bool) (acc s : list N) :
  (2 * length (JS.splitWhitespaceFrom inSep acc s)
   <= length s + (if inSep then 1 else 2)
      + (if endsWithWhitespace inSep s then 1 else 0))%nat.
Proof.
  revert inSep acc. induction s as [| c s' IH]; intros inSep acc.
  - destruct inSep; cbn; lia.
  - cbn [JS.splitWhitespaceFrom endsWithWhitespace length].
    destruct (JS.isWhiteSpace c) eqn:Hc.
    + destruct inSep.
      * specialize (IH true acc). destruct (endsWithWhitespace true s'); lia.
      * cbn [length]. specialize (IH true []).
        destruct (endsWithWhitespace true s'); lia.
    + specialize (IH false (c :: acc)).
      destruct inSep, (endsWithWhitespace false s'); lia.
Qed.

(** The pieces of a trimmed, non-empty string: [n] pieces need at least
    [2n - 1] code units. *)
Lemma splitWhitespace_trimmed (a : list N) :
  JS.trim a <> [] ->
  (2 * length (JS.splitWhitespace (JS.trim a)) <= length (JS.trim a) + 1)%nat.
Proof.
  destruct (JS.trim a) as [| c r] eqn:Htrim; [contradiction |]. intros _.
  destruct (trim_ends a r c Htrim) as [Hc Hend].
  unfold JS.splitWhitespace. cbn [JS.splitWhitespaceFrom]. rewrite Hc.
  pose proof (splitWhitespaceFrom_count false [c] r) as Hcount.
  cbn [endsWithWhitespace] in Hend. rewrite Hc in Hend. rewrite Hend in Hcount.
  cbn [length]. lia.
Qed.

Lemma orEmpty_Some (s : list N) : JS.orEmpty (Some s) = s.
Proof. destruct s; reflexivity. Qed.

Section EssayFurther.

Variable toLowerCase : list N -> list N.

(** X13. The essay point needs an answer whose trimmed text has at least 159
    code units (80 words and the white space between them). *)
Theorem essay_point_needs_159_code_units (answers : gmap Z (list N)) :
  essayPoint toLowerCase answers = true ->
  exists a, answers !! 44%Z = Some a /\ (159 <= length (JS.trim a))%nat.
Proof.
  unfold essayPoint, wordCount, essayAnswer.
  destruct (answers !! 44%Z) as [a |] eqn:Ha;
    cbn [fmap option_fmap option_map]; [| discriminate].
  rewrite orEmpty_Some. intros H. exists a. split; [reflexivity |].
  destruct (JS.trim a) as [| c r] eqn:Htrim; [discriminate H |].
  rewrite <- Htrim in *.
  destruct (80 <=? length (JS.splitWhitespace (JS.trim a)))%nat eqn:H80;
    [| discriminate H].
  apply Nat.leb_le in H80.
  pose proof (splitWhitespace_trimmed a) as Hcount.
  rewrite Htrim in Hcount at 1. specialize (Hcount ltac:(discriminate)). lia.
Qed.

End EssayFurther.

Lemma startsWith_app (s y kw : list N) :
  JS.startsWith s kw = true -> JS.startsWith (s ++ y) kw = true.
Proof.
  revert s. induction kw as [| p kw' IH]; intros s; [intros _; destruct (s ++ y); reflexivity |].
  destruct s as [| c s']; cbn [JS.startsWith app]; [discriminate |].
  intros H. apply andb_true_iff in H. destruct H as [-> H]. exact (IH s' H).
Qed.

Lemma includes_app_r (s y kw : list N) :
  JS.includes s kw = true -> JS.includes (s ++ y) kw = true.
Proof.
  induction s as [| c s' IH].
  - cbn [JS.includes app]. rewrite orb_false_r. intros H.
    destruct kw; [| discriminate H]. destruct y; reflexivity.
  - change ((c :: s') ++ y) with (c :: (s' ++ y)). cbn [JS.includes].
    intros H. apply orb_true_iff in H. apply orb_true_iff.
    destruct H as [H | H]; [left | right; exact (IH H)].
    exact (startsWith_app (c :: s') y kw H).
Qed.

Lemma includes_app_l (x s kw : list N) :
  JS.includes s kw = true -> JS.includes (x ++ s) kw = true.
Proof.
  intros H. induction x as [| c x' IH]; [exact H |].
  cbn [app JS.includes]. rewrite IH. apply orb_true_r.
Qed.

Lemma filter_length_le {A} (p q : A -> bool) (l : list A) :
  (forall x, p x = true -> q x = true) ->
  (length (List.filter p l) <= length (List.filter q l))%nat.
Proof.
  intros Hpq. induction l as [| x rest IH]; [reflexivity |].
  cbn [List.filter]. destruct (p x) eqn:Hp.
  - rewrite (Hpq x Hp). cbn [length]. lia.
  - destruct (q x); cbn [length]; lia.
Qed.

Section TextFurther.

Variable toLowerCase : list N -> list N.

(** X14. A text answer to question 41, 42 or 43 that earns its point still
    earns it with text added before and after it, whenever the lower-cased
    longer text contains the lower-cased answer as a block (as it does
    unless the added text changes how a code unit of the answer is
    lower-cased): the keyword test is a substring test and the length test
    a lower bound. *)
Theorem text_point_survives_padding
    (answers : gmap Z (list N)) (i : Z) (a before after lowerBefore lowerAfter : list N) :
  (41 <= i <= 43)%Z ->
  toLowerCase (before ++ a ++ after) = lowerBefore ++ toLowerCase a ++ lowerAfter ->
  textHit toLowerCase (<[i := a]> answers) i = true ->
  textHit toLowerCase (<[i := before ++ a ++ after]> answers) i = true.
Proof.
  intros Hi Hblock. unfold textHit, textPoint. rewrite !lookup_insert_eq.
  cbn [fmap option_fmap option_map]. rewrite !orEmpty_Some.
  destruct (TEXT_ANSWER_KEYWORDS i) as [keywords |]; [| discriminate].
  rewrite Hblock.
  intros H. apply andb_true_iff in H. destruct H as [Hkw Hlen].
  apply Nat.leb_le in Hkw, Hlen. apply andb_true_iff. split; apply Nat.leb_le.
  - etransitivity; [exact Hkw |]. apply filter_length_le.
    intros kw Hin. apply includes_app_l, includes_app_r, Hin.
  - rewrite !length_app. lia.
Qed.

End TextFurther.


(** ** The simulated scores of the earlier results view *)

Lemma filter_sublist {A} (p : A -> bool) (l : list A) : sublist (List.filter p l) l.
Proof.
  induction l as [| x rest IH]; [constructor |].
  cbn [List.filter]. destruct (p x); [apply sublist_skip | apply sublist_cons]; exact IH.
Qed.

Lemma filter_length_map {A B} (p : B -> bool) (g : A -> B) (l : list A) :
  length (List.filter p (g <$> l)) = length (List.filter (fun x => p (g x)) l).
Proof.
  induction l as [| x rest IH]; [reflexivity |].
  cbn [fmap list_fmap List.filter]. destruct (p (g x)); cbn [length]; [f_equal |]; exact IH.
Qed.

Lemma floor_fraction_bounds (count top : Z) (q : Q) :
  (0 <= count <= top)%Z -> (0 <= q)%Q ->
  (0 <= Qfloor (inject_Z count * q) <= Qfloor (inject_Z top * q))%Z.
Proof.
  intros [H0 Htop] Hq.
  assert (Hc : (0 <= inject_Z count)%Q)
    by (change 0%Q with (inject_Z 0); rewrite <- Zle_Qle; exact H0).
  assert (Ht : (inject_Z count <= inject_Z top)%Q) by (rewrite <- Zle_Qle; exact Htop).
  split.
  - change 0%Z with (Qfloor 0). apply Qfloor_resp_le. apply Qmult_le_0_compat; assumption.
  - apply Qfloor_resp_le. apply Qmult_le_compat_r; assumption.
Qed.

Lemma entriesBetween_fmap (lo hi : Z) (f : list N -> list N)
    (answers : gmap (list N) (list N)) :
  length (ResultsView.entriesBetween lo hi (f <$> answers))
  = length (ResultsView.entriesBetween lo hi answers).
Proof.
  unfold ResultsView.entriesBetween.
  rewrite map_to_list_fmap.
  exact (filter_length_map _ (prod_map id f) (map_to_list answers)).
Qed.

(** When the names that parse are decimal numerals, a range of
    identifiers holds at most as many entries as it has identifiers. *)
Lemma entriesBetween_length (lo hi : Z) (answers : gmap (list N) (list N)) :
  (forall name k, is_Some (answers !! name) -> JS.parseInt name = Some k ->
                  name = JS.showZ k) ->
  (Z.of_nat (length (ResultsView.entriesBetween lo hi answers)) <= Z.max 0 (hi - lo + 1))%Z.
Proof.
  intros Hnames. unfold ResultsView.entriesBetween.
  set (inside := fun entry : list N * list N =>
                   match JS.parseInt (fst entry) with
                   | Some n => (lo <=? n)%Z && (n <=? hi)%Z
                   | None => false
                   end).
  set (number := fun name : list N => default 0%Z (JS.parseInt name)).
  assert (Hin : forall name,
             name ∈ (List.filter inside (map_to_list answers)).*1 ->
             exists k, JS.parseInt name = Some k /\ (lo <= k <= hi)%Z
                       /\ name = JS.showZ k).
  { intros name Hname. apply list_elem_of_fmap in Hname.
    destruct Hname as ([name' a] & -> & Hentry).
    apply list_elem_of_In, filter_In in Hentry. destruct Hentry as [Hentry Htest].
    apply list_elem_of_In, elem_of_map_to_list in Hentry.
    unfold inside in Htest. cbn [fst] in *.
    destruct (JS.parseInt name') as [k |] eqn:Hk; [| discriminate].
    apply andb_true_iff in Htest. destruct Htest as [H1 H2]. apply Z.leb_le in H1, H2.
    exists k. split; [reflexivity |]. split; [lia |].
    apply Hnames; [eexists; exact Hentry | exact Hk]. }
  assert (Hsub : number <$> (List.filter inside (map_to_list answers)).*1
                 ⊆+ seqZ lo (hi - lo + 1)).
  { apply NoDup_submseteq.
    - apply NoDup_fmap_2_strong.
      + intros x y Hx Hy Heq.
        destruct (Hin x Hx) as (kx & Hkx & _ & ->).
        destruct (Hin y Hy) as (ky & Hky & _ & ->).
        unfold number in Heq. rewrite Hkx, Hky in Heq. cbn in Heq. congruence.
      + apply (sublist_NoDup _ (map_to_list answers).*1);
          first [apply NoDup_fst_map_to_list | apply fmap_sublist, filter_sublist].
    - intros n Hn. apply list_elem_of_fmap in Hn. destruct Hn as (name & -> & Hname).
      destruct (Hin name Hname) as (k & Hk & Hrange & _).
      unfold number. rewrite Hk. cbn. apply elem_of_seqZ. lia. }
  apply submseteq_length in Hsub. rewrite !length_fmap, length_seqZ in Hsub. lia.
Qed.

Lemma floor_fraction_nonneg (count : nat) (q : Q) :
  (0 <= q)%Q -> (0 <= Qfloor (inject_Z (Z.of_nat count) * q))%Z.
Proof.
  intros Hq. change 0%Z with (Qfloor 0). apply Qfloor_resp_le.
  apply Qmult_le_0_compat; [| exact Hq].
  change 0%Q with (inject_Z 0). rewrite <- Zle_Qle. lia.
Qed.

(** X15. The simulated scores of the earlier results view do not depend on
    what the answers say, only on which property names are answered, and
    lie between 0 and the caps 20, 24 and 12. When every name that parses
    as an integer is the decimal numeral of that integer they stay at or
    below 16, 18 and 9, so the caps do not apply; names in exponent form
    such as 1e+21 parse as their first digit, and with them the grammar
    score reaches the cap. *)
Theorem simulated_scores_ignore_answers (answers : gmap (list N) (list N)) :
  (forall f : list N -> list N,
      ResultsView.calculateRawScores (f <$> answers)
      = ResultsView.calculateRawScores answers)
  /\ (0 <= GrammarVocabulary (ResultsView.calculateRawScores answers) <= 20)%Z
  /\ (0 <= ReadingWriting (ResultsView.calculateRawScores answers) <= 24)%Z
  /\ (0 <= Listening (ResultsView.calculateRawScores answers) <= 12)%Z
  /\ ((forall name k, is_Some (answers !! name) -> JS.parseInt name = Some k ->
                      name = JS.showZ k) ->
      (GrammarVocabulary (ResultsView.calculateRawScores answers) <= 16)%Z
      /\ (ReadingWriting (ResultsView.calculateRawScores answers) <= 18)%Z
      /\ (Listening (ResultsView.calculateRawScores answers) <= 9)%Z)
  /\ ResultsView.calculateRawScores (answersNamed namesOneToTwenty)
     = {| GrammarVocabulary := 16; ReadingWriting := 0; Listening := 0 |}
  /\ ResultsView.calculateRawScores (answersNamed (namesOneToTwenty ++ namesExponent))
     = {| GrammarVocabulary := 20; ReadingWriting := 0; Listening := 0 |}.
Proof.
  split; [| split; [| split; [| split; [| split; [| split]]]]].
  - intros f. unfold ResultsView.calculateRawScores.
    rewrite !entriesBetween_fmap. reflexivity.
  - unfold ResultsView.calculateRawScores. cbn [GrammarVocabulary].
    pose proof (floor_fraction_nonneg
                  (length (ResultsView.entriesBetween 1 20 answers)) 0.8
                  ltac:(discriminate)).
    lia.
  - unfold ResultsView.calculateRawScores. cbn [ReadingWriting].
    pose proof (floor_fraction_nonneg
                  (length (ResultsView.entriesBetween 21 44 answers)) 0.75
                  ltac:(discriminate)).
    lia.
  - unfold ResultsView.calculateRawScores. cbn [Listening].
    pose proof (floor_fraction_nonneg
                  (length (ResultsView.entriesBetween 45 56 answers)) 0.8
                  ltac:(discriminate)).
    lia.
  - intros Hnames. unfold ResultsView.calculateRawScores.
    cbn [GrammarVocabulary ReadingWriting Listening].
    pose proof (entriesBetween_length 1 20 answers Hnames) as Hg.
    pose proof (entriesBetween_length 21 44 answers Hnames) as Hr.
    pose proof (entriesBetween_length 45 56 answers Hnames) as Hl.
    pose proof (floor_fraction_bounds
                  (Z.of_nat (length (ResultsView.entriesBetween 1 20 answers))) 20 0.8
                  ltac:(lia) ltac:(discriminate)) as Fg.
    pose proof (floor_fraction_bounds
                  (Z.of_nat (length (ResultsView.entriesBetween 21 44 answers))) 24 0.75
                  ltac:(lia) ltac:(discriminate)) as Fr.
    pose proof (floor_fraction_bounds
                  (Z.of_nat (length (ResultsView.entriesBetween 45 56 answers))) 12 0.8
                  ltac:(lia) ltac:(discriminate)) as Fl.
    change (Qfloor (inject_Z 20 * 0.8)) with 16%Z in Fg.
    change (Qfloor (inject_Z 24 * 0.75)) with 18%Z in Fr.
    change (Qfloor (inject_Z 12 * 0.8)) with 9%Z in Fl.
    repeat split; lia.
  - vm_compute. reflexivity.
  - vm_compute. reflexivity.
Qed.

(** For every count up to the point where the cap applies, the
    double-precision products [count * 0.8] and [count * 0.75] floor to the
    same integers as the exact ones. *)
Lemma binary64_floors_agree :
  forallb (fun n => floorsTo n 4 5 (Qfloor (inject_Z n * 0.8))) (seqZ 0 27) = true
  /\ forallb (fun n => floorsTo n 3 4 (Qfloor (inject_Z n * 0.75))) (seqZ 0 34) = true.
Proof. split; vm_compute; reflexivity. Qed.


(** * Properties of the sentence-ordering widget *)

Lemma swap_Permutation {A} (l : list A) (i : nat) (a b : A) :
  l !! i = Some a -> l !! S i = Some b ->
  <[S i := a]> (<[i := b]> l) ≡ₚ l.
Proof.
  revert i. induction l as [| x rest IH]; intros i; [discriminate |].
  destruct i as [| i'].
  - destruct rest as [| y rest']; [discriminate |].
    cbn. intros [= ->] [= ->]. apply perm_swap.
  - cbn. intros Ha Hb. apply perm_skip. exact (IH i' Ha Hb).
Qed.

Lemma swap_back {A} (l : list A) (i t : nat) (a b : A) :
  i <> t -> l !! i = Some a -> l !! t = Some b ->
  <[i := a]> (<[t := b]> (<[t := a]> (<[i := b]> l))) = l.
Proof.
  intros Hne Ha Hb.
  rewrite list_insert_insert_eq.
  rewrite (list_insert_insert_ne _ t i) by congruence.
  rewrite list_insert_insert_eq.
  rewrite (list_insert_id l t b Hb). apply list_insert_id, Ha.
Qed.

Lemma at_index_nat {A} (l : list A) (i : nat) : JS.at_index l (Z.of_nat i) = l !! i.
Proof.
  unfold JS.at_index. rewrite (proj2 (Z.ltb_ge _ _)) by lia. rewrite Nat2Z.id. reflexivity.
Qed.

Lemma State_eta (st : SentenceOrdering.State) :
  {| SentenceOrdering.orderedSentences := SentenceOrdering.orderedSentences st;
     SentenceOrdering.draggedItem := SentenceOrdering.draggedItem st;
     SentenceOrdering.touchStartY := SentenceOrdering.touchStartY st;
     SentenceOrdering.isDragging := SentenceOrdering.isDragging st |} = st.
Proof. destruct st; reflexivity. Qed.

(** [moveSentence] between two positions of the array. *)
Lemma moveSentence_in_range (st : SentenceOrdering.State) (index target : nat)
    (direction : SentenceOrdering.Direction) (a b : SentenceOrdering.Sentence) :
  Z.of_nat target
  = match direction with
    | SentenceOrdering.up => (Z.of_nat index - 1)%Z
    | SentenceOrdering.down => (Z.of_nat index + 1)%Z
    end ->
  SentenceOrdering.orderedSentences st !! index = Some a ->
  SentenceOrdering.orderedSentences st !! target = Some b ->
  SentenceOrdering.moveSentence st (Z.of_nat index) direction
  = Normal
      ({| SentenceOrdering.orderedSentences :=
            <[target := a]> (<[index := b]> (SentenceOrdering.orderedSentences st));
          SentenceOrdering.draggedItem := SentenceOrdering.draggedItem st;
          SentenceOrdering.touchStartY := SentenceOrdering.touchStartY st;
          SentenceOrdering.isDragging := SentenceOrdering.isDragging st |},
       Some (SentenceOrdering.answerString
               (<[target := a]> (<[index := b]> (SentenceOrdering.orderedSentences st))))).
Proof.
  intros Ht Ha Hb. unfold SentenceOrdering.moveSentence.
  rewrite <- Ht. apply lookup_lt_Some in Hb as Hlt.
  rewrite (proj2 (Z.geb_le _ _)) by lia.
  rewrite (proj2 (Z.ltb_lt _ _)) by lia. cbn [andb].
  rewrite !at_index_nat, Ha, Hb, !Nat2Z.id. reflexivity.
Qed.

(** X16. Moving a sentence up or down, when it has a neighbour on that side,
    exchanges the two and nothing else: the new order is a permutation of
    the old one, every other position keeps its sentence, the drag state is
    untouched and the answer reported is the new order's letters. *)
Theorem moveSentence_swaps_neighbours (st : SentenceOrdering.State) (index target : nat)
    (direction : SentenceOrdering.Direction) :
  Z.of_nat target
  = match direction with
    | SentenceOrdering.up => (Z.of_nat index - 1)%Z
    | SentenceOrdering.down => (Z.of_nat index + 1)%Z
    end ->
  (index < length (SentenceOrdering.orderedSentences st))%nat ->
  (target < length (SentenceOrdering.orderedSentences st))%nat ->
  exists st' a b,
    SentenceOrdering.moveSentence st (Z.of_nat index) direction
    = Normal (st', Some (SentenceOrdering.answerString
                           (SentenceOrdering.orderedSentences st')))
    /\ SentenceOrdering.orderedSentences st !! index = Some a
    /\ SentenceOrdering.orderedSentences st !! target = Some b
    /\ SentenceOrdering.orderedSentences st' !! index = Some b
    /\ SentenceOrdering.orderedSentences st' !! target = Some a
    /\ (forall j, j <> index -> j <> target ->
                  SentenceOrdering.orderedSentences st' !! j
                  = SentenceOrdering.orderedSentences st !! j)
    /\ SentenceOrdering.orderedSentences st' ≡ₚ SentenceOrdering.orderedSentences st
    /\ SentenceOrdering.draggedItem st' = SentenceOrdering.draggedItem st
    /\ SentenceOrdering.touchStartY st' = SentenceOrdering.touchStartY st
    /\ SentenceOrdering.isDragging st' = SentenceOrdering.isDragging st.
Proof.
  intros Ht Hi Htarget.
  destruct (lookup_lt_is_Some_2 _ _ Hi) as [a Ha].
  destruct (lookup_lt_is_Some_2 _ _ Htarget) as [b Hb].
  assert (Hne : index <> target) by (destruct direction; lia).
  eexists _, a, b.
  split; [exact (moveSentence_in_range st index target direction a b Ht Ha Hb) |].
  cbn [SentenceOrdering.orderedSentences SentenceOrdering.draggedItem
       SentenceOrdering.touchStartY SentenceOrdering.isDragging].
  split; [exact Ha |]. split; [exact Hb |].
  split.
  { rewrite list_lookup_insert_ne by congruence.
    apply list_lookup_insert_eq. exact Hi. }
  split.
  { apply list_lookup_insert_eq. rewrite length_insert. exact Htarget. }
  split.
  { intros j Hj1 Hj2. rewrite !list_lookup_insert_ne by congruence. reflexivity. }
  split; [| repeat split].
  destruct direction.
  - assert (Hidx : index = S target) by lia. subst index.
    rewrite list_insert_insert_ne by lia. apply swap_Permutation; assumption.
  - assert (Htg : target = S index) by lia. subst target.
    apply swap_Permutation; assumption.
Qed.

(** X17. Moving the first sentence up or the last one down does nothing and
    reports no answer; so does any move whose target lies outside the
    array. A move from the position before the first sentence or after the
    last one into the array ends in a [TypeError]. *)
Theorem moveSentence_at_the_ends (st : SentenceOrdering.State) (index : Z) :
  ((index <= 0)%Z ->
   SentenceOrdering.moveSentence st index SentenceOrdering.up = Normal (st, None))
  /\ ((Z.of_nat (length (SentenceOrdering.orderedSentences st)) - 1 <= index)%Z ->
      SentenceOrdering.moveSentence st index SentenceOrdering.down = Normal (st, None))
  /\ (SentenceOrdering.orderedSentences st <> [] ->
      SentenceOrdering.moveSentence st (-1) SentenceOrdering.down = TypeError
      /\ SentenceOrdering.moveSentence st
           (Z.of_nat (length (SentenceOrdering.orderedSentences st)))
           SentenceOrdering.up = TypeError).
Proof.
  unfold SentenceOrdering.moveSentence. split; [| split].
  - intros Hi. rewrite Z.geb_leb, (proj2 (Z.leb_gt _ _)) by lia.
    reflexivity.
  - intros Hi. rewrite (proj2 (Z.ltb_ge _ _)) by lia. rewrite andb_false_r. reflexivity.
  - intros Hne.
    assert (Hlen : (0 < length (SentenceOrdering.orderedSentences st))%nat)
      by (destruct (SentenceOrdering.orderedSentences st); [contradiction | cbn; lia]).
    split.
    + change (-1 + 1)%Z with 0%Z.
      rewrite (proj2 (Z.ltb_lt _ _)) by lia. cbn [Z.geb Z.compare andb].
      reflexivity.
    + rewrite (proj2 (Z.geb_le _ _)) by lia.
      rewrite (proj2 (Z.ltb_lt _ _)) by lia. cbn [andb].
      rewrite at_index_nat. rewrite (lookup_ge_None_2 _ _ (Nat.le_refl _)).
      reflexivity.
Qed.

(** X18. Moving a sentence up and then down again, or down and then up again,
    restores the state, and the last answer reported is that of the
    original order. *)
Theorem moveSentence_round_trip (st : SentenceOrdering.State) (index target : nat)
    (direction back : SentenceOrdering.Direction) :
  (direction = SentenceOrdering.up /\ back = SentenceOrdering.down /\ index = S target
   \/ direction = SentenceOrdering.down /\ back = SentenceOrdering.up /\ target = S index) ->
  (index < length (SentenceOrdering.orderedSentences st))%nat ->
  (target < length (SentenceOrdering.orderedSentences st))%nat ->
  exists st' answer,
    SentenceOrdering.moveSentence st (Z.of_nat index) direction = Normal (st', Some answer)
    /\ SentenceOrdering.moveSentence st' (Z.of_nat target) back
       = Normal (st, Some (SentenceOrdering.answerString
                             (SentenceOrdering.orderedSentences st))).
Proof.
  intros Hdir Hi Htarget.
  destruct (lookup_lt_is_Some_2 _ _ Hi) as [a Ha].
  destruct (lookup_lt_is_Some_2 _ _ Htarget) as [b Hb].
  assert (Hne : index <> target) by (destruct Hdir as [(_ & _ & ->) | (_ & _ & ->)]; lia).
  assert (Ht : Z.of_nat target
               = match direction with
                 | SentenceOrdering.up => (Z.of_nat index - 1)%Z
                 | SentenceOrdering.down => (Z.of_nat index + 1)%Z
                 end)
    by (destruct Hdir as [(-> & _ & ->) | (-> & _ & ->)]; lia).
  assert (Hi' : Z.of_nat index
                = match back with
                  | SentenceOrdering.up => (Z.of_nat target - 1)%Z
                  | SentenceOrdering.down => (Z.of_nat target + 1)%Z
                  end)
    by (destruct Hdir as [(_ & -> & ->) | (_ & -> & ->)]; lia).
  eexists _, _.
  split; [exact (moveSentence_in_range st index target direction a b Ht Ha Hb) |].
  rewrite (moveSentence_in_range _ target index back a b Hi').
  - cbn [SentenceOrdering.orderedSentences SentenceOrdering.draggedItem
         SentenceOrdering.touchStartY SentenceOrdering.isDragging].
    rewrite (swap_back _ index target a b Hne Ha Hb), State_eta. reflexivity.
  - cbn [SentenceOrdering.orderedSentences].
    apply list_lookup_insert_eq. rewrite length_insert. exact Htarget.
  - cbn [SentenceOrdering.orderedSentences].
    rewrite list_lookup_insert_ne by congruence.
    apply list_lookup_insert_eq. exact Hi.
Qed.

Lemma findIndexFrom_found {A} (p : A -> bool) (l : list A) (i : Z) (d : nat) (x : A) :
  l !! d = Some x -> p x = true ->
  (forall j y, (j < d)%nat -> l !! j = Some y -> p y = false) ->
  JS.findIndexFrom i p l = (i + Z.of_nat d)%Z.
Proof.
  revert i d. induction l as [| y rest IH]; intros i d; [discriminate |].
  destruct d as [| d']; cbn [JS.findIndexFrom].
  - intros [= ->] Hp _. rewrite Hp. lia.
  - cbn. intros Hd Hp Hfirst.
    rewrite (Hfirst 0%nat y ltac:(lia) eq_refl).
    rewrite (IH (i + 1)%Z d' Hd Hp); [lia |].
    intros j z Hj Hz. apply (Hfirst (S j) z); [lia | exact Hz].
Qed.

Lemma findIndexFrom_result {A} (p : A -> bool) (l : list A) (i : Z) :
  (0 <= i)%Z ->
  (JS.findIndexFrom i p l = -1 /\ Forall (fun x => p x = false) l)%Z
  \/ exists d x, JS.findIndexFrom i p l = (i + Z.of_nat d)%Z
                 /\ l !! d = Some x /\ p x = true.
Proof.
  revert i. induction l as [| y rest IH]; intros i Hi; cbn [JS.findIndexFrom].
  - left. split; [reflexivity | constructor].
  - destruct (p y) eqn:Hp.
    + right. exists 0%nat, y. repeat split; [lia | exact Hp].
    + destruct (IH (i + 1)%Z ltac:(lia)) as [[Hnone Hall] | (d & x & Hd & Hx & Hpx)].
      * left. split; [exact Hnone | constructor; assumption].
      * right. exists (S d), x. repeat split; [lia | exact Hx | exact Hpx].
Qed.

Lemma draggedIndex_of (st : SentenceOrdering.State) (d : nat) (s : SentenceOrdering.Sentence) :
  NoDup (List.map SentenceOrdering.id (SentenceOrdering.orderedSentences st)) ->
  SentenceOrdering.orderedSentences st !! d = Some s ->
  SentenceOrdering.draggedItem st = Some (SentenceOrdering.id s) ->
  SentenceOrdering.draggedIndex st = Z.of_nat d.
Proof.
  intros Hnd Hd Hitem. unfold SentenceOrdering.draggedIndex, JS.findIndex.
  rewrite (findIndexFrom_found _ _ 0 d s Hd); [lia | |].
  - rewrite Hitem. apply bool_decide_eq_true. reflexivity.
  - intros j y Hj Hy. rewrite Hitem. apply bool_decide_eq_false. intros [= Hid].
    assert (Hj' : List.map SentenceOrdering.id (SentenceOrdering.orderedSentences st) !! j
                  = Some (SentenceOrdering.id y))
      by (change (List.map SentenceOrdering.id) with (fmap (M := list) SentenceOrdering.id);
          rewrite list_lookup_fmap, Hy; reflexivity).
    assert (Hd' : List.map SentenceOrdering.id (SentenceOrdering.orderedSentences st) !! d
                  = Some (SentenceOrdering.id s))
      by (change (List.map SentenceOrdering.id) with (fmap (M := list) SentenceOrdering.id);
          rewrite list_lookup_fmap, Hd; reflexivity).
    rewrite Hid in Hj'.
    pose proof (NoDup_lookup _ _ _ _ Hnd Hj' Hd'). lia.
Qed.

Lemma noItem_false (item : list N) : item <> [] -> SentenceOrdering.noItem (Some item) = false.
Proof. destruct item; [contradiction | reflexivity]. Qed.

Lemma spliceStart_le (start : Z) (len : nat) : (JS.spliceStart start len <= len)%nat.
Proof. unfold JS.spliceStart. destruct (Z.ltb_spec start 0); lia. Qed.

(** X19. Dropping the dragged sentence on position [targetIndex] takes it out of
    the order and puts it back at that position (counted in the order
    without it, past the end meaning the end): the other sentences keep
    their relative order, the new order is a permutation of the old one,
    its letters are reported as the answer and the drag state is
    cleared. *)
Theorem handleDrop_moves_dragged_sentence
    (st : SentenceOrdering.State) (targetIndex : Z) (d : nat)
    (s : SentenceOrdering.Sentence) :
  NoDup (List.map SentenceOrdering.id (SentenceOrdering.orderedSentences st)) ->
  SentenceOrdering.orderedSentences st !! d = Some s ->
  SentenceOrdering.draggedItem st = Some (SentenceOrdering.id s) ->
  SentenceOrdering.id s <> [] ->
  exists st' start,
    SentenceOrdering.handleDrop st targetIndex
    = Normal (st', Some (SentenceOrdering.answerString
                           (SentenceOrdering.orderedSentences st')))
    /\ start = JS.spliceStart targetIndex
                 (length (SentenceOrdering.orderedSentences st) - 1)
    /\ ((0 <= targetIndex < Z.of_nat (length (SentenceOrdering.orderedSentences st)))%Z ->
        start = Z.to_nat targetIndex)
    /\ SentenceOrdering.orderedSentences st' !! start = Some s
    /\ delete start (SentenceOrdering.orderedSentences st')
       = delete d (SentenceOrdering.orderedSentences st)
    /\ SentenceOrdering.orderedSentences st' ≡ₚ SentenceOrdering.orderedSentences st
    /\ SentenceOrdering.draggedItem st' = None
    /\ SentenceOrdering.isDragging st' = false.
Proof.
  intros Hnd Hd Hitem Hid.
  pose proof (draggedIndex_of st d s Hnd Hd Hitem) as Hidx.
  apply lookup_lt_Some in Hd as Hlt.
  unfold SentenceOrdering.handleDrop.
  rewrite Hitem, (noItem_false _ Hid), Hidx.
  rewrite (proj2 (Z.eqb_neq _ _)) by lia. rewrite Nat2Z.id, Hd.
  rewrite length_delete by (eexists; exact Hd).
  set (rest := delete d (SentenceOrdering.orderedSentences st)).
  set (start := JS.spliceStart targetIndex
                  (length (SentenceOrdering.orderedSentences st) - 1)).
  assert (Hstart : (start <= length rest)%nat).
  { unfold start, rest. rewrite length_delete by (eexists; exact Hd).
    apply spliceStart_le. }
  exists {| SentenceOrdering.orderedSentences := take start rest ++ s :: drop start rest;
            SentenceOrdering.draggedItem := None;
            SentenceOrdering.touchStartY := SentenceOrdering.touchStartY st;
            SentenceOrdering.isDragging := false |}, start.
  split; [reflexivity |].
  cbn [SentenceOrdering.orderedSentences SentenceOrdering.draggedItem
       SentenceOrdering.isDragging].
  split; [reflexivity |]. split.
  { intros Ht. unfold start, JS.spliceStart.
    rewrite (proj2 (Z.ltb_ge _ _)) by lia. lia. }
  split.
  { apply list_lookup_middle. rewrite length_take. lia. }
  split.
  { rewrite <- (take_drop start rest) at 3.
    replace start with (length (take start rest)) at 1 by (rewrite length_take; lia).
    apply delete_middle. }
  split; [| split; reflexivity].
  rewrite <- Permutation_middle, take_drop. symmetry.
  apply delete_Permutation, Hd.
Qed.

(** X20. A drop without a dragged item, or with an item that is the id of no
    sentence, leaves the state alone and reports nothing; and no drop ever
    throws. *)
Theorem handleDrop_without_item (st : SentenceOrdering.State) (targetIndex : Z) :
  (SentenceOrdering.noItem (SentenceOrdering.draggedItem st) = true ->
   SentenceOrdering.handleDrop st targetIndex = Normal (st, None))
  /\ (Forall (fun s => Some (SentenceOrdering.id s) <> SentenceOrdering.draggedItem st)
        (SentenceOrdering.orderedSentences st) ->
      SentenceOrdering.handleDrop st targetIndex = Normal (st, None))
  /\ SentenceOrdering.handleDrop st targetIndex <> TypeError.
Proof.
  unfold SentenceOrdering.handleDrop.
  destruct (SentenceOrdering.noItem (SentenceOrdering.draggedItem st)) eqn:Hno.
  { repeat split; try reflexivity. discriminate. }
  unfold SentenceOrdering.draggedIndex, JS.findIndex.
  destruct (findIndexFrom_result
              (fun s => bool_decide (Some (SentenceOrdering.id s)
                                     = SentenceOrdering.draggedItem st))
              (SentenceOrdering.orderedSentences st) 0 ltac:(lia))
    as [[-> Hall] | (d & x & -> & Hx & Hpx)].
  - repeat split; try reflexivity. discriminate.
  - rewrite (proj2 (Z.eqb_neq _ _)) by lia.
    replace (Z.to_nat (0 + Z.of_nat d)) with d by lia. rewrite Hx.
    split; [discriminate |]. split; [| discriminate].
    intros Hall. exfalso. apply bool_decide_eq_true in Hpx.
    rewrite Forall_forall in Hall. apply (Hall x); [| exact Hpx].
    apply list_elem_of_lookup. exists d. exact Hx.
Qed.

Lemma moveThreshold_not_exceeded (deltaY : Q) :
  (Qabs deltaY <= 40)%Q -> JS.Qlt_bool (80 / 2) (Qabs deltaY) = false.
Proof.
  intros Hle. apply not_true_iff_false. rewrite Qlt_bool_iff.
  change (80 / 2)%Q with (80 # 2)%Q. generalize dependent (Qabs deltaY).
  intros q Hq. lra.
Qed.

(** X21. Lifting the finger ends the drag: the drag state is cleared whatever
    happened, the dragged sentence has moved by at most one position
    however far the finger travelled, the order is a permutation of the
    old one, and a travel of 40 pixels or less changes no order and
    reports no answer. *)
Theorem handleTouchEnd_moves_at_most_one_place
    (st : SentenceOrdering.State) (currentY y0 : Q) (d : nat)
    (s : SentenceOrdering.Sentence) :
  NoDup (List.map SentenceOrdering.id (SentenceOrdering.orderedSentences st)) ->
  SentenceOrdering.orderedSentences st !! d = Some s ->
  SentenceOrdering.draggedItem st = Some (SentenceOrdering.id s) ->
  SentenceOrdering.id s <> [] ->
  SentenceOrdering.touchStartY st = Some y0 ->
  ~ (y0 == 0)%Q ->
  exists st' answer d',
    SentenceOrdering.handleTouchEnd st currentY = Normal (st', answer)
    /\ SentenceOrdering.orderedSentences st' !! d' = Some s
    /\ (d' = d \/ d' = S d \/ S d' = d)
    /\ SentenceOrdering.orderedSentences st' ≡ₚ SentenceOrdering.orderedSentences st
    /\ SentenceOrdering.draggedItem st' = None
    /\ SentenceOrdering.touchStartY st' = None
    /\ SentenceOrdering.isDragging st' = false
    /\ ((Qabs (currentY - y0) <= 40)%Q ->
        SentenceOrdering.orderedSentences st' = SentenceOrdering.orderedSentences st
        /\ answer = None).
Proof.
  intros Hnd Hd Hitem Hid Hy Hy0.
  pose proof (draggedIndex_of st d s Hnd Hd Hitem) as Hidx.
  apply lookup_lt_Some in Hd as Hlt.
  unfold SentenceOrdering.handleTouchEnd.
  rewrite Hitem, (noItem_false _ Hid), Hy, Hidx.
  cbn [SentenceOrdering.noStart orb default from_option]. unfold id.
  assert (Hne : Qeq_bool y0 0 = false)
    by (apply not_true_iff_false; rewrite Qeq_bool_iff; exact Hy0).
  rewrite Hne.
  assert (Hstay : forall a,
    a = Normal (st, @None (list N)) ->
    exists st' answer d',
      (let* moved := a in
       Normal ({| SentenceOrdering.orderedSentences :=
                    SentenceOrdering.orderedSentences (fst moved);
                  SentenceOrdering.draggedItem := None;
                  SentenceOrdering.touchStartY := None;
                  SentenceOrdering.isDragging := false |}, snd moved))
      = Normal (st', answer)
      /\ SentenceOrdering.orderedSentences st' !! d' = Some s
      /\ (d' = d \/ d' = S d \/ S d' = d)
      /\ SentenceOrdering.orderedSentences st' ≡ₚ SentenceOrdering.orderedSentences st
      /\ SentenceOrdering.draggedItem st' = None
      /\ SentenceOrdering.touchStartY st' = None
      /\ SentenceOrdering.isDragging st' = false
      /\ ((Qabs (currentY - y0) <= 40)%Q ->
          SentenceOrdering.orderedSentences st' = SentenceOrdering.orderedSentences st
          /\ answer = None)).
  { intros a ->. eexists _, None, d. split; [reflexivity |].
    cbn [SentenceOrdering.orderedSentences SentenceOrdering.draggedItem
         SentenceOrdering.touchStartY SentenceOrdering.isDragging fst snd].
    split; [exact Hd |]. split; [left; reflexivity |].
    do 4 (split; [reflexivity |]). intros _. split; reflexivity. }
  destruct (JS.Qlt_bool (80 / 2) (Qabs (currentY - y0))) eqn:Hfar;
    [| apply Hstay; reflexivity].
  assert (Hmoved : forall (target : nat) (direction : SentenceOrdering.Direction)
                          (b : SentenceOrdering.Sentence),
    Z.of_nat target
    = match direction with
      | SentenceOrdering.up => (Z.of_nat d - 1)%Z
      | SentenceOrdering.down => (Z.of_nat d + 1)%Z
      end ->
    SentenceOrdering.orderedSentences st !! target = Some b ->
    exists st' answer d',
      (let* moved := SentenceOrdering.moveSentence st (Z.of_nat d) direction in
       Normal ({| SentenceOrdering.orderedSentences :=
                    SentenceOrdering.orderedSentences (fst moved);
                  SentenceOrdering.draggedItem := None;
                  SentenceOrdering.touchStartY := None;
                  SentenceOrdering.isDragging := false |}, snd moved))
      = Normal (st', answer)
      /\ SentenceOrdering.orderedSentences st' !! d' = Some s
      /\ (d' = d \/ d' = S d \/ S d' = d)
      /\ SentenceOrdering.orderedSentences st' ≡ₚ SentenceOrdering.orderedSentences st
      /\ SentenceOrdering.draggedItem st' = None
      /\ SentenceOrdering.touchStartY st' = None
      /\ SentenceOrdering.isDragging st' = false
      /\ ((Qabs (currentY - y0) <= 40)%Q ->
          SentenceOrdering.orderedSentences st' = SentenceOrdering.orderedSentences st
          /\ answer = None)).
  { intros target direction b Ht Hb.
    rewrite (moveSentence_in_range st d target direction s b Ht Hd Hb).
    apply lookup_lt_Some in Hb as Hlt'.
    eexists _, _, target. split; [reflexivity |].
    cbn [SentenceOrdering.orderedSentences SentenceOrdering.draggedItem
         SentenceOrdering.touchStartY SentenceOrdering.isDragging fst snd].
    split.
    { apply list_lookup_insert_eq. rewrite length_insert. exact Hlt'. }
    split; [destruct direction; lia |].
    split.
    { destruct direction.
      - assert (d = S target) as -> by lia.
        rewrite list_insert_insert_ne by lia. apply swap_Permutation; assumption.
      - assert (target = S d) as -> by lia. apply swap_Permutation; assumption. }
    do 3 (split; [reflexivity |]).
    intros Hnear. rewrite (moveThreshold_not_exceeded _ Hnear) in Hfar. discriminate. }
  destruct (JS.Qlt_bool (currentY - y0) 0).
  - destruct d as [| d0].
    + apply Hstay. unfold SentenceOrdering.moveSentence. reflexivity.
    + destruct (lookup_lt_is_Some_2 (SentenceOrdering.orderedSentences st) d0 ltac:(lia))
        as [b Hb].
      apply (Hmoved d0 SentenceOrdering.up b); [lia | exact Hb].
  - destruct (decide (S d < length (SentenceOrdering.orderedSentences st))%nat) as [Hin | Hout].
    + destruct (lookup_lt_is_Some_2 (SentenceOrdering.orderedSentences st) (S d) Hin)
        as [b Hb].
      apply (Hmoved (S d) SentenceOrdering.down b); [lia | exact Hb].
    + apply Hstay. unfold SentenceOrdering.moveSentence.
      rewrite (proj2 (Z.ltb_ge _ _)) by lia. rewrite andb_false_r. reflexivity.
Qed.

(** X22. With no dragged item, or with no recorded start of the touch (a touch
    that started at the very top of the window, [clientY] 0, counts as
    none), lifting the finger changes nothing: the drag state is not
    cleared either. *)
Theorem handleTouchEnd_without_start (st : SentenceOrdering.State) (currentY : Q) :
  (SentenceOrdering.draggedItem st = None
   \/ SentenceOrdering.draggedItem st = Some []
   \/ SentenceOrdering.touchStartY st = None
   \/ SentenceOrdering.touchStartY st = Some 0%Q) ->
  SentenceOrdering.handleTouchEnd st currentY = Normal (st, None).
Proof.
  unfold SentenceOrdering.handleTouchEnd.
  intros [-> | [-> | [-> | ->]]]; cbn [SentenceOrdering.noItem SentenceOrdering.noStart orb];
    try reflexivity.
  all: destruct (SentenceOrdering.noItem (SentenceOrdering.draggedItem st)); reflexivity.
Qed.

(** ** Stored answers and the order they stand for *)

Lemma splitCommaSpaceFrom_last (acc p : list N) :
  Forall (fun c => c <> 44%N) p ->
  JS.splitCommaSpaceFrom acc p = [rev acc ++ p].
Proof.
  revert acc. induction p as [| c p' IH]; intros acc Hp; cbn [JS.splitCommaSpaceFrom].
  - rewrite app_nil_r. reflexivity.
  - apply Forall_cons in Hp as [Hc Hp'].
    rewrite (proj2 (N.eqb_neq c 44) Hc). cbn [andb].
    replace (match p' with
             | [] => JS.splitCommaSpaceFrom (c :: acc) p'
             | _ :: _ => JS.splitCommaSpaceFrom (c :: acc) p'
             end) with (JS.splitCommaSpaceFrom (c :: acc) p') by (destruct p'; reflexivity).
    rewrite (IH (c :: acc) Hp'). cbn [rev]. rewrite <- app_assoc. reflexivity.
Qed.

Lemma splitCommaSpaceFrom_piece (acc p rest : list N) :
  Forall (fun c => c <> 44%N) p ->
  JS.splitCommaSpaceFrom acc (p ++ 44%N :: 32%N :: rest)
  = (rev acc ++ p) :: JS.splitCommaSpaceFrom [] rest.
Proof.
  revert acc. induction p as [| c p' IH]; intros acc Hp.
  - cbn. rewrite app_nil_r. reflexivity.
  - apply Forall_cons in Hp as [Hc Hp'].
    change ((c :: p') ++ 44%N :: 32%N :: rest) with (c :: (p' ++ 44%N :: 32%N :: rest)).
    cbn [JS.splitCommaSpaceFrom].
    rewrite (proj2 (N.eqb_neq c 44) Hc). cbn [andb].
    replace (match p' ++ 44%N :: 32%N :: rest with
             | [] => JS.splitCommaSpaceFrom (c :: acc) (p' ++ 44%N :: 32%N :: rest)
             | _ :: _ => JS.splitCommaSpaceFrom (c :: acc) (p' ++ 44%N :: 32%N :: rest)
             end)
      with (JS.splitCommaSpaceFrom (c :: acc) (p' ++ 44%N :: 32%N :: rest))
      by (destruct (p' ++ 44%N :: 32%N :: rest); reflexivity).
    rewrite (IH (c :: acc) Hp'). cbn [rev]. rewrite <- app_assoc. reflexivity.
Qed.

(** Splitting at ", " undoes joining with ", " when no part has a comma. *)
Lemma splitCommaSpace_join (parts : list (list N)) :
  parts <> [] ->
  Forall (Forall (fun c => c <> 44%N)) parts ->
  JS.splitCommaSpace (JS.join (JS.str ", ") parts) = parts.
Proof.
  destruct parts as [| p parts]; [contradiction |]. intros _.
  revert p. induction parts as [| q rest IH]; intros p Hall.
  - apply Forall_cons in Hall as [Hp _]. cbn [JS.join].
    unfold JS.splitCommaSpace. rewrite (splitCommaSpaceFrom_last [] p Hp). reflexivity.
  - apply Forall_cons in Hall as [Hp Hrest].
    change (JS.join (JS.str ", ") (p :: q :: rest))
      with (p ++ 44%N :: 32%N :: JS.join (JS.str ", ") (q :: rest)).
    unfold JS.splitCommaSpace. rewrite (splitCommaSpaceFrom_piece [] p _ Hp).
    cbn [rev app]. f_equal. exact (IH q Hrest).
Qed.

Lemma includes_join_comma (parts : list (list N)) :
  (2 <= length parts)%nat ->
  JS.includes (JS.join (JS.str ", ") parts) (JS.str ",") = true.
Proof.
  destruct parts as [| p [| q rest]]; cbn [length]; [lia | lia |]. intros _.
  change (JS.join (JS.str ", ") (p :: q :: rest))
    with (p ++ 44%N :: 32%N :: JS.join (JS.str ", ") (q :: rest)).
  apply includes_app_l. reflexivity.
Qed.

Lemma getInitialOrder_cases (sentences : list SentenceOrdering.Sentence)
    (selectedAnswer : list N) :
  SentenceOrdering.getInitialOrder sentences selectedAnswer
  = if JS.includes selectedAnswer (JS.str ",") then
      let reorderedSentences :=
        omap (fun l => JS.find (fun s => bool_decide (SentenceOrdering.letter s = l))
                         sentences)
          (JS.splitCommaSpace selectedAnswer) in
      if (length reorderedSentences =? length sentences)%nat
      then reorderedSentences else sentences
    else sentences.
Proof. destruct selectedAnswer; reflexivity. Qed.

Lemma includes_comma_free (p : list N) :
  Forall (fun c => c <> 44%N) p -> JS.includes p (JS.str ",") = false.
Proof.
  induction 1 as [| c p' Hc _ IH]; [reflexivity |].
  cbn [JS.includes]. rewrite IH, orb_false_r.
  change (JS.str ",") with [44%N]. cbn [JS.startsWith].
  rewrite (proj2 (N.eqb_neq c 44) Hc). reflexivity.
Qed.

Lemma find_letter (sentences : list SentenceOrdering.Sentence) (s : SentenceOrdering.Sentence) :
  NoDup (List.map SentenceOrdering.letter sentences) ->
  s ∈ sentences ->
  JS.find (fun x => bool_decide (SentenceOrdering.letter x = SentenceOrdering.letter s))
    sentences = Some s.
Proof.
  induction sentences as [| x rest IH]; intros Hnd Hin; [inversion Hin |].
  cbn [List.map] in Hnd. apply NoDup_cons in Hnd as [Hx Hnd].
  cbn [JS.find]. apply elem_of_cons in Hin as [-> | Hin].
  - rewrite bool_decide_eq_true_2 by reflexivity. reflexivity.
  - rewrite bool_decide_eq_false_2; [exact (IH Hnd Hin) |].
    intros Heq. apply Hx. rewrite Heq.
    change (List.map SentenceOrdering.letter rest) with (SentenceOrdering.letter <$> rest).
    apply list_elem_of_fmap. exists s. split; [reflexivity | exact Hin].
Qed.

Lemma find_member {A} (p : A -> bool) (items : list A) (x : A) :
  JS.find p items = Some x -> x ∈ items.
Proof.
  induction items as [| y rest IH]; cbn [JS.find]; [discriminate |].
  destruct (p y).
  - intros [= ->]. apply elem_of_cons. left. reflexivity.
  - intros H. apply elem_of_cons. right. exact (IH H).
Qed.

Lemma omap_find_letters (sentences order : list SentenceOrdering.Sentence) :
  NoDup (List.map SentenceOrdering.letter sentences) ->
  Forall (fun s => s ∈ sentences) order ->
  omap (fun l => JS.find (fun s => bool_decide (SentenceOrdering.letter s = l)) sentences)
    (List.map SentenceOrdering.letter order) = order.
Proof.
  intros Hnd. induction 1 as [| s rest Hs _ IH]; [reflexivity |].
  cbn [List.map omap list_omap]. rewrite (find_letter sentences s Hnd Hs).
  f_equal. exact IH.
Qed.

(** X23. Whatever answer is stored, the widget starts with as many sentences as
    the question has, each of them a sentence of the question; it need not
    be a rearrangement of them, since a letter repeated in the stored
    answer repeats its sentence. *)
Theorem getInitialOrder_keeps_the_count
    (sentences : list SentenceOrdering.Sentence) (selectedAnswer : list N) :
  length (SentenceOrdering.getInitialOrder sentences selectedAnswer) = length sentences
  /\ Forall (fun s => s ∈ sentences)
       (SentenceOrdering.getInitialOrder sentences selectedAnswer).
Proof.
  assert (Hdefault : Forall (fun s => s ∈ sentences) sentences)
    by (apply Forall_forall; intros s Hs; exact Hs).
  unfold SentenceOrdering.getInitialOrder.
  destruct selectedAnswer as [| c r]; [split; [reflexivity | exact Hdefault] |].
  destruct (JS.includes (c :: r) (JS.str ",")); [| split; [reflexivity | exact Hdefault]].
  destruct (Nat.eqb_spec
              (length (omap (fun l => JS.find
                                        (fun s => bool_decide (SentenceOrdering.letter s = l))
                                        sentences)
                         (JS.splitCommaSpace (c :: r))))
              (length sentences)) as [Hlen | _];
    [| split; [reflexivity | exact Hdefault]].
  split; [exact Hlen |].
  apply Forall_forall. intros s Hs.
  apply list_elem_of_omap in Hs as (l & _ & Hfind).
  exact (find_member _ _ _ Hfind).
Qed.

(** X24. The answer the widget reports is read back as the order it was
    reported for: for sentences with distinct, comma-free letters,
    [getInitialOrder] of the reported string of any rearrangement of the
    sentences is that rearrangement. *)
Theorem getInitialOrder_restores_reported_order
    (sentences order : list SentenceOrdering.Sentence) :
  NoDup (List.map SentenceOrdering.letter sentences) ->
  Forall (fun s => Forall (fun c => c <> 44%N) (SentenceOrdering.letter s)) sentences ->
  order ≡ₚ sentences ->
  SentenceOrdering.getInitialOrder sentences (SentenceOrdering.answerString order) = order.
Proof.
  intros Hnd Hfree Hperm.
  assert (Hin : Forall (fun s => s ∈ sentences) order).
  { apply Forall_forall. intros s Hs. rewrite <- Hperm. exact Hs. }
  assert (Hfree' : Forall (Forall (fun c => c <> 44%N))
                     (List.map SentenceOrdering.letter order)).
  { change (List.map SentenceOrdering.letter order) with (SentenceOrdering.letter <$> order).
    apply Forall_fmap. rewrite Hperm. exact Hfree. }
  rewrite getInitialOrder_cases. unfold SentenceOrdering.answerString.
  destruct (decide (2 <= length order)%nat) as [Hlong | Hshort].
  - rewrite includes_join_comma by (rewrite length_map; exact Hlong).
    cbv zeta. rewrite splitCommaSpace_join;
      [| destruct order; [cbn in Hlong; lia | discriminate] | exact Hfree'].
    rewrite (omap_find_letters sentences order Hnd Hin).
    rewrite (Permutation_length Hperm), Nat.eqb_refl. reflexivity.
  - destruct order as [| a [| b rest]]; [| | cbn [length] in Hshort; lia].
    + apply Permutation_nil_l in Hperm. subst sentences. reflexivity.
    + apply Permutation_singleton_l in Hperm. subst sentences.
      cbn [List.map JS.join].
      apply Forall_cons in Hfree' as [Ha _].
      rewrite (includes_comma_free _ Ha). reflexivity.
Qed.

(** ** The widget's answers under the scoring engine *)

Lemma endsWithWhitespace_app (d : bool) (x y : list N) :
  endsWithWhitespace d (x ++ y) = endsWithWhitespace (endsWithWhitespace d x) y.
Proof.
  revert d. induction x as [| c x' IH]; intros d; [reflexivity |].
  cbn [app endsWithWhitespace]. apply IH.
Qed.

Lemma endsWithWhitespace_plain (d : bool) (p : list N) :
  Forall (fun c => JS.isWhiteSpace c = false) p ->
  endsWithWhitespace d p = match p with [] => d | _ :: _ => false end.
Proof.
  intros Hp. revert d. induction Hp as [| c p' Hc _ IH]; intros d; [reflexivity |].
  cbn [endsWithWhitespace]. rewrite IH, Hc. destruct p'; reflexivity.
Qed.

(** A string that neither starts nor ends with white space is its own
    trimmed form. *)
Lemma trim_fixed (s : list N) :
  match s with c :: _ => JS.isWhiteSpace c = false | [] => True end ->
  endsWithWhitespace false s = false ->
  JS.trim s = s.
Proof.
  intros Hhead Hlast. unfold JS.trim, JS.trimEnd.
  assert (Hstart : JS.trimStart s = s).
  { destruct s as [| c r]; [reflexivity |]. cbn [JS.trimStart]. rewrite Hhead. reflexivity. }
  rewrite Hstart. clear Hhead Hstart.
  destruct s as [| c r] using rev_ind; [reflexivity |].
  rewrite endsWithWhitespace_snoc in Hlast.
  rewrite rev_app_distr. cbn [rev app JS.trimStart]. rewrite Hlast.
  cbn [rev]. rewrite rev_involutive. reflexivity.
Qed.

Lemma join_plain_trimmed (p : list N) (rest : list (list N)) :
  Forall plainLetter (p :: rest) ->
  JS.trim (JS.join (JS.str ", ") (p :: rest)) = JS.join (JS.str ", ") (p :: rest).
Proof.
  intros Hall. apply trim_fixed.
  - apply Forall_cons in Hall as [[Hne Hp] _].
    destruct p as [| c p']; [contradiction |].
    apply Forall_cons in Hp as [[_ Hc] _].
    destruct rest; exact Hc.
  - enough (Hany : forall d, endsWithWhitespace d (JS.join (JS.str ", ") (p :: rest)) = false)
      by apply Hany.
    revert p Hall.
    induction rest as [| q rest' IH]; intros p Hall d.
    + apply Forall_cons in Hall as [[Hne Hp] _]. cbn [JS.join].
      rewrite endsWithWhitespace_plain
        by (eapply Forall_impl; [exact Hp | intros c [_ Hc]; exact Hc]).
      destruct p; [contradiction | reflexivity].
    + apply Forall_cons in Hall as [_ Hrest].
      change (JS.join (JS.str ", ") (p :: q :: rest'))
        with (p ++ 44%N :: 32%N :: JS.join (JS.str ", ") (q :: rest')).
      rewrite endsWithWhitespace_app. cbn [endsWithWhitespace].
      apply IH. exact Hrest.
Qed.

(** X25. An order reported by the widget scores the point of an ordering
    question 36-40 exactly when its letters, in order, are the letters of
    the key: the string the widget builds has the very form of the key. *)
Theorem reported_order_scores_iff_key_order
    (answers : gmap Z (list N)) (i : Z) (key : list N)
    (order : list SentenceOrdering.Sentence) :
  (36 <= i <= 40)%Z ->
  CORRECT_ANSWERS i = Some key ->
  Forall (fun s => plainLetter (SentenceOrdering.letter s)) order ->
  orderingPoint (<[i := SentenceOrdering.answerString order]> answers) i = true
  <-> List.map SentenceOrdering.letter order = JS.splitCommaSpace key.
Proof.
  intros Hi Hkey Hplain.
  assert (Hkeys : JS.join (JS.str ", ") (JS.splitCommaSpace key) = key
                  /\ JS.trim key = key /\ key <> []).
  { assert (Hcase : (i = 36 \/ i = 37 \/ i = 38 \/ i = 39 \/ i = 40)%Z) by lia.
    destruct Hcase as [-> | [-> | [-> | [-> | ->]]]];
      injection Hkey as <-; repeat split; try reflexivity; discriminate. }
  destruct Hkeys as (Hjoin & Htrim & Hne).
  unfold orderingPoint, SentenceOrdering.answerString.
  rewrite lookup_insert_eq, Hkey. cbn [fmap option_fmap option_map].
  rewrite bool_decide_eq_true.
  set (letters := List.map SentenceOrdering.letter order).
  assert (Hletters : Forall plainLetter letters).
  { unfold letters.
    change (List.map SentenceOrdering.letter order) with (SentenceOrdering.letter <$> order).
    apply Forall_fmap. exact Hplain. }
  split.
  - intros [= Heq].
    destruct letters as [| p rest] eqn:Hl; [exfalso; apply Hne; symmetry; exact Heq |].
    rewrite (join_plain_trimmed p rest Hletters) in Heq.
    rewrite <- Heq. symmetry. apply splitCommaSpace_join; [discriminate |].
    eapply Forall_impl; [exact Hletters |].
    intros q [_ Hq]. eapply Forall_impl; [exact Hq | intros c [Hc _]; exact Hc].
  - intros ->. rewrite Hjoin, Htrim. reflexivity.
Qed.

(** ** The further properties at concrete inputs *)

(** The completion bound for a map with the single entry of question 1. *)
Lemma completion_at_most_100_witness :
  (size ({[1%Z := JS.str "B"]} : gmap Z (list N)) <= 56)%nat
  /\ (completionRate {[1%Z := JS.str "B"]} <= 100)%Q
  /\ (0 <= JS.Math_round (completionRate {[1%Z := JS.str "B"]}) <= 100)%Z.
Proof.
  apply (completion_at_most_100 {[1%Z := JS.str "B"]}).
  intros k [x Hk]. apply lookup_singleton_Some in Hk. lia.
Defined.

(** An entry under identifier 99 added to the sample with 14 grammar
    points. *)
Lemma unused_identifier_changes_only_summary_witness :
  (99 < 1 \/ 56 < 99)%Z
  /\ exists report report',
       calculateSEMFLevelLatin answersGrammar14ReadingWriting7 = Normal report
       /\ calculateSEMFLevelLatin (<[99%Z := []]> answersGrammar14ReadingWriting7)
          = Normal report'
       /\ skills report' = skills report
       /\ tieBreakerSkill report' = tieBreakerSkill report
       /\ overallLevel report' = overallLevel report
       /\ descriptions report' = descriptions report.
Proof.
  assert (H : (99 < 1 \/ 56 < 99)%Z) by (right; lia).
  split; [exact H |].
  exact (unused_identifier_changes_only_summary JS.asciiToUpperCase JS.asciiToLowerCase
           answersGrammar14ReadingWriting7 99%Z [] H).
Defined.

(** The fallback at the score 51. *)
Lemma mapToLevel_outside_scale_witness :
  (51 < 0 \/ 50 < 51)%Q /\ bandsContaining 51 = [] /\ mapToLevel 51 = JS.str "S1".
Proof.
  assert (H : (51 < 0 \/ 50 < 51)%Q) by (right; vm_compute; reflexivity).
  split; [exact H |]. exact (mapToLevel_outside_scale 51%Q H).
Defined.

(** Monotonicity between the scores 10 and 30. *)
Lemma mapToLevel_monotone_in_bands_witness :
  bandsContaining 10 <> [] /\ bandsContaining 30 <> [] /\ (10 <= 30)%Q
  /\ (bandPosition (mapToLevel 10) <= bandPosition (mapToLevel 30))%Z.
Proof.
  assert (Ha : bandsContaining 10 <> []) by (vm_compute; discriminate).
  assert (Hb : bandsContaining 30 <> []) by (vm_compute; discriminate).
  assert (Hle : (10 <= 30)%Q) by (vm_compute; discriminate).
  split; [exact Ha |]. split; [exact Hb |]. split; [exact Hle |].
  exact (mapToLevel_monotone_in_bands 10%Q 30%Q Ha Hb Hle).
Defined.

(** The samples with 14 and with 15 grammar points and the same 7 reading
    and writing points. *)
Lemma grammar_matters_through_threshold_witness :
  calculateActualScoresLatin answersGrammar14ReadingWriting7
  = Normal {| GrammarVocabulary := 14; ReadingWriting := 7; Listening := 0 |}
  /\ calculateActualScoresLatin answersGrammar15ReadingWriting7
     = Normal {| GrammarVocabulary := 15; ReadingWriting := 7; Listening := 0 |}
  /\ exists report1 report2,
       calculateSEMFLevelLatin answersGrammar14ReadingWriting7 = Normal report1
       /\ calculateSEMFLevelLatin answersGrammar15ReadingWriting7 = Normal report2
       /\ List.map (fun r => (skill r, rawScore r, level r, tieBreakerApplied r))
            (skills report1)
          = List.map (fun r => (skill r, rawScore r, level r, tieBreakerApplied r))
              (skills report2)
       /\ overallLevel report1 = overallLevel report2
       /\ descriptions report1 = descriptions report2.
Proof.
  assert (H1 : calculateActualScoresLatin answersGrammar14ReadingWriting7
               = Normal {| GrammarVocabulary := 14; ReadingWriting := 7; Listening := 0 |})
    by (vm_compute; reflexivity).
  assert (H2 : calculateActualScoresLatin answersGrammar15ReadingWriting7
               = Normal {| GrammarVocabulary := 15; ReadingWriting := 7; Listening := 0 |})
    by (vm_compute; reflexivity).
  split; [exact H1 |]. split; [exact H2 |].
  apply (grammar_matters_through_threshold JS.asciiToUpperCase JS.asciiToLowerCase
           answersGrammar14ReadingWriting7 answersGrammar15ReadingWriting7 _ _ H1 H2).
  - reflexivity.
  - reflexivity.
  - cbn. lia.
Defined.

(** An essay of eighty times the word benefit. *)
Lemma essay_point_needs_159_code_units_witness :
  essayPoint JS.asciiToLowerCase {[44%Z := essayEightyBenefits]} = true
  /\ exists a, ({[44%Z := essayEightyBenefits]} : gmap Z (list N)) !! 44%Z = Some a
               /\ (159 <= length (JS.trim a))%nat.
Proof.
  assert (H : essayPoint JS.asciiToLowerCase {[44%Z := essayEightyBenefits]} = true)
    by (vm_compute; reflexivity).
  split; [exact H |].
  exact (essay_point_needs_159_code_units JS.asciiToLowerCase _ H).
Defined.

(** Question 41 answered with two keywords, then with the same text inside
    a longer one, under the Basic Latin lower-casing. *)
Lemma text_point_survives_padding_witness :
  (41 <= 41 <= 43)%Z
  /\ JS.asciiToLowerCase
       (JS.str "I value " ++ JS.str "Flexibility and commute" ++ JS.str " most.")
     = JS.str "i value " ++ JS.asciiToLowerCase (JS.str "Flexibility and commute")
       ++ JS.str " most."
  /\ textHit JS.asciiToLowerCase (<[41%Z := JS.str "Flexibility and commute"]> ∅) 41 = true
  /\ textHit JS.asciiToLowerCase
       (<[41%Z := JS.str "I value " ++ JS.str "Flexibility and commute" ++ JS.str " most."]> ∅)
       41 = true.
Proof.
  assert (Hi : (41 <= 41 <= 43)%Z) by lia.
  assert (Hblock :
    JS.asciiToLowerCase
      (JS.str "I value " ++ JS.str "Flexibility and commute" ++ JS.str " most.")
    = JS.str "i value " ++ JS.asciiToLowerCase (JS.str "Flexibility and commute")
      ++ JS.str " most.") by (vm_compute; reflexivity).
  assert (H : textHit JS.asciiToLowerCase
                (<[41%Z := JS.str "Flexibility and commute"]> ∅) 41 = true)
    by (vm_compute; reflexivity).
  split; [exact Hi |]. split; [exact Hblock |]. split; [exact H |].
  exact (text_point_survives_padding JS.asciiToLowerCase ∅ 41%Z _ _ _ _ _ Hi Hblock H).
Defined.

(** The names of the identifiers 1 to 20 are decimal numerals; the bound
    16 is reached. *)
Lemma simulated_scores_ignore_answers_witness :
  (GrammarVocabulary
     (ResultsView.calculateRawScores (answersNamed namesOneToTwenty)) <= 16)%Z
  /\ (ReadingWriting
        (ResultsView.calculateRawScores (answersNamed namesOneToTwenty)) <= 18)%Z
  /\ (Listening
        (ResultsView.calculateRawScores (answersNamed namesOneToTwenty)) <= 9)%Z.
Proof.
  apply (proj1 (proj2 (proj2 (proj2 (proj2
           (simulated_scores_ignore_answers (answersNamed namesOneToTwenty))))))).
  intros name k [a Ha] Hk. unfold answersNamed, namesOneToTwenty in Ha.
  cbn [List.map list_to_map foldr] in Ha.
  repeat (apply lookup_insert_Some in Ha as [[<- _] | [_ Ha]];
          [vm_compute in Hk; injection Hk as <-; reflexivity |]).
  rewrite lookup_empty in Ha. discriminate Ha.
Defined.

(** Sentence B moved up in the sample order. *)
Lemma moveSentence_swaps_neighbours_witness :
  exists st' a b,
    SentenceOrdering.moveSentence stateAtRest 1 SentenceOrdering.up
    = Normal (st', Some (SentenceOrdering.answerString
                           (SentenceOrdering.orderedSentences st')))
    /\ SentenceOrdering.orderedSentences stateAtRest !! 1%nat = Some a
    /\ SentenceOrdering.orderedSentences stateAtRest !! 0%nat = Some b
    /\ SentenceOrdering.orderedSentences st' !! 1%nat = Some b
    /\ SentenceOrdering.orderedSentences st' !! 0%nat = Some a
    /\ (forall j, j <> 1%nat -> j <> 0%nat ->
                  SentenceOrdering.orderedSentences st' !! j
                  = SentenceOrdering.orderedSentences stateAtRest !! j)
    /\ SentenceOrdering.orderedSentences st' ≡ₚ SentenceOrdering.orderedSentences stateAtRest
    /\ SentenceOrdering.draggedItem st' = SentenceOrdering.draggedItem stateAtRest
    /\ SentenceOrdering.touchStartY st' = SentenceOrdering.touchStartY stateAtRest
    /\ SentenceOrdering.isDragging st' = SentenceOrdering.isDragging stateAtRest.
Proof.
  apply (moveSentence_swaps_neighbours stateAtRest 1 0 SentenceOrdering.up).
  - reflexivity.
  - cbn. lia.
  - cbn. lia.
Defined.

(** The first sentence of the sample order moved up. *)
Lemma moveSentence_at_the_ends_witness :
  (0 <= 0)%Z
  /\ SentenceOrdering.moveSentence stateAtRest 0 SentenceOrdering.up
     = Normal (stateAtRest, None).
Proof.
  assert (H : (0 <= 0)%Z) by lia.
  split; [exact H |].
  exact (proj1 (moveSentence_at_the_ends stateAtRest 0) H).
Defined.

(** Sentence B of the sample order moved up and down again. *)
Lemma moveSentence_round_trip_witness :
  exists st' answer,
    SentenceOrdering.moveSentence stateAtRest 1 SentenceOrdering.up
    = Normal (st', Some answer)
    /\ SentenceOrdering.moveSentence st' 0 SentenceOrdering.down
       = Normal (stateAtRest,
                 Some (SentenceOrdering.answerString
                         (SentenceOrdering.orderedSentences stateAtRest))).
Proof.
  apply (moveSentence_round_trip stateAtRest 1 0 SentenceOrdering.up SentenceOrdering.down).
  - left. repeat split.
  - cbn. lia.
  - cbn. lia.
Defined.

(** Sentence B of the sample order dropped on the last position. *)
Lemma handleDrop_moves_dragged_sentence_witness :
  exists st' start,
    SentenceOrdering.handleDrop stateDraggingB 3
    = Normal (st', Some (SentenceOrdering.answerString
                           (SentenceOrdering.orderedSentences st')))
    /\ start = JS.spliceStart 3 (length (SentenceOrdering.orderedSentences stateDraggingB) - 1)
    /\ ((0 <= 3 < Z.of_nat (length (SentenceOrdering.orderedSentences stateDraggingB)))%Z ->
        start = Z.to_nat 3)
    /\ SentenceOrdering.orderedSentences st' !! start
       = Some (sentenceOf "B" "She left home early.")
    /\ delete start (SentenceOrdering.orderedSentences st')
       = delete 1%nat (SentenceOrdering.orderedSentences stateDraggingB)
    /\ SentenceOrdering.orderedSentences st'
       ≡ₚ SentenceOrdering.orderedSentences stateDraggingB
    /\ SentenceOrdering.draggedItem st' = None
    /\ SentenceOrdering.isDragging st' = false.
Proof.
  apply (handleDrop_moves_dragged_sentence stateDraggingB 3 1
           (sentenceOf "B" "She left home early.")).
  - apply (bool_decide_unpack _). vm_compute. exact I.
  - reflexivity.
  - reflexivity.
  - discriminate.
Defined.

(** A drop on the widget at rest. *)
Lemma handleDrop_without_item_witness :
  SentenceOrdering.noItem (SentenceOrdering.draggedItem stateAtRest) = true
  /\ SentenceOrdering.handleDrop stateAtRest 2 = Normal (stateAtRest, None).
Proof.
  assert (H : SentenceOrdering.noItem (SentenceOrdering.draggedItem stateAtRest) = true)
    by reflexivity.
  split; [exact H |].
  exact (proj1 (handleDrop_without_item stateAtRest 2) H).
Defined.

(** Sentence B released 50 pixels below the start of the touch. *)
Lemma handleTouchEnd_moves_at_most_one_place_witness :
  ~ (100 == 0)%Q
  /\ exists st' answer d',
       SentenceOrdering.handleTouchEnd stateDraggingB 150 = Normal (st', answer)
       /\ SentenceOrdering.orderedSentences st' !! d'
          = Some (sentenceOf "B" "She left home early.")
       /\ (d' = 1%nat \/ d' = 2%nat \/ S d' = 1%nat)
       /\ SentenceOrdering.orderedSentences st'
          ≡ₚ SentenceOrdering.orderedSentences stateDraggingB
       /\ SentenceOrdering.draggedItem st' = None
       /\ SentenceOrdering.touchStartY st' = None
       /\ SentenceOrdering.isDragging st' = false
       /\ ((Qabs (150 - 100) <= 40)%Q ->
           SentenceOrdering.orderedSentences st'
           = SentenceOrdering.orderedSentences stateDraggingB
           /\ answer = None).
Proof.
  assert (H0 : ~ (100 == 0)%Q) by (vm_compute; discriminate).
  split; [exact H0 |].
  apply (handleTouchEnd_moves_at_most_one_place stateDraggingB 150%Q 100%Q 1
           (sentenceOf "B" "She left home early.")).
  - apply (bool_decide_unpack _). vm_compute. exact I.
  - reflexivity.
  - reflexivity.
  - discriminate.
  - reflexivity.
  - exact H0.
Defined.

(** A touch that started at the top edge. *)
Lemma handleTouchEnd_without_start_witness :
  SentenceOrdering.touchStartY stateDraggingFromTop = Some 0%Q
  /\ SentenceOrdering.handleTouchEnd stateDraggingFromTop 150
     = Normal (stateDraggingFromTop, None).
Proof.
  assert (H : SentenceOrdering.touchStartY stateDraggingFromTop = Some 0%Q) by reflexivity.
  split; [exact H |].
  exact (handleTouchEnd_without_start stateDraggingFromTop 150%Q
           (or_intror (or_intror (or_intror H)))).
Defined.

(** The sample sentences with the first two exchanged. *)
Lemma getInitialOrder_restores_reported_order_witness :
  SentenceOrdering.getInitialOrder sentencesABCD
    (SentenceOrdering.answerString
       [ sentenceOf "B" "She left home early."; sentenceOf "A" "Finally, she arrived.";
         sentenceOf "C" "Then the bus broke down."; sentenceOf "D" "So she walked." ])
  = [ sentenceOf "B" "She left home early."; sentenceOf "A" "Finally, she arrived.";
      sentenceOf "C" "Then the bus broke down."; sentenceOf "D" "So she walked." ].
Proof.
  apply (getInitialOrder_restores_reported_order sentencesABCD).
  - apply (bool_decide_unpack _). vm_compute. exact I.
  - apply (bool_decide_unpack _). vm_compute. exact I.
  - apply perm_swap.
Defined.

(** The order B, C, D, A reported for question 36. *)
Lemma reported_order_scores_iff_key_order_witness :
  (36 <= 36 <= 40)%Z
  /\ CORRECT_ANSWERS 36 = Some (JS.str "B, C, D, A")
  /\ (orderingPoint
        (<[36%Z := SentenceOrdering.answerString
                     [ sentenceOf "B" "She left home early.";
                       sentenceOf "C" "Then the bus broke down.";
                       sentenceOf "D" "So she walked.";
                       sentenceOf "A" "Finally, she arrived." ]]> ∅) 36 = true
      <-> List.map SentenceOrdering.letter
            [ sentenceOf "B" "She left home early.";
              sentenceOf "C" "Then the bus broke down.";
              sentenceOf "D" "So she walked.";
              sentenceOf "A" "Finally, she arrived." ]
          = JS.splitCommaSpace (JS.str "B, C, D, A")).
Proof.
  assert (Hi : (36 <= 36 <= 40)%Z) by lia.
  assert (Hkey : CORRECT_ANSWERS 36 = Some (JS.str "B, C, D, A")) by reflexivity.
  split; [exact Hi |]. split; [exact Hkey |].
  apply (reported_order_scores_iff_key_order ∅ 36%Z _ _ Hi Hkey).
  repeat (constructor; [split; [discriminate | repeat constructor; discriminate] |]).
  constructor.
Defined.
